(** * rsfapp: the data-transformation core of the survival dashboard

    A shallow embedding of [src/lib/survival-utils.ts] (stage encoding,
    delimited-text parsing, risk classification, identifier detection,
    survival look-up and export) together with the properties its
    specification states about it; then of the rest of that module
    (demonstration curves, formatting) and of the handlers of the page,
    of its table of results and of its editor of patient data that call
    it, with further properties of the code.

    Numbers are IEEE-754 binary64 values, represented by the standard
    library's [spec_float]; strings are sequences of code units, of
    which the code units 0 to 255 are represented. *)

From Stdlib Require Import ZArith QArith Qround Qpower Qfield.
From Stdlib Require Import List Permutation String Ascii Bool Lia SpecFloat.
From Stdlib Require Qcanon.
Import ListNotations.

Local Open Scope Z_scope.

(** ** Numbers *)

Module Num.

Definition number := spec_float.

Definition prec : Z := 53.
Definition emax : Z := 1024.

Definition leb : number -> number -> bool := SFleb.
Definition ltb : number -> number -> bool := SFltb.
(** [===] on two numbers. *)
Definition eqb : number -> number -> bool := SFeqb.

Definition isNaN (x : number) : bool :=
  match x with S754_nan => true | _ => false end.

Definition isFinite (x : number) : bool :=
  match x with S754_zero _ | S754_finite _ _ _ => true | _ => false end.

(** A value that a binary64 register can actually hold. *)
Definition valid (x : number) : bool := valid_binary prec emax x.

Definition of_Z (z : Z) : number := binary_normalize prec emax z 0 false.

Definition zero : number := S754_zero false.
Definition one : number := of_Z 1.

(** The position of a number that is not NaN on the extended real
    line, as a triple compared lexicographically. *)
Definition key (x : number) : Z * Z * Z :=
  match x with
  | S754_nan => (0, 0, 0)
  | S754_zero _ => (0, 0, 0)
  | S754_infinity true => (-2, 0, 0)
  | S754_infinity false => (2, 0, 0)
  | S754_finite false m e => (1, e, Zpos m)
  | S754_finite true m e => (-1, - e, Zneg m)
  end.

Definition key_lt (a b : Z * Z * Z) : Prop :=
  let '(a1, a2, a3) := a in
  let '(b1, b2, b3) := b in
  a1 < b1 \/ (a1 = b1 /\ (a2 < b2 \/ (a2 = b2 /\ a3 < b3))).

Definition key_le (a b : Z * Z * Z) : Prop := key_lt a b \/ a = b.

End Num.

Import Num.

Declare Scope num_scope.
Delimit Scope num_scope with num.
Infix "<=?" := Num.leb : num_scope.
Infix "<?" := Num.ltb : num_scope.
Infix "=?" := Num.eqb : num_scope.

(** ** Risk classification *)

Record RiskRef := { q33 : option number; q66 : option number }.

Inductive RiskGroup := Low | Intermediate | High.

Record RiskClass := { group : option RiskGroup; threshold : option number }.

Definition classifyRisk (score : number) (riskRef : option RiskRef) : RiskClass :=
  match riskRef with
  | None => {| group := None; threshold := None |}
  | Some r =>
    match q33 r, q66 r with
    | Some t33, Some t66 =>
      if (score <=? t33)%num then {| group := Some Low; threshold := Some t33 |}
      else if (score <=? t66)%num then {| group := Some Intermediate; threshold := Some t66 |}
      else {| group := Some High; threshold := Some t66 |}
    | _, _ => {| group := None; threshold := None |}
    end
  end.

(** ** Survival look-up *)

Record Sample := { time : number; probability : number }.

(** The loop [for (i = n - 1; i >= 0; i--)]: [scanBack data n t] visits the
    indices [n - 1], ..., [0] and stops at the first sample whose time is
    at most [t]. *)
Fixpoint scanBack (survivalData : list Sample) (n : nat) (targetTime : number)
  : option number :=
  match n with
  | O => None
  | S i =>
    match nth_error survivalData i with
    | Some smp =>
      if (time smp <=? targetTime)%num then Some (probability smp)
      else scanBack survivalData i targetTime
    | None => scanBack survivalData i targetTime
    end
  end.

Definition getSurvivalAtTime (survivalData : list Sample) (targetTime : number)
  : number :=
  match survivalData with
  | [] => one
  | first :: _ =>
    match scanBack survivalData (List.length survivalData) targetTime with
    | Some p => p
    | None => probability first
    end
  end.

(** Consecutive samples never go back in time. *)
Fixpoint timeOrdered (l : list Sample) : Prop :=
  match l with
  | [] => True
  | a :: rest =>
    match rest with
    | [] => True
    | b :: _ => (time a <=? time b)%num = true /\ timeOrdered rest
    end
  end.

(** ** Strings

    A string is its sequence of code units, here the code units 0 to
    255.  Code units below 128 are ASCII; 160 is the no-break space,
    which is white space for the language; the other ones are neither
    digits nor white space.  Only ASCII letters are given a case: the
    statements that depend on the case of other letters assume ASCII
    text. *)

Module Str.

Definition jsstring := list ascii.

Definition lit (s : string) : jsstring := list_ascii_of_string s.

Definition code (c : ascii) : N := N_of_ascii c.

Definition ceqb (a b : ascii) : bool := Ascii.eqb a b.

Fixpoint seqb (a b : jsstring) : bool :=
  match a, b with
  | [], [] => true
  | x :: a', y :: b' => ceqb x y && seqb a' b'
  | _, _ => false
  end.

(** WhiteSpace and LineTerminator, which [trim], [\s], [parseFloat] and
    [Number] skip: TAB, LF, VT, FF, CR, SP and the no-break space. *)
Definition isWhiteSpace (c : ascii) : bool :=
  ((9 <=? code c) && (code c <=? 13) || (code c =? 32) || (code c =? 160))%N.

Definition isDigit (c : ascii) : bool :=
  ((48 <=? code c) && (code c <=? 57))%N.

(** The case of the ASCII letters; the other code units are left as they
    are. *)
Definition upperChar (c : ascii) : ascii :=
  if ((97 <=? code c) && (code c <=? 122))%N then ascii_of_N (code c - 32) else c.

Definition lowerChar (c : ascii) : ascii :=
  if ((65 <=? code c) && (code c <=? 90))%N then ascii_of_N (code c + 32) else c.

Definition toUpperCase (s : jsstring) : jsstring := map upperChar s.
Definition toLowerCase (s : jsstring) : jsstring := map lowerChar s.

Fixpoint dropWhile (f : ascii -> bool) (s : jsstring) : jsstring :=
  match s with
  | [] => []
  | c :: rest => if f c then dropWhile f rest else s
  end.

Fixpoint takeWhile (f : ascii -> bool) (s : jsstring) : jsstring :=
  match s with
  | [] => []
  | c :: rest => if f c then c :: takeWhile f rest else []
  end.

Definition trimStart (s : jsstring) : jsstring := dropWhile isWhiteSpace s.
Definition trimEnd (s : jsstring) : jsstring := rev (dropWhile isWhiteSpace (rev s)).
Definition trim (s : jsstring) : jsstring := trimEnd (trimStart s).

Fixpoint startsWith (s p : jsstring) : bool :=
  match p, s with
  | [], _ => true
  | x :: p', y :: s' => ceqb x y && startsWith s' p'
  | _ :: _, [] => false
  end.

Definition endsWith (s p : jsstring) : bool := startsWith (rev s) (rev p).

(** [s.includes(p)]: [p] occurs somewhere in [s]. *)
Fixpoint includes (s p : jsstring) : bool :=
  startsWith s p ||
  match s with
  | [] => false
  | _ :: rest => includes rest p
  end.

(** [s.split(sep)] for a one-character separator: never an empty list. *)
Fixpoint split (sep : ascii) (s : jsstring) : list jsstring :=
  match s with
  | [] => [[]]
  | c :: rest =>
    if ceqb c sep then [] :: split sep rest
    else match split sep rest with
         | h :: t => (c :: h) :: t
         | [] => [[c]]
         end
  end.

(** [parts.join(sep)]. *)
Fixpoint join (sep : jsstring) (parts : list jsstring) : jsstring :=
  match parts with
  | [] => []
  | [p] => p
  | p :: rest => p ++ sep ++ join sep rest
  end.

End Str.

Import Str.
Coercion Str.lit : string >-> jsstring.

(** ** Numbers and text

    [parseFloat], [Number] applied to a string, and [String] applied to a
    number, after the language definition (StringNumericLiteral,
    Number::toString).  A numeral denotes a rational; the number it becomes
    is that rational rounded to the nearest binary64, ties to even. *)

Module NumText.

(** *** Rounding a non-negative rational *)

Definition roundFrac (neg : bool) (p d : positive) : number :=
  let '(mz, ez, lz) := SFdiv_core_binary prec emax (Zpos p) 0 (Zpos d) 0 in
  binary_round_aux prec emax neg mz ez lz.

Definition roundQ (neg : bool) (q : Q) : number :=
  let r := Qred q in
  match Qnum r with
  | Zpos p => roundFrac neg p (Qden r)
  | _ => S754_zero neg
  end.

(** The rational [m * 10 ^ e]. *)
Definition decimalQ (m e : Z) : Q := (inject_Z m * (10 # 1) ^ e)%Q.

(** The rational [m * 2 ^ e]. *)
Definition binaryQ (m e : Z) : Q := (inject_Z m * (2 # 1) ^ e)%Q.

(** *** Reading numerals *)

Definition digitVal (c : ascii) : Z := Z.of_N (code c) - 48.

Definition digitsValue (ds : jsstring) : Z :=
  fold_left (fun acc c => 10 * acc + digitVal c) ds 0.

Inductive literal :=
| LitInfinity
| LitDecimal (m e : Z).

Definition literalValue (neg : bool) (l : literal) : number :=
  match l with
  | LitInfinity => S754_infinity neg
  | LitDecimal m e => roundQ neg (decimalQ m e)
  end.

Definition isExponentIndicator (c : ascii) : bool :=
  ceqb c "e"%char || ceqb c "E"%char.

(** ExponentPart, when one is there: its value and what follows it. *)
Definition scanExponent (s : jsstring) : Z * jsstring :=
  match s with
  | c :: rest =>
    if isExponentIndicator c then
      let '(neg, body) :=
        match rest with
        | sg :: rest' =>
          if ceqb sg "+"%char then (false, rest')
          else if ceqb sg "-"%char then (true, rest')
          else (false, rest)
        | [] => (false, rest)
        end in
      match takeWhile isDigit body with
      | [] => (0, s)
      | ds => ((if neg then - digitsValue ds else digitsValue ds),
               dropWhile isDigit body)
      end
    else (0, s)
  | [] => (0, s)
  end.

(** The longest prefix that is a StrUnsignedDecimalLiteral. *)
Definition scanUnsigned (s : jsstring) : option (literal * jsstring) :=
  if startsWith s (lit "Infinity") then Some (LitInfinity, skipn 8 s)
  else
    let ip := takeWhile isDigit s in
    let r1 := dropWhile isDigit s in
    match r1 with
    | c :: r2 =>
      if ceqb c "."%char then
        let fp := takeWhile isDigit r2 in
        let r3 := dropWhile isDigit r2 in
        match ip, fp with
        | [], [] => None
        | _, _ =>
          let '(e, r4) := scanExponent r3 in
          Some (LitDecimal (digitsValue (ip ++ fp))
                           (e - Z.of_nat (List.length fp)), r4)
        end
      else
        match ip with
        | [] => None
        | _ => let '(e, r4) := scanExponent r1 in
               Some (LitDecimal (digitsValue ip) e, r4)
        end
    | [] =>
      match ip with
      | [] => None
      | _ => Some (LitDecimal (digitsValue ip) 0, [])
      end
    end.

(** The longest prefix that is a StrDecimalLiteral, as a number. *)
Definition scanDecimal (s : jsstring) : option (number * jsstring) :=
  let '(neg, body) :=
    match s with
    | c :: rest =>
      if ceqb c "+"%char then (false, rest)
      else if ceqb c "-"%char then (true, rest)
      else (false, s)
    | [] => (false, s)
    end in
  match scanUnsigned body with
  | Some (l, rest) => Some (literalValue neg l, rest)
  | None => None
  end.

Definition parseFloat (s : jsstring) : number :=
  match scanDecimal (trimStart s) with
  | Some (x, _) => x
  | None => S754_nan
  end.

(** NonDecimalIntegerLiteral: [0x], [0o] and [0b] numerals. *)
Definition radixDigit (radix : Z) (c : ascii) : option Z :=
  let n := Z.of_N (code c) in
  let v := if (48 <=? n) && (n <=? 57) then n - 48
           else if (97 <=? n) && (n <=? 102) then n - 87
           else if (65 <=? n) && (n <=? 70) then n - 55
           else radix in
  if v <? radix then Some v else None.

Fixpoint radixValue (radix : Z) (s : jsstring) (acc : Z) : option Z :=
  match s with
  | [] => Some acc
  | c :: rest =>
    match radixDigit radix c with
    | Some v => radixValue radix rest (radix * acc + v)
    | None => None
    end
  end.

Definition scanNonDecimal (s : jsstring) : option Z :=
  match s with
  | z :: p :: (_ :: _) as body =>
    if ceqb z "0"%char then
      if ceqb (lowerChar p) "x"%char then radixValue 16 body 0
      else if ceqb (lowerChar p) "o"%char then radixValue 8 body 0
      else if ceqb (lowerChar p) "b"%char then radixValue 2 body 0
      else None
    else None
  | _ => None
  end.

(** [Number(s)] for a string [s]. *)
Definition stringToNumber (s : jsstring) : number :=
  match trim s with
  | [] => S754_zero false
  | t =>
    match scanNonDecimal t with
    | Some n => roundQ false (inject_Z n)
    | None =>
      match scanDecimal t with
      | Some (x, []) => x
      | _ => S754_nan
      end
    end
  end.

(** The number that a numeral of the source text denotes. *)
Definition numberLit (s : string) : number := stringToNumber (lit s).

(** *** Writing numbers *)

Definition digitChar (d : Z) : ascii := ascii_of_N (Z.to_N (48 + d)).

Fixpoint digitsFuel (fuel : nat) (n : Z) (acc : jsstring) : jsstring :=
  match fuel with
  | O => acc
  | S f =>
    let acc' := digitChar (n mod 10) :: acc in
    if n <? 10 then acc' else digitsFuel f (n / 10) acc'
  end.

(** The decimal digits of a positive integer. *)
Definition digitsOf (n : Z) : jsstring :=
  digitsFuel (S (Z.to_nat (Z.log2 n))) n [].

Definition ndigits10 (n : Z) : Z := Z.of_nat (List.length (digitsOf n)).

(** The [N] with [10 ^ (N - 1) <= v < 10 ^ N], for a positive [v]. *)
Definition decimalExponent (v : Q) : Z :=
  let p := Qnum v in
  let d := Zpos (Qden v) in
  if d <=? p then ndigits10 (p / d) else 1 - ndigits10 ((d - 1) / p).

Definition sameNumber (x y : number) : bool :=
  match x, y with
  | S754_zero a, S754_zero b => Bool.eqb a b
  | S754_infinity a, S754_infinity b => Bool.eqb a b
  | S754_nan, S754_nan => true
  | S754_finite a m e, S754_finite b m' e' =>
    Bool.eqb a b && Pos.eqb m m' && Z.eqb e e'
  | _, _ => false
  end.

Definition roundsTo (x : number) (s e : Z) : bool :=
  (0 <? s) && sameNumber (roundQ false (decimalQ s e)) x.

(** The numerals [s * 10 ^ (N - k)] next to [v] on either side, [s] of
    [k] digits: the one that reads back as [x], the nearer to [v] when
    both do, the even one when they are as near. *)
Definition candidate (x : number) (v : Q) (N k : Z) : option (Z * Z) :=
  let e := N - k in
  let t := (v / (10 # 1) ^ e)%Q in
  let lo := Qfloor t in
  let hi := if Qeq_bool (inject_Z lo) t then lo else lo + 1 in
  match roundsTo x lo e, roundsTo x hi e with
  | true, true =>
    match Qcompare (t + t) (inject_Z (lo + hi)) with
    | Lt => Some (lo, e)
    | Gt => Some (hi, e)
    | Eq => Some (if Z.even lo then lo else hi, e)
    end
  | true, false => Some (lo, e)
  | false, true => Some (hi, e)
  | false, false => None
  end.

Fixpoint shortest (x : number) (v : Q) (N : Z) (fuel : nat) (k : Z)
  : option (Z * Z) :=
  match fuel with
  | O => None
  | S f =>
    match candidate x v N k with
    | Some r => Some r
    | None => shortest x v N f (k + 1)
    end
  end.

(** The full decimal expansion of [m * 2 ^ e]. *)
Definition exactDecimal (m : positive) (e : Z) : Z * Z :=
  if 0 <=? e then (Zpos m * 2 ^ e, 0) else (Zpos m * 5 ^ (- e), e).

Fixpoint stripZeros (fuel : nat) (s e : Z) : Z * Z :=
  match fuel with
  | O => (s, e)
  | S f => if (s mod 10 =? 0) && (0 <? s) then stripZeros f (s / 10) (e + 1)
           else (s, e)
  end.

(** The digits [s] and the exponent [e] of the numeral [s * 10 ^ e] that
    stands for the finite number [m * 2 ^ e2]: the shortest that reads
    back as it.  Seventeen digits are always enough for a binary64; the
    full expansion keeps the function total. *)
Definition shortestDecimal (m : positive) (e2 : Z) : Z * Z :=
  let x := S754_finite false m e2 in
  let v := Qred (binaryQ (Zpos m) e2) in
  let '(s, e) :=
    match shortest x v (decimalExponent v) 17 1 with
    | Some r => r
    | None => exactDecimal m e2
    end in
  stripZeros (Z.to_nat (Z.log2 s)) s e.

Definition zeros (n : Z) : jsstring := repeat "0"%char (Z.to_nat n).

(** Number::toString, steps 6 to 10: the digits [ds] with the decimal
    point after the [n]-th of them; [marker] is the letter that introduces
    the exponent. *)
Definition formatDecimalWith (marker : ascii) (ds : jsstring) (n : Z) : jsstring :=
  let k := Z.of_nat (List.length ds) in
  if (k <=? n) && (n <=? 21) then ds ++ zeros (n - k)
  else if (0 <? n) && (n <=? 21) then
    firstn (Z.to_nat n) ds ++ lit "." ++ skipn (Z.to_nat n) ds
  else if (-6 <? n) && (n <=? 0) then
    lit "0." ++ zeros (- n) ++ ds
  else
    let e := n - 1 in
    let expo := (if e <? 0 then lit "-" else lit "+") ++ digitsOf (Z.abs e) in
    match ds with
    | [d] => [d] ++ [marker] ++ expo
    | d :: more => [d] ++ lit "." ++ more ++ [marker] ++ expo
    | [] => []
    end.

(** The text of the finite number [m * 2 ^ e2], without its sign. *)
Definition finiteText (marker : ascii) (m : positive) (e2 : Z) : jsstring :=
  let '(s, e) := shortestDecimal m e2 in
  let ds := digitsOf s in
  formatDecimalWith marker ds (Z.of_nat (List.length ds) + e).

Definition signText (neg : bool) : jsstring := if neg then lit "-" else [].

(** [String(x)] for a number [x]. *)
Definition numberToString (x : number) : jsstring :=
  match x with
  | S754_nan => lit "NaN"
  | S754_zero _ => lit "0"
  | S754_infinity neg => signText neg ++ lit "Infinity"
  | S754_finite neg m e2 => signText neg ++ finiteText "e"%char m e2
  end.

End NumText.

Import NumText.

(** ** Values *)

(** The values a cell or an argument of type [any] holds here. *)
Inductive value :=
| VNull
| VUndefined
| VNum (x : number)
| VStr (s : jsstring).

(** [String(v)] *)
Definition toString (v : value) : jsstring :=
  match v with
  | VNull => lit "null"
  | VUndefined => lit "undefined"
  | VNum x => numberToString x
  | VStr s => s
  end.

(** An object used as a dictionary: its own properties, in the order they
    were created, which is the order of their enumeration when no name
    is an array index. *)
Definition record := list (jsstring * value).

(** [r[k]], [None] standing for [undefined]. *)
Fixpoint getProp (r : record) (k : jsstring) : option value :=
  match r with
  | [] => None
  | (k', v) :: rest => if seqb k' k then Some v else getProp rest k
  end.

(** The own property [k] is created or, when there is one, updated, as
    by [{...r, [k]: v}]. *)
Fixpoint setProp (r : record) (k : jsstring) (v : value) : record :=
  match r with
  | [] => [(k, v)]
  | (k', v') :: rest =>
    if seqb k' k then (k', v) :: rest else (k', v') :: setProp rest k v
  end.

(** [Object.keys(r)] *)
Definition keys (r : record) : list jsstring := map fst r.

(** The name that a plain object inherits as an accessor of its
    prototype. *)
Definition protoName : jsstring := lit "__proto__".

(** [o[k] = v] on an object made by [{}] and filled by assignments: [o]
    is whether it still has [Object.prototype] as its prototype, with
    its own properties.  The name [__proto__], unless it is an own
    property, goes to the setter that the object inherits: the value
    null takes the prototype away, a number or a text does nothing, and
    no property is created.  Once the prototype is away, [__proto__] is a
    name like the others. *)
Definition assignProp (o : bool * record) (k : jsstring) (v : value)
  : bool * record :=
  let '(inherits, own) := o in
  if seqb k protoName && inherits
     && match getProp own k with Some _ => false | None => true end
  then (match v with VNull => false | _ => inherits end, own)
  else (inherits, setProp own k v).

(** ** Stage ordinal *)

Definition ROMAN_MAP : list (jsstring * number) :=
  [(lit "I", of_Z 1); (lit "II", of_Z 2); (lit "III", of_Z 3);
   (lit "IV", of_Z 4); (lit "V", of_Z 5)].

Fixpoint lookup (k : jsstring) (m : list (jsstring * number)) : option number :=
  match m with
  | [] => None
  | (k', n) :: rest => if seqb k' k then Some n else lookup k rest
  end.

(** [x || 0] for [x] a number or [undefined]. *)
Definition orZero (x : option number) : number :=
  match x with
  | Some (S754_zero _) | Some S754_nan | None => zero
  | Some n => n
  end.

(** [[IVX]] under the flag [i]. *)
Definition isStageNumeral (c : ascii) : bool :=
  let u := upperChar c in
  ceqb u "I"%char || ceqb u "V"%char || ceqb u "X"%char.

(** [/Stage\s*([IVX]+)/i] tried at the start of [s]: the captured group. *)
Definition matchStageAt (s : jsstring) : option jsstring :=
  if seqb (toUpperCase (firstn 5 s)) (lit "STAGE") then
    match takeWhile isStageNumeral (dropWhile isWhiteSpace (skipn 5 s)) with
    | [] => None
    | numerals => Some numerals
    end
  else None.

(** [s.match(/Stage\s*([IVX]+)/i)]: the group of the leftmost match. *)
Fixpoint matchStage (s : jsstring) : option jsstring :=
  match matchStageAt s with
  | Some numerals => Some numerals
  | None =>
    match s with
    | [] => None
    | _ :: rest => matchStage rest
    end
  end.

Definition parseStageOrdinal (stageVal : value) : number :=
  match stageVal with
  | VNull | VUndefined => zero
  | VNum S754_nan => zero
  | _ =>
    let s := toString stageVal in
    match matchStage s with
    | Some numerals =>
      let roman := toUpperCase numerals in
      orZero (lookup roman ROMAN_MAP)
    | None =>
      let plain := toUpperCase (trim s) in
      match lookup plain ROMAN_MAP with
      | Some n => n
      | None =>
        let num := parseFloat plain in
        if isNaN num then zero else num
      end
    end
  end.

(** ** Delimited text *)

Definition dquote : ascii := ascii_of_N 34.
Definition comma : ascii := ","%char.
Definition newline : ascii := ascii_of_N 10.

(** The loop of [parseCSVLine] over what is left of the line. *)
Fixpoint parseCSVLineFrom (line : jsstring) (result : list jsstring)
         (current : jsstring) (inQuotes : bool) : list jsstring :=
  match line with
  | [] => result ++ [trim current]
  | char :: rest =>
    if ceqb char dquote then parseCSVLineFrom rest result current (negb inQuotes)
    else if ceqb char comma && negb inQuotes
         then parseCSVLineFrom rest (result ++ [trim current]) [] inQuotes
         else parseCSVLineFrom rest result (current ++ [char]) inQuotes
  end.

Definition parseCSVLine (line : jsstring) : list jsstring :=
  parseCSVLineFrom line [] [] false.

(** The cell made of [values[idx]?.trim()]. *)
Definition coerceField (raw : option jsstring) : value :=
  match option_map trim raw with
  | None => VNull
  | Some value =>
    if seqb value (lit "") || seqb value (lit "NA") || seqb value (lit "NaN")
    then VNull
    else if negb (isNaN (stringToNumber value)) then VNum (stringToNumber value)
         else VStr value
  end.

(** The body of [headers.forEach((header, idx) => ...)]. *)
Definition setCell (values : list jsstring) (row : bool * record)
           (cell : nat * jsstring) : bool * record :=
  let '(idx, header) := cell in
  assignProp row header (coerceField (nth_error values idx)).

(** [headers.forEach((header, idx) => ...)] on the row [{}]: the own
    properties of the row. *)
Definition parseRow (headers values : list jsstring) : record :=
  snd (fold_left (setCell values) (combine (seq 0 (List.length headers)) headers)
                 (true, [])).

Definition parseCSV (text : jsstring) : list record :=
  match split newline (trim text) with
  | [] => []
  | first :: rest =>
    let headers := parseCSVLine first in
    map (fun line => parseRow headers (parseCSVLine line)) rest
  end.

(** ** Export *)

Definition renderField (v : option value) : jsstring :=
  match v with
  | None | Some VNull | Some VUndefined => []
  | Some (VStr s) =>
    if includes s [comma] then [dquote] ++ s ++ [dquote] else s
  | Some (VNum x) => numberToString x
  end.

(** [headers.map(header => ...).join(',')] for one row. *)
Definition renderRow (headers : list jsstring) (row : record) : jsstring :=
  join [comma] (map (fun header => renderField (getProp row header)) headers).

Definition csvContent (data : list record) (headers : list jsstring) : jsstring :=
  join [newline] (join [comma] headers :: map (renderRow headers) data).

Record Download := { download : jsstring; blob : jsstring }.

(** The file handed to the browser, if any. *)
Definition exportToCSV (data : list record) (filename : jsstring) : option Download :=
  match data with
  | [] => None
  | first :: _ =>
    Some {| download := filename; blob := csvContent data (keys first) |}
  end.

(** ** Upload *)

Record File := { name : jsstring; content : jsstring }.

(** How a promise settles. *)
Inductive settled (A : Type) :=
| Fulfilled (a : A)
| Rejected (message : jsstring).
Arguments Fulfilled {A} a.
Arguments Rejected {A} message.

Section Upload.

(** The spreadsheet reader, [XLSX.read] followed by
    [XLSX.utils.sheet_to_json] on the first sheet: a library outside the
    repository. *)
Variable firstSheetToJson : jsstring -> list record.

Definition readUploadedFile (file : File) : settled (list record) :=
  let name := toLowerCase (name file) in
  if endsWith name (lit ".csv") then Fulfilled (parseCSV (content file))
  else if endsWith name (lit ".xlsx") || endsWith name (lit ".xls")
       then Fulfilled (firstSheetToJson (content file))
       else Rejected (lit "Unsupported file type. Please upload .csv or .xlsx").

End Upload.

(** ** Identifier column *)

Definition idCandidates : list jsstring :=
  [lit "Sample"; lit "Patient_ID"; lit "patient_id"; lit "PatientID"; lit "id"; lit "ID"].

(** [columns.includes(candidate)] *)
Definition hasColumn (columns : list jsstring) (candidate : jsstring) : bool :=
  existsb (seqb candidate) columns.

Definition detectIdColumn (columns : list jsstring) : option jsstring :=
  find (hasColumn columns) idCandidates.

(** ** Notions used by the statements *)

(** A reference with both thresholds. *)
Definition bothThresholds (t33 t66 : number) : option RiskRef :=
  Some {| q33 := Some t33; q66 := Some t66 |}.

(** The sample at index [i] is the last one at or before [t]. *)
Definition lastAtOrBefore (data : list Sample) (t : number) (i : nat) (smp : Sample)
  : Prop :=
  nth_error data i = Some smp /\
  (time smp <=? t)%num = true /\
  forall j smp', (i < j)%nat -> nth_error data j = Some smp' ->
                 (time smp' <=? t)%num = false.

Definition demoCurve : list Sample :=
  [ {| time := numberLit "0"; probability := numberLit "1.0" |};
    {| time := numberLit "30"; probability := numberLit "0.9" |};
    {| time := numberLit "60"; probability := numberLit "0.8" |} ].

(** The message of the error that [readUploadedFile] throws. *)
Definition unsupported : jsstring :=
  lit "Unsupported file type. Please upload .csv or .xlsx".

(** [null], [undefined] or the number NaN. *)
Definition isAbsent (v : value) : bool :=
  match v with
  | VNull | VUndefined | VNum S754_nan => true
  | _ => false
  end.

(** [s] holds, after [pre], the word "stage" in any case, white space,
    and the maximal run [numerals] of the letters I, V and X in any case. *)
Definition StagePattern (s pre numerals : jsstring) : Prop :=
  exists stg ws post,
    s = pre ++ stg ++ ws ++ numerals ++ post /\
    toUpperCase stg = lit "STAGE" /\
    forallb isWhiteSpace ws = true /\
    numerals <> [] /\
    forallb isStageNumeral numerals = true /\
    match post with
    | c :: _ => isStageNumeral c = false
    | [] => True
    end.

(** The integers that the table of numerals holds. *)
Definition ordinals : list number := [of_Z 1; of_Z 2; of_Z 3; of_Z 4; of_Z 5].

(** The number that [t] stands for when the whole of it is a
    StrDecimalLiteral: digits with an optional sign, fraction and
    exponent, or a signed [Infinity]. *)
Definition strDecimalLiteral (t : jsstring) : option number :=
  match scanDecimal t with
  | Some (x, []) => Some x
  | _ => None
  end.

(** The number that [t] stands for when the whole of it is a
    StrNumericLiteral: a StrDecimalLiteral or an unsigned [0x], [0o] or
    [0b] integer. *)
Definition strNumericLiteral (t : jsstring) : option number :=
  match scanNonDecimal t with
  | Some n => Some (roundQ false (inject_Z n))
  | None => strDecimalLiteral t
  end.

(** The cell that [coerceField] makes of the trimmed text [t]. *)
Definition cellOfText (t : jsstring) : value :=
  if seqb t (lit "") || seqb t (lit "NA") || seqb t (lit "NaN") then VNull
  else match strNumericLiteral t with
       | Some x => VNum x
       | None => VStr t
       end.

(** [h] is at index [i] of [headers] and nowhere after. *)
Definition lastIndexOf (headers : list jsstring) (h : jsstring) (i : nat) : Prop :=
  nth_error headers i = Some h /\
  forall j, (i < j)%nat -> nth_error headers j <> Some h.

(** The number is a whole number that is not negative. *)
Definition isNonNegInteger (x : number) : bool :=
  match x with
  | S754_zero _ => true
  | S754_finite false m e =>
    if 0 <=? e then true else Zpos m mod 2 ^ (- e) =? 0
  | _ => false
  end.

(** ** Notions used by the proofs and statements about numerals *)

(** A shift record with nothing shifted out. *)
Definition exactRecord (M : Z) : shr_record :=
  {| shr_m := M; shr_r := false; shr_s := false |}.

(** [P / 2 ^ a] is [m * 2 ^ e] in lowest terms. *)
Definition dyadicForm (m : positive) (e : Z) (P : positive) (a : Z) : Prop :=
  0 <= a /\ (a = 0 \/ a <= - e) /\
  Qred (binaryQ (Zpos m) e) = Zpos P # Z.to_pos (2 ^ a) /\
  Zpos P * 2 ^ Z.max 0 (- (e + a)) = Zpos m * 2 ^ Z.max 0 (e + a).

(** The characters of a numeral. *)
Definition numeralChar (marker c : ascii) : bool :=
  isDigit c || ceqb c "."%char || ceqb c "+"%char || ceqb c "-"%char || ceqb c marker.

(** The value that comes back: the number itself, -0 as 0. *)
Definition readBack (x : number) : number :=
  match x with
  | S754_zero _ => zero
  | _ => x
  end.

(** ** Notions used by the statements about delimited text *)

(** No character of [s] is [c]. *)
Definition without (c : ascii) (s : jsstring) : bool :=
  forallb (fun x => negb (ceqb x c)) s.

Definition startsVisible (s : jsstring) : Prop :=
  match s with
  | c :: _ => isWhiteSpace c = false
  | [] => False
  end.

Definition endsVisible (s : jsstring) : Prop := startsVisible (rev s).

(** [content] is what [parseCSVLine] reads in the field [text]. *)
Inductive fieldOf (content : jsstring) : jsstring -> Prop :=
| PlainField :
    without comma content = true -> without dquote content = true ->
    fieldOf content content
| QuotedField :
    without dquote content = true ->
    fieldOf content ([dquote] ++ content ++ [dquote]).

(** A column name that a header line carries unchanged and that parsing
    makes a property of: without white space at its ends, without comma,
    double quote or line feed, and other than [__proto__]. *)
Definition cleanName (h : jsstring) : Prop :=
  trim h = h /\
  without comma h = true /\ without dquote h = true /\ without newline h = true /\
  h <> protoName.

(** A value that a data line carries unchanged: null, a number other than
    NaN, or a text without double quote or line feed, without white space
    at either end, that is neither NA nor NaN nor a numeral. *)
Definition cleanValue (v : value) : Prop :=
  match v with
  | VNull => True
  | VUndefined => False
  | VNum x => valid x = true /\ isNaN x = false
  | VStr s =>
    trim s = s /\ without dquote s = true /\ without newline s = true /\
    (s = [] \/
     (s <> lit "NA" /\ s <> lit "NaN" /\ strNumericLiteral s = None))
  end.

(** What a value is after export and parsing: the empty text is null and
    the number -0 is 0. *)
Definition cellBack (v : value) : value :=
  match v with
  | VStr [] => VNull
  | VNum x => VNum (readBack x)
  | _ => v
  end.

(** What [parseCSVLine] reads in the field of a value. *)
Definition fieldText (v : option value) : jsstring :=
  match v with
  | Some (VStr s) => s
  | Some (VNum x) => numberToString x
  | _ => []
  end.

(** The texts that [parseCSVLine] reads in the line of a row. *)
Definition rowTexts (columns : list jsstring) (row : record) : list jsstring :=
  map (fun h => fieldText (getProp row h)) columns.

(** The row has the columns [columns], each with a clean value. *)
Definition cleanRow (columns : list jsstring) (row : record) : Prop :=
  (forall k, In k (keys row) <-> In k columns) /\
  (forall h, In h columns -> exists v, getProp row h = Some v /\ cleanValue v).

(** A dataset that export writes in a form that parsing reads back: at
    least one record; a header line that is not empty (there is a
    column, and more than one if its name is empty); the names of the
    columns clean and distinct; every record with these columns and
    clean values; and a last record that is not written as an empty
    line (as a single null or empty cell would be). *)
Definition exportable (data : list record) : Prop :=
  let columns := keys (hd [] data) in
  data <> [] /\ join [comma] columns <> [] /\ NoDup columns /\
  Forall cleanName columns /\
  Forall (cleanRow columns) data /\
  renderRow columns (last data []) <> [].

(** The record [row'] has the columns of [row] and, in each, the value
    of [row] as it is read back. *)
Definition sameRecord (row row' : record) : Prop :=
  (forall k, In k (keys row') <-> In k (keys row)) /\
  (forall h v, getProp row h = Some v -> getProp row' h = Some (cellBack v)).

(** A small dataset with a quoted field and a null. *)
Definition demoData : list record :=
  [ [(lit "id", VStr (lit "p1")); (lit "age", VNum (numberLit "42.5"))];
    [(lit "id", VStr (lit "x, y")); (lit "age", VNull)] ].

(** ** Arithmetic *)

Definition fadd : number -> number -> number := SFadd prec emax.
Definition fmul : number -> number -> number := SFmul prec emax.
Definition fsub : number -> number -> number := SFsub prec emax.
Definition fneg : number -> number := SFopp.
Definition fdiv : number -> number -> number := SFdiv prec emax.

(** The loop of [Math.max] over its arguments: NaN at the first argument
    that is NaN; 0 rather than -0. *)
Fixpoint mathMaxFrom (highest : number) (args : list number) : number :=
  match args with
  | [] => highest
  | n :: rest =>
    if isNaN n then S754_nan
    else mathMaxFrom
           (match n, highest with
            | S754_zero false, S754_zero true => n
            | _, _ => if (highest <? n)%num then n else highest
            end) rest
  end.

(** [Math.max(...args)] *)
Definition mathMaxOf (args : list number) : number :=
  mathMaxFrom (S754_infinity true) args.

(** [Math.max(x, y)] *)
Definition mathMax (x y : number) : number := mathMaxOf [x; y].

(** The loop of [Math.min] over its arguments: -0 rather than 0. *)
Fixpoint mathMinFrom (lowest : number) (args : list number) : number :=
  match args with
  | [] => lowest
  | n :: rest =>
    if isNaN n then S754_nan
    else mathMinFrom
           (match n, lowest with
            | S754_zero true, S754_zero false => n
            | _, _ => if (n <? lowest)%num then n else lowest
            end) rest
  end.

(** [Math.min(...args)] *)
Definition mathMinOf (args : list number) : number :=
  mathMinFrom (S754_infinity false) args.

(** ** Demonstration curve *)

Section Curve.

(** [Math.exp], which the language leaves to the implementation. *)
Variable exp : number -> number.

(** The loop [for (t = ...; t <= maxDays; t += 30)] from [t] on; [fuel]
    bounds the number of tests of the condition. *)
Fixpoint generateFrom (fuel : nat) (lambda maxDays t : number)
  : option (list Sample) :=
  match fuel with
  | O => None
  | S fuel' =>
    if (t <=? maxDays)%num then
      let probability := exp (fmul (fneg lambda) t) in
      option_map
        (cons {| time := t; probability := mathMax zero probability |})
        (generateFrom fuel' lambda maxDays (fadd t (numberLit "30")))
    else Some []
  end.

(** The decay rate of a risk score. *)
Definition decayRate (riskScore : number) : number :=
  fadd (numberLit "0.0001") (fmul riskScore (numberLit "0.0002")).

Definition generateMockSurvivalData (fuel : nat) (patientId : jsstring)
           (riskScore maxDays : number) : option (list Sample) :=
  let lambda := decayRate riskScore in
  generateFrom fuel lambda maxDays zero.

End Curve.

(** The horizon when none is given. *)
Definition defaultMaxDays : number := numberLit "3650".

(** ** The page *)

Record PatientResult := {
  patientId : jsstring;
  riskScore : number;
  riskGroup : option RiskGroup;
  survivalProbabilities : list (number * number);
  survivalData : list Sample
}.

Record ModelBundle := {
  features : list jsstring;
  riskRef : option RiskRef;
  featureCount : number
}.

Inductive Toast :=
| ToastSuccess (message : jsstring)
| ToastError (message : jsstring).

Module Index.

Definition TIMEPOINT_OPTIONS : list number := map numberLit ["1"; "2"; "3"; "5"; "10"]%string.

(** The bundle that [handleModelUpload] installs for any file. *)
Definition mockBundle : ModelBundle :=
  {| features := map lit ["age"; "stage_ordinal"; "tumor_size"; "lymph_nodes";
                          "EGFR_pTPM"; "TP53_pTPM"; "KRAS_pTPM"; "ALK_pTPM";
                          "BRCA1_pTPM"; "BRCA2_pTPM"; "MYC_pTPM"; "HER2_pTPM"]%string;
     riskRef := Some {| q33 := Some (numberLit "0.35"); q66 := Some (numberLit "0.65") |};
     featureCount := numberLit "12" |}.

(** The part of the page's state that an upload of patient data
    touches. *)
Record DataState := {
  dataFile : option File;
  patientData : list record;
  columns : list jsstring;
  idColumn : option jsstring;
  results : list PatientResult
}.

Section Handlers.

Variable firstSheetToJson : jsstring -> list record.
Variable exp : number -> number.

(** [handleDataUpload]: the state after it and the notice it shows. *)
Definition handleDataUpload (file : option File) (st : DataState)
  : DataState * option Toast :=
  match file with
  | Some f =>
    match readUploadedFile firstSheetToJson f with
    | Fulfilled data =>
      let cols := match data with
                  | first :: _ => keys first
                  | [] => []
                  end in
      ({| dataFile := file; patientData := data; columns := cols;
          idColumn := detectIdColumn cols; results := [] |},
       Some (ToastSuccess
               (lit "Loaded " ++ numberToString (of_Z (Z.of_nat (List.length data)))
                ++ lit " patients with "
                ++ numberToString (of_Z (Z.of_nat (List.length cols)))
                ++ lit " features")))
    | Rejected message =>
      ({| dataFile := file; patientData := []; columns := [];
          idColumn := idColumn st; results := results st |},
       Some (ToastError (lit "Failed to read file: " ++ lit "Error: " ++ message)))
    end
  | None =>
    ({| dataFile := None; patientData := []; columns := []; idColumn := None;
        results := [] |}, None)
  end.

(** The callback of [patientData.map] in [handlePredict], for the row at
    [idx]; [random] is what [Math.random()] gives there. *)
Definition predictPatient (fuel : nat) (modelBundle : ModelBundle)
           (idColumn : option jsstring) (selectedTimepoints : list number)
           (random : number) (row : record) (idx : nat) : option PatientResult :=
  let patientId :=
      match idColumn with
      | Some (c :: s) =>
        toString (match getProp row (c :: s) with
                  | Some v => v
                  | None => VUndefined
                  end)
      | _ => lit "Patient_" ++ numberToString (of_Z (Z.of_nat idx + 1))
      end in
  let riskScore := fadd (numberLit "0.2") (fmul random (numberLit "0.6")) in
  match generateMockSurvivalData exp fuel patientId riskScore defaultMaxDays with
  | None => None
  | Some survivalData =>
    let survivalProbabilities :=
        map (fun year =>
               (year, getSurvivalAtTime survivalData (fmul year (numberLit "365"))))
            selectedTimepoints in
    let riskGroup := group (classifyRisk riskScore (riskRef modelBundle)) in
    Some {| patientId := patientId; riskScore := riskScore; riskGroup := riskGroup;
            survivalProbabilities := survivalProbabilities;
            survivalData := survivalData |}
  end.

End Handlers.

(** What [summaryStats] holds when there are results; the counts are
    lengths of arrays. *)
Record SummaryStats := {
  total : nat;
  avgRisk : number;
  minRisk : number;
  maxRisk : number;
  lowCount : nat;
  mediumCount : nat;
  highCount : nat
}.

(** [r.riskGroup === g] *)
Definition inGroup (g : RiskGroup) (r : PatientResult) : bool :=
  match riskGroup r, g with
  | Some Low, Low | Some Intermediate, Intermediate | Some High, High => true
  | _, _ => false
  end.

Definition summaryStats (results : list PatientResult) : option SummaryStats :=
  match results with
  | [] => None
  | _ =>
    let scores := map riskScore results in
    Some {| total := List.length results;
            avgRisk := fdiv (fold_left fadd scores zero)
                            (of_Z (Z.of_nat (List.length scores)));
            minRisk := mathMinOf scores;
            maxRisk := mathMaxOf scores;
            lowCount := List.length (filter (inGroup Low) results);
            mediumCount := List.length (filter (inGroup Intermediate) results);
            highCount := List.length (filter (inGroup High) results) |}
  end.

End Index.

(** ** The table of results *)

Module DataTable.

Inductive SortField := SortPatientId | SortRiskScore | SortRiskGroup.

Inductive SortDirection := asc | desc.

(** [{ Low: 0, Intermediate: 1, High: 2 }] *)
Definition order (g : RiskGroup) : number :=
  match g with
  | Low => zero
  | Intermediate => numberLit "1"
  | High => numberLit "2"
  end.

(** [order[g || 'Low'] || 0] *)
Definition orderOf (g : option RiskGroup) : number :=
  orZero (Some (order (match g with
                       | Some g' => g'
                       | None => Low
                       end))).

Section Sorting.

(** [String.prototype.localeCompare] and [Array.prototype.sort], which
    the language leaves to the implementation. *)
Variable localeCompare : jsstring -> jsstring -> number.
Variable sort : (PatientResult -> PatientResult -> number) ->
                list PatientResult -> list PatientResult.

(** The function handed to [sort]. *)
Definition compareRows (sortField : SortField) (sortDirection : SortDirection)
           (a b : PatientResult) : number :=
  let comparison :=
      match sortField with
      | SortPatientId => localeCompare (patientId a) (patientId b)
      | SortRiskScore => fsub (riskScore a) (riskScore b)
      | SortRiskGroup => fsub (orderOf (riskGroup a)) (orderOf (riskGroup b))
      end in
  match sortDirection with
  | asc => comparison
  | desc => fneg comparison
  end.

Definition filteredAndSortedData (data : list PatientResult) (search : jsstring)
           (sortField : SortField) (sortDirection : SortDirection)
  : list PatientResult :=
  let filtered :=
      filter (fun patient =>
                includes (toLowerCase (patientId patient)) (toLowerCase search))
             data in
  sort (compareRows sortField sortDirection) filtered.

End Sorting.

End DataTable.

(** ** The editor of patient data *)

Module PatientDataEditor.

(** [handleStartEdit]: the cell being edited and the text of the input,
    [currentValue?.toString() ?? '']. *)
Definition handleStartEdit (rowIndex : nat) (colName : jsstring) (currentValue : value)
  : option (nat * jsstring) * jsstring :=
  (Some (rowIndex, colName),
   match currentValue with
   | VNull | VUndefined => []
   | v => toString v
   end).

(** The value that [handleSaveEdit] stores for the text of the input. *)
Definition editedValue (editValue : jsstring) : value :=
  if seqb editValue (lit "") then VNull
  else if isNaN (stringToNumber editValue) then VStr editValue
       else VNum (stringToNumber editValue).

(** [a[i] = v] on an array whose missing elements are [None]: an index
    past the end lengthens the array. *)
Fixpoint assign {A} (a : list (option A)) (i : nat) (v : A) : list (option A) :=
  match i, a with
  | O, [] => [Some v]
  | O, _ :: rest => Some v :: rest
  | S i', [] => None :: assign [] i' v
  | S i', x :: rest => x :: assign rest i' v
  end.

(** [handleSaveEdit]: the array handed to [onDataChange], if any. *)
Definition handleSaveEdit (data : list record) (editingCell : option (nat * jsstring))
           (editValue : jsstring) : option (list (option record)) :=
  match editingCell with
  | None => None
  | Some (row, col) =>
    let newData := map Some data in
    let old := match nth_error data row with
               | Some r => r
               | None => []
               end in
    Some (assign newData row (setProp old col (editedValue editValue)))
  end.

(** [handleAddRow]: the array handed to [onDataChange].  (The length of
    an array is below 2^32, so that adding 1 to it is exact.) *)
Definition handleAddRow (data : list record) (columns : list jsstring)
           (idColumn : option jsstring) : list record :=
  let newRow :=
      fold_left (fun row col => assignProp row col VNull) columns (true, []) in
  let newRow :=
      match idColumn with
      | Some (c :: s) =>
        assignProp newRow (c :: s)
                   (VStr (lit "Patient_"
                          ++ numberToString (of_Z (Z.of_nat (List.length data) + 1))))
      | _ => newRow
      end in
  data ++ [snd newRow].

(** [handleDeleteRow]: the array handed to [onDataChange]. *)
Definition handleDeleteRow (data : list record) (index : nat) : list record :=
  map snd (filter (fun entry => negb (Nat.eqb (fst entry) index))
                  (combine (seq 0 (List.length data)) data)).

End PatientDataEditor.

(** ** Notions used by the statements about the page *)

(** Every code unit is ASCII. *)
Definition isAscii (s : jsstring) : bool :=
  forallb (fun c => (code c <? 128)%N) s.

(** Low before Intermediate before High. *)
Definition bandRank (g : RiskGroup) : nat :=
  match g with
  | Low => 0
  | Intermediate => 1
  | High => 2
  end.

(** The probability of each sample is a number, and at most that of
    every sample before it. *)
Fixpoint neverRises (l : list Sample) : bool :=
  match l with
  | [] => true
  | a :: rest =>
    forallb (fun b => (probability b <=? probability a)%num) (a :: rest)
    && neverRises rest
  end.

(** ** Formatting *)

(** [ToIntegerOrInfinity(x)]: toward zero, NaN as 0; [None] stands for an
    infinity. *)
Definition toIntegerOrInfinity (x : number) : option Z :=
  match x with
  | S754_nan | S754_zero _ => Some 0
  | S754_infinity _ => None
  | S754_finite neg m e =>
    let a := if 0 <=? e then Zpos m * 2 ^ e else Zpos m / 2 ^ (- e) in
    Some (if neg then - a else a)
  end.

(** The absolute value of a finite number, as a rational. *)
Definition magnitude (x : number) : Q :=
  match x with
  | S754_finite _ m e => binaryQ (Zpos m) e
  | _ => 0%Q
  end.

(** The digits of [n] with [f] of them after the point. *)
Definition fixedText (n f : Z) : jsstring :=
  let m := digitsOf n in
  if f =? 0 then m
  else
    let k := Z.of_nat (List.length m) in
    let m := if k <=? f then zeros (f + 1 - k) ++ m else m in
    let k := Z.of_nat (List.length m) in
    firstn (Z.to_nat (k - f)) m ++ lit "." ++ skipn (Z.to_nat (k - f)) m.

(** [x.toFixed(fractionDigits)]; [None] stands for a RangeError. *)
Definition toFixed (x fractionDigits : number) : option jsstring :=
  match toIntegerOrInfinity fractionDigits with
  | None => None
  | Some f =>
    if (f <? 0) || (100 <? f) then None
    else if negb (isFinite x) then Some (numberToString x)
    else if Qle_bool (inject_Z (10 ^ 21)) (magnitude x) then Some (numberToString x)
    else
      let n := Qfloor (magnitude x * inject_Z (10 ^ f) + (1 # 2)) in
      let s := match x with
               | S754_finite true _ _ => lit "-"
               | _ => []
               end in
      Some (s ++ fixedText n f)
  end.

Definition formatNumber (value decimals : number) : option jsstring :=
  toFixed value decimals.

Definition formatPercent (value decimals : number) : option jsstring :=
  option_map (fun text => text ++ lit "%")
             (toFixed (fmul value (numberLit "100")) decimals).

(** ** Notions used by the statements about line endings *)

Definition carriageReturn : ascii := ascii_of_N 13.

(** A carriage return and a line feed. *)
Definition crlf : jsstring := [carriageReturn; newline].

(** The lines as they are between line feeds when they were joined with
    [crlf]: each but the last ends in a carriage return. *)
Fixpoint withReturns (lines : list jsstring) : list jsstring :=
  match lines with
  | [] => []
  | [l] => [l]
  | l :: rest => (l ++ [carriageReturn]) :: withReturns rest
  end.

(** Every cell of the record is null. *)
Definition allNull (row : record) : Prop :=
  Forall (fun cell => snd cell = VNull) row.

(** ** Notions used by the statements about curves *)

(** The sample that the loop of [generateMockSurvivalData] makes at the
    time [t]. *)
Definition sampleAt (exp : number -> number) (lambda t : number) : Sample :=
  {| time := t; probability := mathMax zero (exp (fmul (fneg lambda) t)) |}.

(** The times that the loop visits. *)
Fixpoint timesFrom (fuel : nat) (maxDays t : number) : option (list number) :=
  match fuel with
  | O => None
  | S fuel' =>
    if (t <=? maxDays)%num
    then option_map (cons t) (timesFrom fuel' maxDays (fadd t (numberLit "30")))
    else Some []
  end.

(** The times of [ts] before the first one that is past [maxDays]. *)
Fixpoint daysWithin (maxDays : number) (ts : list number) : list number :=
  match ts with
  | [] => []
  | t :: rest =>
    if (t <=? maxDays)%num then t :: daysWithin maxDays rest else []
  end.

(** The days 0, 30, 60, ..., 3630. *)
Definition defaultDays : list number :=
  map (fun i => of_Z (30 * Z.of_nat i)) (seq 0 122).

(** A curve with the probability [f t] at each time [t] of [ts]. *)
Definition curveOf (f : number -> number) (ts : list number) : list Sample :=
  map (fun t => {| time := t; probability := f t |}) ts.

(** Each time is at most the next. *)
Fixpoint ascending (ts : list number) : bool :=
  match ts with
  | [] => true
  | a :: rest =>
    match rest with
    | [] => true
    | b :: _ => (a <=? b)%num && ascending rest
    end
  end.

(** The years that the page offers, each with the day at which the
    curve is read for it. *)
Definition readingDays : list (number * number) :=
  [ (numberLit "1", numberLit "360"); (numberLit "2", numberLit "720");
    (numberLit "3", numberLit "1080"); (numberLit "5", numberLit "1800");
    (numberLit "10", numberLit "3630") ].

(** ** Notions used by the statements about the editor *)

(** A value that comes back as it is when its text goes through the
    input unchanged: null, a number other than NaN and -0, or an ASCII
    text that is neither empty nor read as a number. *)
Definition keptByEditor (v : value) : Prop :=
  match v with
  | VNull => True
  | VUndefined => False
  | VNum x => valid x = true /\ isNaN x = false /\ x <> S754_zero true
  | VStr s => isAscii s = true /\ s <> [] /\ isNaN (stringToNumber s) = true
  end.

(** A small table of patients. *)
Definition demoPatients : list record :=
  [ [(lit "id", VStr (lit "p1")); (lit "age", VNum (numberLit "42.5"))];
    [(lit "id", VStr (lit "p2")); (lit "age", VNull)] ].

(** ** Notions used by the statements about the summary *)

(** The result is one that [handlePredict] makes with the bundle. *)
Definition predictedWith (exp : number -> number) (modelBundle : ModelBundle)
           (result : PatientResult) : Prop :=
  exists fuel idColumn selectedTimepoints random row idx,
    Index.predictPatient exp fuel modelBundle idColumn selectedTimepoints random row idx
    = Some result.

(** Three results, one in each band. *)
Definition demoResults : list PatientResult :=
  map (fun entry =>
         {| patientId := fst (fst entry); riskScore := numberLit (snd (fst entry));
            riskGroup := Some (snd entry); survivalProbabilities := [];
            survivalData := [] |})
      [ (lit "p1", "0.25"%string, Low); (lit "p2", "0.5"%string, Intermediate);
        (lit "p3", "0.75"%string, High) ].


(** * Properties *)

(** ** The order on numbers *)

Section NumOrder.

Lemma compare_key (x y : number) :
  isNaN x = false -> isNaN y = false ->
  match SFcompare x y with
  | Some Lt => key_lt (key x) (key y)
  | Some Eq => key x = key y
  | Some Gt => key_lt (key y) (key x)
  | None => False
  end.
Proof.
  destruct x as [sx|sx| |sx mx ex], y as [sy|sy| |sy my ey];
    try discriminate; intros _ _;
    try destruct sx; try destruct sy; simpl; try lia; try reflexivity.
  all: destruct (Z.compare_spec ex ey); subst; simpl; try lia.
  all: change (Pos.compare_cont Eq mx my) with (Pos.compare mx my).
  all: destruct (Pos.compare_spec mx my); subst; simpl; try lia; reflexivity.
Qed.

Lemma key_lt_irrefl a : ~ key_lt a a.
Proof. destruct a as [[a1 a2] a3]. simpl. lia. Qed.

Lemma key_lt_trans a b c : key_lt a b -> key_lt b c -> key_lt a c.
Proof.
  destruct a as [[a1 a2] a3], b as [[b1 b2] b3], c as [[c1 c2] c3].
  simpl. lia.
Qed.

Lemma key_lt_asym a b : key_lt a b -> ~ key_lt b a.
Proof. intros H1 H2. exact (key_lt_irrefl a (key_lt_trans _ _ _ H1 H2)). Qed.

Lemma leb_not_nan x y : (x <=? y)%num = true -> isNaN x = false /\ isNaN y = false.
Proof.
  unfold leb, SFleb. destruct x, y; simpl; try discriminate; auto.
Qed.

Lemma ltb_not_nan x y : (x <? y)%num = true -> isNaN x = false /\ isNaN y = false.
Proof.
  unfold ltb, SFltb. destruct x, y; simpl; try discriminate; auto.
Qed.

Lemma eqb_not_nan x y : (x =? y)%num = true -> isNaN x = false /\ isNaN y = false.
Proof.
  unfold eqb, SFeqb. destruct x, y; simpl; try discriminate; auto.
Qed.

Lemma leb_key x y : (x <=? y)%num = true -> key_le (key x) (key y).
Proof.
  intros H. destruct (leb_not_nan _ _ H) as [Hx Hy].
  generalize (compare_key x y Hx Hy). unfold leb, SFleb in H.
  destruct (SFcompare x y) as [[| |]|]; try discriminate; unfold key_le; auto.
Qed.

Lemma ltb_key x y : (x <? y)%num = true -> key_lt (key x) (key y).
Proof.
  intros H. destruct (ltb_not_nan _ _ H) as [Hx Hy].
  generalize (compare_key x y Hx Hy). unfold ltb, SFltb in H.
  destruct (SFcompare x y) as [[| |]|]; try discriminate; auto.
Qed.

Lemma eqb_key x y : (x =? y)%num = true -> key x = key y.
Proof.
  intros H. destruct (eqb_not_nan _ _ H) as [Hx Hy].
  generalize (compare_key x y Hx Hy). unfold eqb, SFeqb in H.
  destruct (SFcompare x y) as [[| |]|]; try discriminate; auto.
Qed.

Lemma key_leb x y :
  isNaN x = false -> isNaN y = false ->
  key_le (key x) (key y) -> (x <=? y)%num = true.
Proof.
  intros Hx Hy H. generalize (compare_key x y Hx Hy). unfold leb, SFleb.
  destruct (SFcompare x y) as [[| |]|]; auto; try (intros []).
  intros H'. destruct H as [H|H].
  - elim (key_lt_asym _ _ H H').
  - rewrite H in H'. elim (key_lt_irrefl _ H').
Qed.

Lemma leb_false_key x y :
  isNaN x = false -> isNaN y = false ->
  (x <=? y)%num = false -> key_lt (key y) (key x).
Proof.
  intros Hx Hy. generalize (compare_key x y Hx Hy). unfold leb, SFleb.
  destruct (SFcompare x y) as [[| |]|]; auto; try discriminate. intros [].
Qed.

Lemma key_lt_leb_false x y :
  key_lt (key y) (key x) -> (x <=? y)%num = false.
Proof.
  intros H. destruct ((x <=? y)%num) eqn:E; auto.
  apply leb_key in E. destruct E as [E|E].
  - elim (key_lt_asym _ _ H E).
  - rewrite E in H. elim (key_lt_irrefl _ H).
Qed.

Lemma eqb_leb x y : (x =? y)%num = true -> (x <=? y)%num = true.
Proof.
  unfold eqb, leb, SFeqb, SFleb. destruct (SFcompare x y) as [[| |]|]; auto.
Qed.

End NumOrder.

(** ** Strings *)

Section StrFacts.

Lemma ceqb_eq a b : ceqb a b = true <-> a = b.
Proof. apply Ascii.eqb_eq. Qed.

Lemma seqb_eq a : forall b, seqb a b = true <-> a = b.
Proof.
  induction a as [|x a IH]; intros [|y b]; simpl; split; intros H;
    try discriminate; try reflexivity.
  - apply andb_true_iff in H. destruct H as [H1 H2].
    apply ceqb_eq in H1. apply IH in H2. congruence.
  - injection H as -> ->. apply andb_true_iff. split.
    + now apply ceqb_eq.
    + now apply IH.
Qed.

Lemma seqb_refl a : seqb a a = true.
Proof. now apply seqb_eq. Qed.

Lemma seqb_neq a b : a <> b -> seqb a b = false.
Proof.
  intros H. destruct (seqb a b) eqn:E; [|reflexivity].
  apply seqb_eq in E. contradiction.
Qed.

End StrFacts.

(** ** Risk classification *)

Section ClassifyRisk.

(** C1, as the specification words it, fails when the two thresholds
    coincide: a score equal to both is Low, since the test against q33
    comes first. *)
Lemma classifyRisk_equal_thresholds :
  (one <=? one)%num = true /\
  (one =? one)%num = true /\
  group (classifyRisk one (bothThresholds one one)) = Some Low /\
  group (classifyRisk one (bothThresholds one one)) <> Some Intermediate.
Proof. repeat split; try reflexivity. discriminate. Qed.

(** C1 (amended): with both thresholds defined and q33 <= q66, the band
    is Low up to and including q33, Intermediate above q33 up to and
    including q66, High above q66; it is never absent.  A score equal to
    q33 is Low; a score equal to q66 is Intermediate when q33 < q66, Low
    when q33 = q66, and never High. *)
Theorem classifyRisk_bands (s t33 t66 : number) :
  (t33 <=? t66)%num = true ->
  let r := classifyRisk s (bothThresholds t33 t66) in
  r = (if (s <=? t33)%num then {| group := Some Low; threshold := Some t33 |}
       else if (s <=? t66)%num
            then {| group := Some Intermediate; threshold := Some t66 |}
            else {| group := Some High; threshold := Some t66 |})
  /\ (group r = Some Low \/ group r = Some Intermediate \/ group r = Some High)
  /\ ((s =? t33)%num = true -> group r = Some Low)
  /\ ((s =? t66)%num = true -> (t33 <? t66)%num = true ->
      group r = Some Intermediate)
  /\ ((s =? t66)%num = true -> (t33 =? t66)%num = true -> group r = Some Low)
  /\ ((s =? t66)%num = true -> group r <> Some High).
Proof.
  intros Hle r. subst r. unfold classifyRisk, bothThresholds. simpl.
  split; [reflexivity|]. split; [|split; [|split; [|split]]].
  - destruct (s <=? t33)%num; [|destruct (s <=? t66)%num]; simpl; auto.
  - intros E. now rewrite (eqb_leb _ _ E).
  - intros E L. rewrite (eqb_leb _ _ E).
    assert (F : (s <=? t33)%num = false).
    { apply key_lt_leb_false. rewrite (eqb_key _ _ E). now apply ltb_key. }
    now rewrite F.
  - intros E1 E2.
    assert (T : (s <=? t33)%num = true).
    { destruct (eqb_not_nan _ _ E1), (eqb_not_nan _ _ E2).
      apply key_leb; auto. right.
      rewrite (eqb_key _ _ E1). symmetry. now apply eqb_key. }
    now rewrite T.
  - intros E. rewrite (eqb_leb _ _ E).
    destruct (s <=? t33)%num; simpl; discriminate.
Qed.

Lemma classifyRisk_bands_witness :
  (one <=? of_Z 2)%num = true /\
  group (classifyRisk (of_Z 2) (bothThresholds one (of_Z 2))) = Some Intermediate.
Proof.
  split; [reflexivity|].
  apply (classifyRisk_bands (of_Z 2) one (of_Z 2)); reflexivity.
Defined.

(** C7: without a reference, or with a reference that lacks q33 or q66,
    the classification is the empty one, whatever the score; no error
    is raised. *)
Theorem classifyRisk_no_reference (s : number) :
  classifyRisk s None = {| group := None; threshold := None |}
  /\ (forall t66 : option number,
        classifyRisk s (Some {| q33 := None; q66 := t66 |})
        = {| group := None; threshold := None |})
  /\ (forall t33 : option number,
        classifyRisk s (Some {| q33 := t33; q66 := None |})
        = {| group := None; threshold := None |}).
Proof.
  split; [reflexivity|]. split.
  - intros t66. reflexivity.
  - intros [t33|]; reflexivity.
Qed.

End ClassifyRisk.

(** ** Identifier column *)

Section DetectIdColumn.

Lemma hasColumn_In columns c : hasColumn columns c = true <-> In c columns.
Proof.
  unfold hasColumn. rewrite existsb_exists. split.
  - intros [x [Hx E]]. apply seqb_eq in E. now subst.
  - intros H. exists c. split; [assumption|apply seqb_refl].
Qed.

Lemma find_first {A} (f : A -> bool) (l : list A) (c : A) :
  find f l = Some c <->
  exists pre post, l = pre ++ c :: post /\ f c = true /\
                   forall p, In p pre -> f p = false.
Proof.
  induction l as [|a l IH]; simpl.
  - split; [discriminate|]. intros [[|? ?] [post [E _]]]; discriminate.
  - destruct (f a) eqn:Fa.
    + split.
      * intros [= <-]. exists [], l. simpl. repeat split; auto. intros p [].
      * intros [[|b pre] [post [E [Fc Hpre]]]]; simpl in E.
        -- congruence.
        -- injection E as <- _. rewrite (Hpre a) in Fa; [discriminate|now left].
    + rewrite IH. split.
      * intros [pre [post [E [Fc Hpre]]]]. exists (a :: pre), post. subst l.
        repeat split; auto. intros p [<-|Hp]; auto.
      * intros [[|b pre] [post [E [Fc Hpre]]]]; simpl in E.
        -- injection E as <- _. congruence.
        -- injection E as <- ->. exists pre, post. repeat split; auto.
           intros p Hp. apply Hpre. now right.
Qed.

(** C9: the result is the first name of the priority list that is among
    the columns, and nothing when none of them is. *)
Theorem detectIdColumn_first (columns : list jsstring) :
  (forall c, detectIdColumn columns = Some c <->
     exists pre post, idCandidates = pre ++ c :: post /\ In c columns /\
                      forall p, In p pre -> ~ In p columns)
  /\ (detectIdColumn columns = None <->
      forall c, In c idCandidates -> ~ In c columns)
  /\ (forall c, detectIdColumn columns = Some c -> In c columns)
  /\ idCandidates = [lit "Sample"; lit "Patient_ID"; lit "patient_id";
                     lit "PatientID"; lit "id"; lit "ID"]
  /\ detectIdColumn [lit "Name"; lit "Sample"; lit "Age"] = Some (lit "Sample")
  /\ detectIdColumn [lit "Name"; lit "Age"] = None.
Proof.
  assert (first : forall c, detectIdColumn columns = Some c <->
     exists pre post, idCandidates = pre ++ c :: post /\ In c columns /\
                      forall p, In p pre -> ~ In p columns).
  { intros c. unfold detectIdColumn. rewrite find_first. split.
    - intros [pre [post [E [Hc Hpre]]]]. exists pre, post.
      repeat split; auto.
      + now apply hasColumn_In.
      + intros p Hp Hin. apply hasColumn_In in Hin.
        rewrite (Hpre p Hp) in Hin. discriminate.
    - intros [pre [post [E [Hc Hpre]]]]. exists pre, post.
      repeat split; auto.
      + now apply hasColumn_In.
      + intros p Hp. destruct (hasColumn columns p) eqn:F; auto.
        apply hasColumn_In in F. elim (Hpre p Hp F). }
  split; [exact first|]. split; [|split; [|repeat split]].
  - unfold detectIdColumn. split.
    + intros H c Hc Hin. apply hasColumn_In in Hin.
      rewrite (find_none _ _ H c Hc) in Hin. discriminate.
    + intros H. destruct (find (hasColumn columns) idCandidates) eqn:F; auto.
      apply find_some in F. destruct F as [F1 F2].
      apply hasColumn_In in F2. elim (H _ F1 F2).
  - intros c H. apply first in H. destruct H as [_ [_ [_ [H _]]]]. exact H.
Qed.

End DetectIdColumn.

(** ** Survival look-up *)

Section GetSurvivalAtTime.

Variable t : number.

Lemma scanBack_some data n p :
  scanBack data n t = Some p ->
  exists i smp, (i < n)%nat /\ nth_error data i = Some smp /\
                (time smp <=? t)%num = true /\ p = probability smp /\
                forall j smp', (i < j < n)%nat -> nth_error data j = Some smp' ->
                               (time smp' <=? t)%num = false.
Proof.
  induction n as [|n IH]; simpl; [discriminate|].
  destruct (nth_error data n) as [smp|] eqn:En.
  - destruct (time smp <=? t)%num eqn:El.
    + intros [= <-]. exists n, smp. repeat split; auto. intros j smp' Hj. lia.
    + intros H. destruct (IH H) as [i [s [Hi [Hn [Hl [Hp Hlast]]]]]].
      exists i, s. repeat split; auto. intros j smp' Hj Hnth.
      destruct (Nat.eq_dec j n) as [->|Hne].
      * congruence.
      * apply (Hlast j smp'); [lia|assumption].
  - intros H. destruct (IH H) as [i [s [Hi [Hn [Hl [Hp Hlast]]]]]].
    exists i, s. repeat split; auto. intros j smp' Hj Hnth.
    destruct (Nat.eq_dec j n) as [->|Hne].
    * congruence.
    * apply (Hlast j smp'); [lia|assumption].
Qed.

Lemma scanBack_none data n :
  scanBack data n t = None ->
  forall j smp, (j < n)%nat -> nth_error data j = Some smp ->
                (time smp <=? t)%num = false.
Proof.
  induction n as [|n IH]; simpl; intros H j smp Hj Hnth; [lia|].
  destruct (nth_error data n) as [s|] eqn:En.
  - destruct (time s <=? t)%num eqn:El; [discriminate|].
    destruct (Nat.eq_dec j n) as [->|Hne]; [congruence|].
    apply (IH H j); [lia|assumption].
  - destruct (Nat.eq_dec j n) as [->|Hne]; [congruence|].
    apply (IH H j); [lia|assumption].
Qed.

Lemma scanBack_all_later data n :
  (forall j smp, (j < n)%nat -> nth_error data j = Some smp ->
                 (time smp <=? t)%num = false) ->
  scanBack data n t = None.
Proof.
  induction n as [|n IH]; simpl; intros H; [reflexivity|].
  destruct (nth_error data n) as [s|] eqn:En.
  - rewrite (H n s); [|lia|assumption]. apply IH. intros j smp Hj. apply H. lia.
  - apply IH. intros j smp Hj. apply H. lia.
Qed.

Lemma getSurvivalAtTime_last data i smp :
  lastAtOrBefore data t i smp -> getSurvivalAtTime data t = probability smp.
Proof.
  intros [Hn [Hl Hlast]]. unfold getSurvivalAtTime.
  assert (Hi : (i < List.length data)%nat).
  { apply nth_error_Some. congruence. }
  destruct data as [|first rest]; [destruct i; discriminate|].
  destruct (scanBack (first :: rest) (List.length (first :: rest)) t) as [p|] eqn:E.
  - apply scanBack_some in E.
    destruct E as [i' [s' [Hi' [Hn' [Hl' [Hp Hlast']]]]]]. subst p.
    destruct (Nat.lt_trichotomy i i') as [L|[->|L]].
    + rewrite (Hlast i' s' L Hn') in Hl'. discriminate.
    + congruence.
    + rewrite (Hlast' i smp) in Hl; [discriminate|lia|assumption].
  - rewrite (scanBack_none _ _ E i smp Hi Hn) in Hl. discriminate.
Qed.

Lemma getSurvivalAtTime_none first rest :
  (forall smp, In smp (first :: rest) -> (time smp <=? t)%num = false) ->
  getSurvivalAtTime (first :: rest) t = probability first.
Proof.
  intros H. unfold getSurvivalAtTime. rewrite scanBack_all_later; [reflexivity|].
  intros j smp _ Hn. apply H. eapply nth_error_In. exact Hn.
Qed.

Lemma timeOrdered_first first rest smp :
  timeOrdered (first :: rest) -> In smp (first :: rest) ->
  key_le (key (time first)) (key (time smp)).
Proof.
  revert first. induction rest as [|b rest IH]; intros first Ho Hin.
  - destruct Hin as [<-|[]]. now right.
  - destruct Hin as [<-|Hin]; [now right|].
    destruct Ho as [Hab Ho]. apply leb_key in Hab.
    specialize (IH b Ho Hin). destruct Hab as [Hab|Hab]; [|now rewrite Hab].
    left. destruct IH as [IH|IH]; [|now rewrite <- IH].
    eapply key_lt_trans; eassumption.
Qed.

(** C2: on a time-ordered curve the result is the probability of the
    last sample at or before the target time; the first sample's
    probability when the target precedes the first sample (or when no
    sample qualifies); 1 on an empty curve. *)
Theorem getSurvivalAtTime_step (data : list Sample) :
  timeOrdered data ->
  (forall i smp, lastAtOrBefore data t i smp ->
                 getSurvivalAtTime data t = probability smp)
  /\ (forall first rest, data = first :: rest -> (t <? time first)%num = true ->
        getSurvivalAtTime data t = probability first)
  /\ (forall first rest, data = first :: rest ->
        (forall smp, In smp data -> (time smp <=? t)%num = false) ->
        getSurvivalAtTime data t = probability first)
  /\ getSurvivalAtTime [] t = one
  /\ one = numberLit "1"
  /\ getSurvivalAtTime demoCurve (numberLit "45") = numberLit "0.9"
  /\ getSurvivalAtTime demoCurve (numberLit "-5") = numberLit "1.0".
Proof.
  intros Ho. split; [|split; [|split; [|repeat split]]].
  - intros i smp. apply getSurvivalAtTime_last.
  - intros first rest -> Hlt. apply getSurvivalAtTime_none.
    intros smp Hin. apply key_lt_leb_false. apply ltb_key in Hlt.
    destruct (timeOrdered_first _ _ _ Ho Hin) as [H|H].
    + eapply key_lt_trans; eassumption.
    + now rewrite <- H.
  - intros first rest -> H. now apply getSurvivalAtTime_none.
Qed.

End GetSurvivalAtTime.

Lemma getSurvivalAtTime_step_witness :
  timeOrdered demoCurve /\
  getSurvivalAtTime demoCurve (numberLit "30") = numberLit "0.9".
Proof.
  assert (Ho : timeOrdered demoCurve) by (repeat split).
  split; [exact Ho|].
  destruct (getSurvivalAtTime_step (numberLit "30") demoCurve Ho) as [H _].
  apply (H 1%nat {| time := numberLit "30"; probability := numberLit "0.9" |}).
  split; [reflexivity|]. split; [reflexivity|].
  intros [|[|[|j]]] smp' Hj; try lia; simpl.
  - intros [= <-]. reflexivity.
  - destruct j; discriminate.
Defined.

(** ** Upload *)

Section ReadUploadedFile.

Variable reader : jsstring -> list record.

Lemma endsWith_csv_not_sheet n :
  endsWith n (lit ".csv") = true ->
  endsWith n (lit ".xlsx") = false /\ endsWith n (lit ".xls") = false.
Proof.
  unfold endsWith. destruct (rev n) as [|c r]; [discriminate|].
  change (startsWith (c :: r) (rev (lit ".csv")))
    with (ceqb "v"%char c && startsWith r (lit "sc.")).
  intros H. apply andb_true_iff in H. destruct H as [H _].
  apply ceqb_eq in H. subst c. split; reflexivity.
Qed.

(** C8, as worded, fails: the rejection carries a fixed message, which
    holds neither the name of the rejected file nor its extension. *)
Lemma readUploadedFile_message_is_fixed :
  readUploadedFile (fun _ => []) {| name := lit "notes.txt"; content := [] |}
  = Rejected unsupported /\
  includes unsupported (lit "notes.txt") = false /\
  includes unsupported (lit "txt") = false.
Proof. repeat split. Qed.

(** C8 (amended): a name that ends, in lower case, in [.csv] is parsed as
    delimited text and one that ends in [.xlsx] or [.xls] goes to the
    spreadsheet reader; any other name is rejected with the fixed message
    "Unsupported file type. Please upload .csv or .xlsx", which names the
    suffixes .csv and .xlsx but not the file. *)
Theorem readUploadedFile_dispatch (file : File) :
  let n := toLowerCase (name file) in
  (endsWith n (lit ".csv") = true ->
   readUploadedFile reader file = Fulfilled (parseCSV (content file)))
  /\ (endsWith n (lit ".xlsx") = true \/ endsWith n (lit ".xls") = true ->
      readUploadedFile reader file = Fulfilled (reader (content file)))
  /\ (endsWith n (lit ".csv") = false -> endsWith n (lit ".xlsx") = false ->
      endsWith n (lit ".xls") = false ->
      readUploadedFile reader file = Rejected unsupported)
  /\ includes unsupported (lit ".csv") = true
  /\ includes unsupported (lit ".xlsx") = true.
Proof.
  intros n. unfold readUploadedFile. fold n.
  split; [|split; [|split; [|repeat split]]].
  - intros ->. reflexivity.
  - intros H. destruct (endsWith n (lit ".csv")) eqn:C.
    + destruct (endsWith_csv_not_sheet n C) as [X1 X2].
      rewrite X1, X2 in H. destruct H; discriminate.
    + destruct H as [-> | ->]; [reflexivity|]. now rewrite orb_true_r.
  - intros -> -> ->. reflexivity.
Qed.

End ReadUploadedFile.

(** ** Rounding *)

Section Rounding.

Lemma iter_pos_invariant {A} (P : A -> Prop) (f : A -> A) :
  (forall x, P x -> P (f x)) -> forall n x, P x -> P (iter_pos f n x).
Proof.
  intros Hf. induction n as [n IH|n IH|]; simpl; intros x Hx; auto.
Qed.

Lemma shr_1_nonneg mrs : 0 <= shr_m mrs -> 0 <= shr_m (shr_1 mrs).
Proof.
  destruct mrs as [m r s]. destruct m as [|p|p]; try destruct p; simpl; lia.
Qed.

Lemma shr_nonneg mrs e n : 0 <= shr_m mrs -> 0 <= shr_m (fst (shr mrs e n)).
Proof.
  intros H. destruct n as [|p|p]; simpl; auto.
  apply (iter_pos_invariant (fun x => 0 <= shr_m x)); auto using shr_1_nonneg.
Qed.

Lemma shr_record_of_loc_m m l : shr_m (shr_record_of_loc m l) = m.
Proof. destruct l as [|[]]; reflexivity. Qed.

Lemma shr_fexp_nonneg m e l : 0 <= m -> 0 <= shr_m (fst (shr_fexp prec emax m e l)).
Proof.
  intros H. unfold shr_fexp. apply shr_nonneg. now rewrite shr_record_of_loc_m.
Qed.

Lemma round_nearest_even_nonneg m l : 0 <= m -> 0 <= round_nearest_even m l.
Proof.
  intros H. destruct l as [|[]]; simpl; try destruct (Z.even m); lia.
Qed.

Lemma binary_round_aux_not_nan neg m e l :
  0 <= m -> isNaN (binary_round_aux prec emax neg m e l) = false.
Proof.
  intros H. unfold binary_round_aux.
  pose proof (shr_fexp_nonneg m e l H) as H1.
  destruct (shr_fexp prec emax m e l) as [mrs' e']. simpl in H1.
  pose proof (shr_fexp_nonneg _ e' loc_Exact
                (round_nearest_even_nonneg _ (loc_of_shr_record mrs') H1)) as H2.
  destruct (shr_fexp prec emax
              (round_nearest_even (shr_m mrs') (loc_of_shr_record mrs')) e' loc_Exact)
    as [mrs'' e'']. simpl in H2.
  destruct (shr_m mrs'') as [|p|p]; try reflexivity.
  - destruct (e'' <=? emax - prec); reflexivity.
  - lia.
Qed.

Lemma roundFrac_not_nan neg p d : isNaN (roundFrac neg p d) = false.
Proof.
  unfold roundFrac, SFdiv_core_binary.
  set (e' := Z.min _ _). set (m' := match 0 - 0 - e' with Z0 => _ | _ => _ end).
  assert (Hm : 0 <= m').
  { subst m'. destruct (0 - 0 - e'); try lia. apply Z.shiftl_nonneg. lia. }
  pose proof (Z.div_pos m' (Zpos d) Hm ltac:(lia)) as Hq.
  unfold Z.div in Hq. destruct (Z.div_eucl m' (Zpos d)) as [q r]. simpl in Hq.
  now apply binary_round_aux_not_nan.
Qed.

Lemma roundQ_not_nan neg q : isNaN (roundQ neg q) = false.
Proof.
  unfold roundQ. destruct (Qnum (Qred q)); try reflexivity.
  apply roundFrac_not_nan.
Qed.

Lemma literalValue_not_nan neg l : isNaN (literalValue neg l) = false.
Proof. destruct l; simpl; [reflexivity|apply roundQ_not_nan]. Qed.

Lemma scanDecimal_not_nan s x rest :
  scanDecimal s = Some (x, rest) -> isNaN x = false.
Proof.
  unfold scanDecimal.
  destruct (match s with
            | [] => (false, s)
            | c :: rest0 =>
              if ceqb c "+"%char then (false, rest0)
              else if ceqb c "-"%char then (true, rest0) else (false, s)
            end) as [neg body].
  destruct (scanUnsigned body) as [[l r]|]; [|discriminate].
  intros [= <- _]. apply literalValue_not_nan.
Qed.

End Rounding.

(** ** Scanning *)

Section Scanning.

Variable f : ascii -> bool.

Lemma takeWhile_dropWhile s : takeWhile f s ++ dropWhile f s = s.
Proof.
  induction s as [|c s IH]; simpl; [reflexivity|].
  destruct (f c); simpl; [now rewrite IH|reflexivity].
Qed.

Lemma takeWhile_all s : forallb f (takeWhile f s) = true.
Proof.
  induction s as [|c s IH]; simpl; [reflexivity|].
  destruct (f c) eqn:E; simpl; [now rewrite E|reflexivity].
Qed.

Lemma dropWhile_head s :
  match dropWhile f s with
  | c :: _ => f c = false
  | [] => True
  end.
Proof.
  induction s as [|c s IH]; simpl; [exact I|].
  destruct (f c) eqn:E; [exact IH|exact E].
Qed.

Lemma dropWhile_stop a c rest :
  forallb f a = true -> f c = false -> dropWhile f (a ++ c :: rest) = c :: rest.
Proof.
  induction a as [|x a IH]; simpl; intros Ha Hc.
  - now rewrite Hc.
  - apply andb_true_iff in Ha. destruct Ha as [Hx Ha]. rewrite Hx. now apply IH.
Qed.

Lemma takeWhile_stop a c rest :
  forallb f a = true -> f c = false -> takeWhile f (a ++ c :: rest) = a.
Proof.
  induction a as [|x a IH]; simpl; intros Ha Hc.
  - now rewrite Hc.
  - apply andb_true_iff in Ha. destruct Ha as [Hx Ha]. rewrite Hx.
    now rewrite IH.
Qed.

Lemma dropWhile_all a : forallb f a = true -> dropWhile f a = [].
Proof.
  induction a as [|x a IH]; simpl; intros Ha; [reflexivity|].
  apply andb_true_iff in Ha. destruct Ha as [Hx Ha]. rewrite Hx. now apply IH.
Qed.

Lemma takeWhile_whole a : forallb f a = true -> takeWhile f a = a.
Proof.
  induction a as [|x a IH]; simpl; intros Ha; [reflexivity|].
  apply andb_true_iff in Ha. destruct Ha as [Hx Ha]. rewrite Hx. now rewrite IH.
Qed.

End Scanning.

(** ** Stage ordinal *)

Section ParseStageOrdinal.

Lemma stageNumeral_not_space c : isStageNumeral c = true -> isWhiteSpace c = false.
Proof.
  destruct c as [[] [] [] [] [] [] [] []]; vm_compute; congruence.
Qed.

Lemma matchStageAt_sound s numerals :
  matchStageAt s = Some numerals -> StagePattern s [] numerals.
Proof.
  unfold matchStageAt.
  destruct (seqb (toUpperCase (firstn 5 s)) (lit "STAGE")) eqn:E; [|discriminate].
  apply seqb_eq in E.
  destruct (takeWhile isStageNumeral (dropWhile isWhiteSpace (skipn 5 s)))
    as [|c more] eqn:T; [discriminate|].
  intros [= <-].
  exists (firstn 5 s), (takeWhile isWhiteSpace (skipn 5 s)),
         (dropWhile isStageNumeral (dropWhile isWhiteSpace (skipn 5 s))).
  split; [|split; [|split; [|split; [|split]]]].
  - rewrite <- T, !takeWhile_dropWhile. symmetry. exact (firstn_skipn 5 s).
  - exact E.
  - apply takeWhile_all.
  - discriminate.
  - rewrite <- T. apply takeWhile_all.
  - apply dropWhile_head.
Qed.

Lemma matchStage_sound s : forall numerals,
  matchStage s = Some numerals -> exists pre, StagePattern s pre numerals.
Proof.
  induction s as [|a s IH]; intros numerals.
  - intros H. vm_compute in H. discriminate.
  - simpl. destruct (matchStageAt (a :: s)) eqn:E.
    + intros [= <-]. exists []. now apply matchStageAt_sound.
    + intros H. destruct (IH _ H) as [pre [stg [ws [post [Hs Hrest]]]]].
      exists (a :: pre), stg, ws, post. split; [|exact Hrest].
      simpl. now rewrite Hs.
Qed.

Lemma matchStageAt_complete s numerals :
  StagePattern s [] numerals -> matchStageAt s <> None.
Proof.
  intros [stg [ws [post [Hs [Hstg [Hws [Hne [Hnum Hpost]]]]]]]].
  simpl in Hs. subst s. unfold matchStageAt.
  assert (L : List.length stg = 5%nat).
  { rewrite <- (length_map upperChar stg). fold (toUpperCase stg).
    now rewrite Hstg. }
  rewrite <- L at 1. rewrite firstn_app, firstn_all, Nat.sub_diag. simpl firstn.
  rewrite app_nil_r, Hstg, seqb_refl.
  rewrite <- L, skipn_app, skipn_all, Nat.sub_diag. simpl skipn. simpl app at 1.
  destruct numerals as [|c more]; [congruence|].
  simpl in Hnum. apply andb_true_iff in Hnum. destruct Hnum as [Hc _].
  simpl app. rewrite dropWhile_stop; auto using stageNumeral_not_space.
  simpl. rewrite Hc. discriminate.
Qed.

Lemma matchStage_complete s : forall pre numerals,
  StagePattern s pre numerals -> matchStage s <> None.
Proof.
  induction s as [|a s IH]; intros pre numerals H.
  - destruct H as [stg [ws [post [Hs [_ [_ [Hne _]]]]]]].
    symmetry in Hs. apply app_eq_nil in Hs. destruct Hs as [_ Hs].
    apply app_eq_nil in Hs. destruct Hs as [_ Hs].
    apply app_eq_nil in Hs. destruct Hs as [_ Hs].
    apply app_eq_nil in Hs. destruct Hs as [Hs _]. contradiction.
  - simpl. destruct (matchStageAt (a :: s)) eqn:E; [discriminate|].
    destruct pre as [|x pre].
    + elim (matchStageAt_complete _ _ H E).
    + apply (IH pre numerals).
      destruct H as [stg [ws [post [Hs Hrest]]]].
      exists stg, ws, post. split; [|exact Hrest].
      simpl in Hs. now injection Hs.
Qed.

Lemma lookup_In k m n : lookup k m = Some n -> In n (map snd m).
Proof.
  induction m as [|[k' n'] m IH]; simpl; [discriminate|].
  destruct (seqb k' k); [intros [= <-]; now left|auto].
Qed.

Lemma ordinals_truthy n : In n ordinals -> orZero (Some n) = n /\ isNaN n = false.
Proof.
  intros H. repeat (destruct H as [<-|H]; [split; reflexivity|]). destruct H.
Qed.

Lemma parseStageOrdinal_present v :
  isAbsent v = false ->
  parseStageOrdinal v =
  match matchStage (toString v) with
  | Some numerals => orZero (lookup (toUpperCase numerals) ROMAN_MAP)
  | None =>
    let plain := toUpperCase (trim (toString v)) in
    match lookup plain ROMAN_MAP with
    | Some n => n
    | None => if isNaN (parseFloat plain) then zero else parseFloat plain
    end
  end.
Proof. destruct v as [| |[]|]; try discriminate; reflexivity. Qed.

Lemma orZero_lookup k :
  orZero (lookup k ROMAN_MAP) =
  match lookup k ROMAN_MAP with Some n => n | None => zero end.
Proof.
  destruct (lookup k ROMAN_MAP) as [n|] eqn:E; [|reflexivity].
  apply lookup_In in E. now apply ordinals_truthy.
Qed.

(** C3, as worded, fails in its last branch: the text handed to
    [parseFloat] is the trimmed string in upper case, so the text
    "Infinity", which [parseFloat] reads as a number, yields 0. *)
Lemma parseStageOrdinal_Infinity :
  matchStage (lit "Infinity") = None /\
  lookup (toUpperCase (trim (lit "Infinity"))) ROMAN_MAP = None /\
  parseFloat (trim (lit "Infinity")) = S754_infinity false /\
  parseStageOrdinal (VStr (lit "Infinity")) = zero.
Proof. repeat split. Qed.

(** C3 (amended): the branches apply in order, the first that matches
    decides.  An absent value is 0.  When the text holds "stage" (any
    case), white space and a run of I/V/X, the run in upper case is looked
    up in the table and is 0 when it is not there, with no fall-back.
    Otherwise the trimmed text in upper case is looked up in the table;
    failing that, the trimmed text in upper case goes through
    [parseFloat], and the result is that number, or 0 when there is
    none. *)
Theorem parseStageOrdinal_branches (v : value) :
  (isAbsent v = true -> parseStageOrdinal v = zero)
  /\ (isAbsent v = false -> forall numerals,
      matchStage (toString v) = Some numerals ->
      (exists pre, StagePattern (toString v) pre numerals) /\
      parseStageOrdinal v =
      match lookup (toUpperCase numerals) ROMAN_MAP with
      | Some n => n
      | None => zero
      end)
  /\ (isAbsent v = false -> matchStage (toString v) = None ->
      (forall pre numerals, ~ StagePattern (toString v) pre numerals) /\
      let plain := toUpperCase (trim (toString v)) in
      match lookup plain ROMAN_MAP with
      | Some n => parseStageOrdinal v = n
      | None =>
        parseStageOrdinal v =
        if isNaN (parseFloat plain) then zero else parseFloat plain
      end)
  /\ ROMAN_MAP = [(lit "I", numberLit "1"); (lit "II", numberLit "2");
                  (lit "III", numberLit "3"); (lit "IV", numberLit "4");
                  (lit "V", numberLit "5")]
  /\ parseStageOrdinal (VStr (lit "Stage II")) = numberLit "2"
  /\ parseStageOrdinal (VStr (lit "Stage IIX")) = zero
  /\ parseStageOrdinal (VStr (lit "Stage VII")) = zero
  /\ parseStageOrdinal (VStr (lit "iv")) = numberLit "4"
  /\ parseStageOrdinal (VStr (lit "2.5")) = numberLit "2.5"
  /\ parseStageOrdinal (VStr (lit "stage x")) = zero.
Proof.
  split; [|split; [|split; [|repeat split]]].
  - destruct v as [| |[]|]; try discriminate; reflexivity.
  - intros Hv numerals Hm. split; [now apply matchStage_sound|].
    rewrite (parseStageOrdinal_present v Hv), Hm. apply orZero_lookup.
  - intros Hv Hm. split.
    + intros pre numerals H. exact (matchStage_complete _ _ _ H Hm).
    + rewrite (parseStageOrdinal_present v Hv), Hm. cbv zeta.
      destruct (lookup (toUpperCase (trim (toString v))) ROMAN_MAP); reflexivity.
Qed.

(** C6, as worded, fails: the last branch returns whatever [parseFloat]
    reads, such as 2.5 or -3. *)
Lemma parseStageOrdinal_fraction :
  parseStageOrdinal (VStr (lit "2.5")) = numberLit "2.5" /\
  isNonNegInteger (parseStageOrdinal (VStr (lit "2.5"))) = false /\
  parseStageOrdinal (VStr (lit "-3")) = numberLit "-3" /\
  isNonNegInteger (parseStageOrdinal (VStr (lit "-3"))) = false.
Proof. repeat split. Qed.

(** C6 (amended): the result is never NaN.  It is one of the integers 0
    to 5 whenever it comes from an absent value, from the stage pattern or
    from the table; otherwise it is the number that [parseFloat] reads in
    the trimmed upper-case text, which need be neither whole nor
    non-negative. *)
Theorem parseStageOrdinal_range (v : value) :
  isNaN (parseStageOrdinal v) = false
  /\ (In (parseStageOrdinal v) (zero :: ordinals)
      \/ (isAbsent v = false /\ matchStage (toString v) = None /\
          lookup (toUpperCase (trim (toString v))) ROMAN_MAP = None /\
          parseStageOrdinal v = parseFloat (toUpperCase (trim (toString v)))))
  /\ Forall (fun n => isNonNegInteger n = true) (zero :: ordinals)
  /\ zero :: ordinals = map numberLit ["0"; "1"; "2"; "3"; "4"; "5"]%string.
Proof.
  assert (T : forall k, In (match lookup k ROMAN_MAP with Some n => n | None => zero end)
                           (zero :: ordinals)).
  { intros k. destruct (lookup k ROMAN_MAP) as [n|] eqn:E; [|now left].
    right. exact (lookup_In _ _ _ E). }
  assert (N : forall n, In n (zero :: ordinals) -> isNaN n = false).
  { intros n [<-|H]; [reflexivity|]. now apply ordinals_truthy. }
  destruct (isAbsent v) eqn:Hv.
  - assert (Z : parseStageOrdinal v = zero).
    { destruct v as [| |[]|]; try discriminate; reflexivity. }
    rewrite Z. split; [reflexivity|]. split; [left; now left|].
    split; [repeat constructor|reflexivity].
  - rewrite (parseStageOrdinal_present v Hv).
    destruct (matchStage (toString v)) as [numerals|] eqn:Hm.
    + rewrite orZero_lookup. split; [apply N, T|]. split; [left; apply T|].
      split; [repeat constructor|reflexivity].
    + cbv zeta.
      destruct (lookup (toUpperCase (trim (toString v))) ROMAN_MAP) as [n|] eqn:E.
      * assert (I : In n (zero :: ordinals)) by (right; exact (lookup_In _ _ _ E)).
        split; [now apply N|]. split; [now left|].
        split; [repeat constructor|reflexivity].
      * destruct (isNaN (parseFloat (toUpperCase (trim (toString v))))) eqn:P.
        -- split; [reflexivity|]. split; [left; now left|].
           split; [repeat constructor|reflexivity].
        -- split; [exact P|]. split; [right; repeat split; reflexivity|].
           split; [repeat constructor|reflexivity].
Qed.

End ParseStageOrdinal.

(** ** Trimming *)

Section Trim.

Lemma dropWhile_snoc_stop f l c :
  f c = false -> dropWhile f (l ++ [c]) = dropWhile f l ++ [c].
Proof.
  intros Hc. induction l as [|x l IH]; simpl.
  - now rewrite Hc.
  - destruct (f x); [exact IH|reflexivity].
Qed.

Lemma dropWhile_idem f l : dropWhile f (dropWhile f l) = dropWhile f l.
Proof.
  induction l as [|x l IH]; simpl; [reflexivity|].
  destruct (f x) eqn:E; [exact IH|]. simpl. now rewrite E.
Qed.

Lemma trim_cases s :
  trim s = match dropWhile isWhiteSpace s with
           | [] => []
           | c :: a => c :: rev (dropWhile isWhiteSpace (rev a))
           end.
Proof.
  unfold trim, trimEnd, trimStart.
  pose proof (dropWhile_head isWhiteSpace s) as H.
  destruct (dropWhile isWhiteSpace s) as [|c a]; [reflexivity|].
  simpl rev. rewrite dropWhile_snoc_stop by exact H.
  rewrite rev_app_distr. reflexivity.
Qed.

Lemma trim_head s c rest : trim s = c :: rest -> isWhiteSpace c = false.
Proof.
  rewrite trim_cases. pose proof (dropWhile_head isWhiteSpace s) as H.
  destruct (dropWhile isWhiteSpace s) as [|x a]; [discriminate|].
  now intros [= <- _].
Qed.

Lemma trim_idem s : trim (trim s) = trim s.
Proof.
  rewrite (trim_cases s). pose proof (dropWhile_head isWhiteSpace s) as H.
  destruct (dropWhile isWhiteSpace s) as [|c a]; [reflexivity|].
  rewrite trim_cases. simpl. rewrite H.
  now rewrite rev_involutive, dropWhile_idem.
Qed.

End Trim.

(** ** Records *)

Section Records.

Lemma getProp_setProp_same r k v : getProp (setProp r k v) k = Some v.
Proof.
  induction r as [|[k' v'] r IH]; simpl.
  - now rewrite seqb_refl.
  - destruct (seqb k' k) eqn:E; simpl; rewrite E; [reflexivity|exact IH].
Qed.

Lemma getProp_setProp_other r k v k' :
  k <> k' -> getProp (setProp r k v) k' = getProp r k'.
Proof.
  intros Hne. induction r as [|[k0 v0] r IH]; simpl.
  - destruct (seqb k k') eqn:E; [|reflexivity]. apply seqb_eq in E. contradiction.
  - destruct (seqb k0 k) eqn:E; simpl.
    + apply seqb_eq in E. subst k0.
      destruct (seqb k k') eqn:E'; [|reflexivity].
      apply seqb_eq in E'. contradiction.
    + destruct (seqb k0 k'); [reflexivity|exact IH].
Qed.

Lemma keys_setProp r k v k' :
  In k' (keys (setProp r k v)) <-> k' = k \/ In k' (keys r).
Proof.
  induction r as [|[k0 v0] r IH]; simpl.
  - intuition.
  - destruct (seqb k0 k) eqn:E; simpl.
    + apply seqb_eq in E. subst k0. intuition.
    + rewrite IH. intuition.
Qed.

Lemma NoDup_setProp r k v : NoDup (keys r) -> NoDup (keys (setProp r k v)).
Proof.
  induction r as [|[k0 v0] r IH]; simpl; intros H.
  - constructor; [intros []|constructor].
  - inversion H as [|? ? Hin Hnd]; subst.
    destruct (seqb k0 k) eqn:E; simpl.
    + now constructor.
    + constructor; [|now apply IH].
      intros Hin'. apply keys_setProp in Hin'. destruct Hin' as [->|Hin'].
      * rewrite seqb_refl in E. discriminate.
      * contradiction.
Qed.

Lemma getProp_In r k v : getProp r k = Some v -> In k (keys r).
Proof.
  induction r as [|[k0 v0] r IH]; simpl; [discriminate|].
  destruct (seqb k0 k) eqn:E; [|auto].
  apply seqb_eq in E. now left.
Qed.

Lemma assignProp_own o k v :
  (k = protoName /\ snd (assignProp o k v) = snd o)
  \/ snd (assignProp o k v) = setProp (snd o) k v.
Proof.
  destruct o as [inherits own]. unfold assignProp.
  destruct (seqb k protoName) eqn:E; cbn [andb]; [|now right].
  destruct (inherits && match getProp own k with Some _ => false | None => true end);
    [|now right].
  left. split; [now apply seqb_eq|reflexivity].
Qed.

Lemma assignProp_plain o k v :
  k <> protoName -> assignProp o k v = (fst o, setProp (snd o) k v).
Proof.
  intros H. destruct o as [inherits own]. unfold assignProp.
  now rewrite (seqb_neq _ _ H).
Qed.

Lemma keys_assignProp_within o k v k' :
  In k' (keys (snd (assignProp o k v))) -> k' = k \/ In k' (keys (snd o)).
Proof.
  destruct (assignProp_own o k v) as [[_ ->]| ->]; [now right|].
  apply keys_setProp.
Qed.

Lemma keys_assignProp o k v k' :
  k' <> protoName ->
  (In k' (keys (snd (assignProp o k v))) <-> k' = k \/ In k' (keys (snd o))).
Proof.
  intros H. destruct (assignProp_own o k v) as [[-> ->]| ->]; [tauto|].
  apply keys_setProp.
Qed.

Lemma NoDup_assignProp o k v :
  NoDup (keys (snd o)) -> NoDup (keys (snd (assignProp o k v))).
Proof.
  destruct (assignProp_own o k v) as [[_ ->]| ->]; [auto|].
  apply NoDup_setProp.
Qed.

Lemma getProp_assignProp_other o k v k' :
  k <> k' -> getProp (snd (assignProp o k v)) k' = getProp (snd o) k'.
Proof.
  intros H. destruct (assignProp_own o k v) as [[_ ->]| ->]; [reflexivity|].
  now apply getProp_setProp_other.
Qed.

Lemma getProp_assignProp_same o k v :
  k <> protoName -> getProp (snd (assignProp o k v)) k = Some v.
Proof.
  intros H. rewrite (assignProp_plain _ _ _ H). apply getProp_setProp_same.
Qed.

End Records.

(** ** Delimited text *)

Section ParseCSV.

Lemma stringToNumber_trimmed c t :
  trim (c :: t) = c :: t ->
  stringToNumber (c :: t) =
  match strNumericLiteral (c :: t) with
  | Some x => x
  | None => S754_nan
  end.
Proof.
  intros Ht. unfold stringToNumber, strNumericLiteral, strDecimalLiteral.
  rewrite Ht. destruct (scanNonDecimal (c :: t)); [reflexivity|].
  destruct (scanDecimal (c :: t)) as [[x [|? ?]]|]; reflexivity.
Qed.

Lemma strNumericLiteral_not_nan t x : strNumericLiteral t = Some x -> isNaN x = false.
Proof.
  unfold strNumericLiteral, strDecimalLiteral.
  destruct (scanNonDecimal t).
  - intros [= <-]. apply roundQ_not_nan.
  - destruct (scanDecimal t) as [[y [|? ?]]|] eqn:E; try discriminate.
    intros [= <-]. exact (scanDecimal_not_nan _ _ _ E).
Qed.

Lemma coerceField_cell raw : coerceField (Some raw) = cellOfText (trim raw).
Proof.
  unfold coerceField, cellOfText. simpl option_map. cbv iota.
  destruct (seqb (trim raw) (lit "") || seqb (trim raw) (lit "NA")
            || seqb (trim raw) (lit "NaN")) eqn:E; [reflexivity|].
  destruct (trim raw) as [|c t] eqn:Ht; [discriminate|].
  rewrite stringToNumber_trimmed by (rewrite <- Ht; apply trim_idem).
  destruct (strNumericLiteral (c :: t)) as [x|] eqn:L; [|reflexivity].
  now rewrite (strNumericLiteral_not_nan _ _ L).
Qed.

Variable values : list jsstring.

Lemma fold_setCell_keys l : forall o k,
  k <> protoName ->
  (In k (keys (snd (fold_left (setCell values) l o)))
   <-> In k (keys (snd o)) \/ In k (map snd l)).
Proof.
  induction l as [|[i h] l IH]; intros o k Hk; cbn [fold_left map snd In].
  - tauto.
  - rewrite (IH _ _ Hk). cbn [setCell]. rewrite (keys_assignProp _ _ _ _ Hk).
    intuition.
Qed.

Lemma fold_setCell_within l : forall o k,
  In k (keys (snd (fold_left (setCell values) l o))) ->
  In k (keys (snd o)) \/ In k (map snd l).
Proof.
  induction l as [|[i h] l IH]; intros o k; cbn [fold_left map snd In].
  - tauto.
  - intros H. destruct (IH _ _ H) as [H'|H']; [|tauto].
    cbn [setCell] in H'. apply keys_assignProp_within in H'.
    destruct H' as [->|H']; tauto.
Qed.

Lemma fold_setCell_NoDup l : forall o,
  NoDup (keys (snd o)) -> NoDup (keys (snd (fold_left (setCell values) l o))).
Proof.
  induction l as [|[i h] l IH]; intros o H; cbn [fold_left]; [exact H|].
  apply IH. now apply NoDup_assignProp.
Qed.

Lemma fold_setCell_absent l : forall o h,
  ~ In h (map snd l) ->
  getProp (snd (fold_left (setCell values) l o)) h = getProp (snd o) h.
Proof.
  induction l as [|[i h'] l IH]; intros o h H; cbn [fold_left]; [reflexivity|].
  cbn [map snd In] in H. rewrite IH by tauto. cbn [setCell].
  apply getProp_assignProp_other. tauto.
Qed.

Lemma combine_seq_snd (hs : list jsstring) : forall s,
  map snd (combine (seq s (List.length hs)) hs) = hs.
Proof.
  induction hs as [|h hs IH]; intros s; simpl; [reflexivity|]. now rewrite IH.
Qed.

Lemma combine_seq_app (h1 h2 : list jsstring) : forall s,
  combine (seq s (List.length (h1 ++ h2))) (h1 ++ h2) =
  combine (seq s (List.length h1)) h1 ++
  combine (seq (s + List.length h1) (List.length h2)) h2.
Proof.
  induction h1 as [|h h1 IH]; intros s; simpl.
  - now rewrite Nat.add_0_r.
  - rewrite IH. now rewrite Nat.add_succ_r.
Qed.

Lemma parseRow_keys headers k :
  k <> protoName -> (In k (keys (parseRow headers values)) <-> In k headers).
Proof.
  intros Hk. unfold parseRow. rewrite (fold_setCell_keys _ _ _ Hk), combine_seq_snd.
  cbn [snd keys map In]. tauto.
Qed.

Lemma parseRow_within headers k :
  In k (keys (parseRow headers values)) -> In k headers.
Proof.
  unfold parseRow. intros H. apply fold_setCell_within in H.
  rewrite combine_seq_snd in H. cbn [snd keys map In] in H. tauto.
Qed.

Lemma parseRow_keys_plain headers k :
  ~ In protoName headers -> (In k (keys (parseRow headers values)) <-> In k headers).
Proof.
  intros Hp. split; [apply parseRow_within|].
  intros H. apply parseRow_keys; [|exact H]. intros ->. contradiction.
Qed.

Lemma parseRow_NoDup headers : NoDup (keys (parseRow headers values)).
Proof. apply fold_setCell_NoDup. constructor. Qed.

Lemma parseRow_get headers h i :
  h <> protoName -> lastIndexOf headers h i ->
  getProp (parseRow headers values) h = Some (coerceField (nth_error values i)).
Proof.
  intros Hp [Hn Hlast].
  destruct (nth_error_split _ _ Hn) as [h1 [h2 [-> Hlen]]].
  assert (Hh2 : ~ In h h2).
  { intros Hin. apply In_nth_error in Hin. destruct Hin as [j Hj].
    apply (Hlast (S (i + j))); [lia|].
    rewrite nth_error_app2 by lia.
    replace (S (i + j) - List.length h1)%nat with (S j) by lia. exact Hj. }
  unfold parseRow. rewrite combine_seq_app, fold_left_app.
  cbn [List.length seq combine fold_left].
  rewrite fold_setCell_absent by now rewrite combine_seq_snd.
  cbn [setCell]. rewrite Nat.add_0_l, Hlen. now apply getProp_assignProp_same.
Qed.

Lemma parseRow_proto_alone : parseRow [protoName] values = [].
Proof.
  unfold parseRow. cbn [List.length seq combine fold_left setCell].
  now destruct (coerceField (nth_error values 0)).
Qed.

End ParseCSV.

(** C4, as worded, fails: a field need not be a decimal number to become
    a number; [0x10] is read as 16. *)
Lemma parseCSV_hexadecimal :
  strDecimalLiteral (lit "0x10") = None /\
  parseCSV (lit "a" ++ [newline] ++ lit "0x10") = [[(lit "a", VNum (numberLit "16"))]].
Proof. split; reflexivity. Qed.

(** C4 (amended): each record of [parseCSV] is made of one data line and
    has exactly the columns of the header line, but for a column named
    [__proto__], which the assignment of its cell does not make a
    property (with that header alone the record has no column); the
    cell of a column is made of the value at the column's index, and is
    null when the line has no value there (values past the last column
    are not looked at).  The cell of a trimmed text is null for the
    empty text, NA and NaN; the number [Number] reads in it when it is a
    numeric literal (decimal with optional sign, fraction and exponent,
    Infinity, or a 0x, 0o or 0b integer); the text itself otherwise. *)
Theorem parseCSV_cells (text : jsstring) :
  let lines := split newline (trim text) in
  let headers := parseCSVLine (hd [] lines) in
  parseCSV text = map (fun line => parseRow headers (parseCSVLine line)) (tl lines)
  /\ (forall values : list jsstring,
        let row := parseRow headers values in
        (forall k, k <> protoName -> (In k (keys row) <-> In k headers))
        /\ (forall k, In k (keys row) -> In k headers)
        /\ NoDup (keys row)
        /\ (forall h i, h <> protoName -> lastIndexOf headers h i ->
              getProp row h = Some (coerceField (nth_error values i)))
        /\ (forall h i, h <> protoName -> lastIndexOf headers h i ->
              (List.length values <= i)%nat -> getProp row h = Some VNull))
  /\ (forall values, parseRow [protoName] values = [])
  /\ coerceField None = VNull
  /\ (forall raw, coerceField (Some raw) = cellOfText (trim raw))
  /\ (forall t, cellOfText t =
        if seqb t (lit "") || seqb t (lit "NA") || seqb t (lit "NaN") then VNull
        else match strNumericLiteral t with
             | Some x => VNum x
             | None => VStr t
             end)
  /\ (forall t x, strNumericLiteral t = Some x -> isNaN x = false).
Proof.
  intros lines headers.
  split; [|split; [|split; [|split; [reflexivity|split; [|split]]]]].
  - unfold parseCSV. fold lines. subst headers.
    destruct lines as [|first rest]; reflexivity.
  - intros values row. subst row.
    split; [intros k; apply parseRow_keys|]. split; [intros k; apply parseRow_within|].
    split; [apply parseRow_NoDup|]. split.
    + intros h i. apply parseRow_get.
    + intros h i Hp H L. rewrite (parseRow_get values headers h i Hp H).
      apply nth_error_None in L. now rewrite L.
  - apply parseRow_proto_alone.
  - apply coerceField_cell.
  - reflexivity.
  - apply strNumericLiteral_not_nan.
Qed.

(** ** Rounding a number that binary64 holds *)

Section Exact.

Lemma digits2_pos_size p : digits2_pos p = Pos.size p.
Proof. induction p; simpl; congruence. Qed.

Lemma Zdigits2_log2 z : 0 < z -> Zdigits2 z = Z.log2 z + 1.
Proof.
  destruct z as [|p|p]; try lia. intros _. simpl. rewrite digits2_pos_size.
  destruct p; simpl; lia.
Qed.

Lemma Zdigits2_mul_pow2 z u : 0 < z -> 0 <= u -> Zdigits2 (z * 2 ^ u) = Zdigits2 z + u.
Proof.
  intros Hz Hu.
  assert (0 < z * 2 ^ u) by (apply Z.mul_pos_pos; [lia|apply Z.pow_pos_nonneg; lia]).
  rewrite !Zdigits2_log2 by lia. rewrite Z.log2_mul_pow2; lia.
Qed.

Lemma shr_1_double M : 0 < M -> shr_1 (exactRecord (M * 2)) = exactRecord M.
Proof. destruct M as [|p|p]; try lia. intros _. rewrite Z.mul_comm. reflexivity. Qed.

Lemma iter_shr_exact j : forall M,
  0 < M -> iter_pos shr_1 j (exactRecord (M * 2 ^ Zpos j)) = exactRecord M.
Proof.
  induction j as [j IH|j IH|]; intros M HM; cbn [iter_pos].
  - replace (M * 2 ^ Zpos j~1) with ((M * 2 ^ Zpos j * 2 ^ Zpos j) * 2).
    + rewrite shr_1_double.
      * rewrite IH; [apply IH; exact HM|]. apply Z.mul_pos_pos; [lia|].
        apply Z.pow_pos_nonneg; lia.
      * repeat apply Z.mul_pos_pos; try lia; apply Z.pow_pos_nonneg; lia.
    + assert (E : Zpos j~1 = Zpos j + Zpos j + 1) by lia.
      rewrite E, !Z.pow_add_r by lia. change (2 ^ 1) with 2. ring.
  - replace (M * 2 ^ Zpos j~0) with (M * 2 ^ Zpos j * 2 ^ Zpos j).
    + rewrite IH; [apply IH; exact HM|]. apply Z.mul_pos_pos; [lia|].
      apply Z.pow_pos_nonneg; lia.
    + assert (E : Zpos j~0 = Zpos j + Zpos j) by lia.
      rewrite E, Z.pow_add_r by lia. ring.
  - change (2 ^ 1) with 2. now apply shr_1_double.
Qed.

Lemma shr_exact M e j :
  0 < M -> 0 <= j -> shr (exactRecord (M * 2 ^ j)) e j = (exactRecord M, e + j).
Proof.
  intros HM Hj. destruct j as [|p|p]; try lia.
  - simpl. now rewrite Z.mul_1_r, Z.add_0_r.
  - simpl shr. now rewrite iter_shr_exact.
Qed.

Lemma binary_round_aux_exact neg m e j :
  bounded prec emax m e = true -> 0 <= j ->
  binary_round_aux prec emax neg (Zpos m * 2 ^ j) (e - j) loc_Exact
  = S754_finite neg m e.
Proof.
  intros Hb Hj. unfold bounded, canonical_mantissa in Hb.
  apply andb_true_iff in Hb. destruct Hb as [Hc He].
  apply Z.eqb_eq in Hc. change (Zpos (digits2_pos m)) with (Zdigits2 (Zpos m)) in Hc.
  unfold binary_round_aux, shr_fexp.
  rewrite Zdigits2_mul_pow2 by lia.
  replace (Zdigits2 (Zpos m) + j + (e - j)) with (Zdigits2 (Zpos m) + e) by lia.
  rewrite Hc. replace (e - (e - j)) with j by lia.
  change (shr_record_of_loc (Zpos m * 2 ^ j) loc_Exact) with (exactRecord (Zpos m * 2 ^ j)).
  rewrite shr_exact by lia.
  cbn [exactRecord shr_m loc_of_shr_record round_nearest_even shr_record_of_loc].
  replace (e - j + j) with e by lia. rewrite Hc, Z.sub_diag.
  cbn [shr shr_m]. now rewrite He.
Qed.

End Exact.

Section Dyadic.

Lemma pow2_pos a : 0 <= a -> 0 < 2 ^ a.
Proof. intros. apply Z.pow_pos_nonneg; lia. Qed.

Lemma fexp_mono a b : a <= b -> fexp prec emax a <= fexp prec emax b.
Proof. unfold fexp. lia. Qed.

Lemma div_eucl_pow2 P s a :
  0 <= a <= s -> Z.div_eucl (P * 2 ^ s) (2 ^ a) = (P * 2 ^ (s - a), 0).
Proof.
  intros H. pose proof (pow2_pos a ltac:(lia)) as Ha.
  assert (E : P * 2 ^ s = P * 2 ^ (s - a) * 2 ^ a).
  { rewrite <- Z.mul_assoc, <- Z.pow_add_r by lia. f_equal. f_equal. lia. }
  pose proof (Z.div_mul (P * 2 ^ (s - a)) (2 ^ a) ltac:(lia)) as Hq.
  pose proof (Z.mod_mul (P * 2 ^ (s - a)) (2 ^ a) ltac:(lia)) as Hr.
  rewrite <- E in Hq, Hr. unfold Z.div, Z.modulo in Hq, Hr.
  destruct (Z.div_eucl (P * 2 ^ s) (2 ^ a)) as [q r]. simpl in Hq, Hr. congruence.
Qed.

Lemma new_location_zero n : new_location n 0 = loc_Exact.
Proof. unfold new_location. destruct (Z.even n); reflexivity. Qed.

Lemma roundFrac_dyadic neg m e P a :
  bounded prec emax m e = true -> 0 <= a -> (a = 0 \/ a <= - e) ->
  Zpos P * 2 ^ Z.max 0 (- (e + a)) = Zpos m * 2 ^ Z.max 0 (e + a) ->
  roundFrac neg P (Z.to_pos (2 ^ a)) = S754_finite neg m e.
Proof.
  intros Hb Ha Hae Hrel.
  pose proof (pow2_pos a Ha) as H2a.
  assert (Hc : fexp prec emax (Zdigits2 (Zpos m) + e) = e).
  { unfold bounded, canonical_mantissa in Hb. apply andb_true_iff in Hb.
    destruct Hb as [Hc _]. now apply Z.eqb_eq in Hc. }
  assert (Hd : Zdigits2 (Zpos P) = Zdigits2 (Zpos m) + e + a).
  { apply (f_equal Zdigits2) in Hrel.
    rewrite !Zdigits2_mul_pow2 in Hrel by lia. lia. }
  unfold roundFrac, SFdiv_core_binary.
  rewrite Z2Pos.id by exact H2a.
  rewrite (Zdigits2_log2 (2 ^ a)) by exact H2a. rewrite Z.log2_pow2 by exact Ha.
  rewrite Hd.
  set (e' := Z.min _ _).
  assert (He' : e' <= e /\ e' <= 0 /\ a <= - e').
  { subst e'.
    pose proof (fexp_mono (Zdigits2 (Zpos m) + e + a + 0 - (a + 1 + 0))
                          (Zdigits2 (Zpos m) + e) ltac:(lia)) as Hm.
    rewrite Hc in Hm. lia. }
  replace (0 - 0 - e') with (- e') by lia.
  assert (Hm' : match - e' with
                | 0 => Zpos P
                | Zpos _ => Z.shiftl (Zpos P) (- e')
                | Zneg _ => 0
                end = Zpos P * 2 ^ (- e')).
  { destruct (- e') as [|s|s] eqn:Es; try lia.
    rewrite Z.shiftl_mul_pow2 by lia. reflexivity. }
  rewrite Hm', div_eucl_pow2 by lia. rewrite new_location_zero.
  assert (Hq : Zpos P * 2 ^ (- e' - a) = Zpos m * 2 ^ (e - e')).
  { set (u := Z.max 0 (- (e + a))) in *. set (v := Z.max 0 (e + a)) in *.
    set (t := - e' - a - u).
    assert (Ht : 0 <= t /\ 0 <= u /\ 0 <= v /\ - e' - a = u + t /\ e - e' = v + t)
      by (subst t u v; lia).
    destruct Ht as [Ht [Hu [Hv [E1 E2]]]].
    rewrite E1, E2, !Z.pow_add_r, !Z.mul_assoc, Hrel by lia. reflexivity. }
  rewrite Hq. replace e' with (e - (e - e')) at 2 by lia.
  apply binary_round_aux_exact; [exact Hb|lia].
Qed.

Lemma odd_pow2_gcd p a : 0 <= a -> Z.gcd (Zpos p~1) (2 ^ a) = 1.
Proof.
  intros Ha. apply Z.coprime_pow_r; [exact Ha|].
  apply Z.coprime_Bezout. exists 1, (- Zpos p). lia.
Qed.

Lemma one_pow2_gcd a : 0 <= a -> Z.gcd 1 (2 ^ a) = 1.
Proof. intros. apply Z.gcd_1_l. Qed.

Lemma binaryQ_double m e : binaryQ (Zpos m~0) e == binaryQ (Zpos m) (e + 1).
Proof.
  unfold binaryQ. rewrite Qpower_plus by discriminate.
  change (Zpos m~0) with (2 * Zpos m). rewrite inject_Z_mult.
  change ((2 # 1) ^ 1)%Q with (inject_Z 2). ring.
Qed.

Lemma binaryQ_nonneg_exp z e : 0 <= e -> binaryQ z e == inject_Z (z * 2 ^ e).
Proof.
  intros He. unfold binaryQ. rewrite inject_Z_mult, Zpower_Qpower by exact He.
  reflexivity.
Qed.

Lemma binaryQ_neg_exp z e : e <= 0 -> binaryQ z e == z # Z.to_pos (2 ^ (- e)).
Proof.
  intros He. unfold binaryQ.
  replace e with (- (- e)) at 1 by lia. rewrite Qpower_opp.
  change (2 # 1)%Q with (inject_Z 2). rewrite <- Zpower_Qpower by lia.
  pose proof (pow2_pos (- e) ltac:(lia)) as Hp.
  destruct (2 ^ (- e)) as [|q|q] eqn:E; try lia.
  unfold Qeq, Qinv, Qmult, inject_Z. simpl. lia.
Qed.

End Dyadic.

Section ExactRounding.

Lemma roundQ_Qeq neg q1 q2 : q1 == q2 -> roundQ neg q1 = roundQ neg q2.
Proof. intros H. unfold roundQ. now rewrite (Qred_complete _ _ H). Qed.

Lemma dyadicForm_odd p e :
  (forall a, 0 <= a -> Z.gcd (Zpos p) (2 ^ a) = 1) ->
  exists P a, dyadicForm p e P a.
Proof.
  intros Hodd. destruct (Z_le_gt_dec 0 e) as [He|He].
  - pose proof (pow2_pos e He) as H2.
    exists (Z.to_pos (Zpos p * 2 ^ e)), 0. unfold dyadicForm.
    split; [lia|]. split; [now left|]. split.
    + rewrite (Qred_complete _ _ (binaryQ_nonneg_exp (Zpos p) e He)).
      rewrite Qcanon.Qred_identity by apply Z.gcd_1_r.
      unfold inject_Z. f_equal. rewrite Z2Pos.id; lia.
    + rewrite Z2Pos.id by lia.
      rewrite Z.add_0_r, Z.max_l, Z.max_r by lia. now rewrite Z.pow_0_r, Z.mul_1_r.
  - exists p, (- e). unfold dyadicForm.
    split; [lia|]. split; [now right|]. split.
    + rewrite (Qred_complete _ _ (binaryQ_neg_exp (Zpos p) e ltac:(lia))).
      apply Qcanon.Qred_identity. simpl Qnum. simpl Qden.
      rewrite Z2Pos.id by (apply pow2_pos; lia). apply Hodd. lia.
    + now rewrite Z.add_opp_diag_r.
Qed.

Lemma dyadicForm_exists m : forall e, exists P a, dyadicForm m e P a.
Proof.
  induction m as [m IH|m IH|]; intros e.
  - apply dyadicForm_odd. apply odd_pow2_gcd.
  - destruct (IH (e + 1)) as [P [a [Ha [Hae [Hred Hrel]]]]].
    exists P, a. unfold dyadicForm. split; [exact Ha|]. split; [lia|]. split.
    + now rewrite (Qred_complete _ _ (binaryQ_double m e)).
    + destruct (Z_le_gt_dec 0 (e + a)) as [H|H].
      * replace (Z.max 0 (- (e + 1 + a))) with 0 in Hrel by lia.
        replace (Z.max 0 (e + 1 + a)) with (e + a + 1) in Hrel by lia.
        replace (Z.max 0 (- (e + a))) with 0 by lia.
        replace (Z.max 0 (e + a)) with (e + a) by lia.
        rewrite Z.pow_add_r in Hrel by lia. change (2 ^ 1) with 2 in Hrel.
        rewrite Hrel. change (Zpos m~0) with (2 * Zpos m). ring.
      * replace (Z.max 0 (- (e + 1 + a))) with (- (e + a) - 1) in Hrel by lia.
        replace (Z.max 0 (e + 1 + a)) with 0 in Hrel by lia.
        replace (Z.max 0 (- (e + a))) with (- (e + a) - 1 + 1) by lia.
        replace (Z.max 0 (e + a)) with 0 by lia.
        rewrite Z.pow_add_r by lia. change (2 ^ 1) with 2.
        rewrite Z.mul_assoc, Hrel. change (Zpos m~0) with (2 * Zpos m). ring.
  - apply dyadicForm_odd. intros a _. apply Z.gcd_1_l.
Qed.

Lemma roundQ_binaryQ neg m e :
  bounded prec emax m e = true ->
  roundQ neg (binaryQ (Zpos m) e) = S754_finite neg m e.
Proof.
  intros Hb. destruct (dyadicForm_exists m e) as [P [a [Ha [Hae [Hred Hrel]]]]].
  unfold roundQ. rewrite Hred. simpl Qnum. simpl Qden.
  now apply roundFrac_dyadic.
Qed.

Lemma exactDecimal_value m e :
  decimalQ (fst (exactDecimal m e)) (snd (exactDecimal m e)) == binaryQ (Zpos m) e
  /\ 0 < fst (exactDecimal m e).
Proof.
  unfold exactDecimal. destruct (Z.leb_spec 0 e) as [He|He]; cbn [fst snd].
  - split.
    + rewrite binaryQ_nonneg_exp by exact He. unfold decimalQ.
      change ((10 # 1) ^ 0)%Q with 1%Q. apply Qmult_1_r.
    + apply Z.mul_pos_pos; [lia|now apply pow2_pos].
  - split.
    + remember (- e) as k eqn:Ek. assert (E : e = - k) by lia. subst e.
      clear Ek. assert (Hk : 0 < k) by lia. clear He.
      unfold decimalQ, binaryQ. rewrite !Qpower_opp.
      change (10 # 1)%Q with (inject_Z 10). change (2 # 1)%Q with (inject_Z 2).
      rewrite <- !Zpower_Qpower by lia. rewrite inject_Z_mult.
      replace (10 ^ k) with (2 ^ k * 5 ^ k)
        by (rewrite <- Z.pow_mul_l; reflexivity).
      rewrite inject_Z_mult.
      assert (H5 : ~ inject_Z (5 ^ k) == 0).
      { intros H. apply (proj1 (inject_Z_injective _ 0)) in H.
        pose proof (Z.pow_pos_nonneg 5 k ltac:(lia) ltac:(lia)). lia. }
      assert (H2 : ~ inject_Z (2 ^ k) == 0).
      { intros H. apply (proj1 (inject_Z_injective _ 0)) in H.
        pose proof (pow2_pos k ltac:(lia)). lia. }
      field. split; assumption.
    + apply Z.mul_pos_pos; [lia|]. apply Z.pow_pos_nonneg; lia.
Qed.

End ExactRounding.

(** ** Digits and numerals *)

Section Digits.

Lemma digitsValue_from (l : jsstring) : forall acc,
  fold_left (fun a c => 10 * a + digitVal c) l acc
  = acc * 10 ^ Z.of_nat (List.length l) + digitsValue l.
Proof.
  unfold digitsValue. induction l as [|c l IH]; intros acc.
  - simpl. lia.
  - cbn [fold_left List.length]. rewrite IH, (IH (10 * 0 + digitVal c)).
    rewrite Nat2Z.inj_succ, Z.pow_succ_r by lia. ring.
Qed.

Lemma digitsValue_app a b :
  digitsValue (a ++ b) = digitsValue a * 10 ^ Z.of_nat (List.length b) + digitsValue b.
Proof. unfold digitsValue at 1. rewrite fold_left_app. apply digitsValue_from. Qed.

Lemma digitsValue_cons c l :
  digitsValue (c :: l) = digitVal c * 10 ^ Z.of_nat (List.length l) + digitsValue l.
Proof. apply (digitsValue_app [c] l). Qed.

Lemma digitChar_digit d :
  0 <= d < 10 -> isDigit (digitChar d) = true /\ digitVal (digitChar d) = d.
Proof.
  intros H.
  assert (C : d = 0 \/ d = 1 \/ d = 2 \/ d = 3 \/ d = 4 \/ d = 5 \/ d = 6 \/
              d = 7 \/ d = 8 \/ d = 9) by lia.
  repeat (destruct C as [->|C]; [split; reflexivity|]). subst d. split; reflexivity.
Qed.

Lemma digitsFuel_spec fuel : forall n acc,
  0 <= n < 10 ^ Z.of_nat fuel -> forallb isDigit acc = true ->
  digitsValue (digitsFuel fuel n acc)
  = n * 10 ^ Z.of_nat (List.length acc) + digitsValue acc
  /\ forallb isDigit (digitsFuel fuel n acc) = true.
Proof.
  induction fuel as [|fuel IH]; intros n acc Hn Hacc.
  - simpl in *. split; [lia|exact Hacc].
  - cbn [digitsFuel].
    pose proof (Z.mod_pos_bound n 10 ltac:(lia)) as Hm.
    destruct (digitChar_digit _ Hm) as [D1 D2].
    assert (Hacc' : forallb isDigit (digitChar (n mod 10) :: acc) = true)
      by (simpl; now rewrite D1).
    destruct (Z.ltb_spec n 10) as [Hlt|Hge].
    + split; [|exact Hacc'].
      rewrite digitsValue_cons, D2, Z.mod_small by lia. reflexivity.
    + assert (Hd : 0 <= n / 10 < 10 ^ Z.of_nat fuel).
      { split; [apply Z.div_pos; lia|].
        apply Z.div_lt_upper_bound; [lia|].
        rewrite Nat2Z.inj_succ, Z.pow_succ_r in Hn by lia. lia. }
      destruct (IH (n / 10) _ Hd Hacc') as [V F]. split; [|exact F].
      rewrite V. cbn [List.length]. rewrite Nat2Z.inj_succ, Z.pow_succ_r by lia.
      rewrite digitsValue_cons, D2.
      rewrite (Z.div_mod n 10) at 3 by lia. ring.
Qed.

Lemma digitsOf_spec n :
  0 < n ->
  digitsValue (digitsOf n) = n /\ forallb isDigit (digitsOf n) = true
  /\ digitsOf n <> [].
Proof.
  intros Hn. unfold digitsOf.
  assert (Hb : 0 <= n < 10 ^ Z.of_nat (S (Z.to_nat (Z.log2 n)))).
  { split; [lia|]. pose proof (Z.log2_nonneg n) as Hl.
    rewrite Nat2Z.inj_succ, Z2Nat.id by exact Hl.
    destruct (Z.log2_spec n Hn) as [_ Hu].
    eapply Z.lt_le_trans; [exact Hu|]. apply Z.pow_le_mono_l. lia. }
  destruct (digitsFuel_spec _ n [] Hb eq_refl) as [V F].
  split; [|split; [exact F|]].
  - rewrite V. change (n * 1 + 0 = n). lia.
  - intros E. rewrite E in V. change (0 = n * 1 + 0) in V. lia.
Qed.

End Digits.

Section Scan.

Lemma digit_neq c x : isDigit c = true -> isDigit x = false -> ceqb x c = false.
Proof.
  intros Hc Hx. destruct (ceqb x c) eqn:E; [|reflexivity].
  apply Ascii.eqb_eq in E. congruence.
Qed.

Lemma zeros_digits j : forallb isDigit (zeros j) = true.
Proof. unfold zeros. induction (Z.to_nat j); simpl; auto. Qed.

Lemma zeros_length j : 0 <= j -> Z.of_nat (List.length (zeros j)) = j.
Proof. intros. unfold zeros. rewrite repeat_length. lia. Qed.

Lemma zeros_value j : digitsValue (zeros j) = 0.
Proof.
  unfold zeros. induction (Z.to_nat j) as [|k IH]; [reflexivity|].
  cbn [repeat]. rewrite digitsValue_cons, IH. reflexivity.
Qed.

Lemma forallb_digits_app a b :
  forallb isDigit a = true -> forallb isDigit b = true ->
  forallb isDigit (a ++ b) = true.
Proof. intros. rewrite forallb_app. now apply andb_true_iff. Qed.

Lemma not_Infinity c s : isDigit c = true -> startsWith (c :: s) (lit "Infinity") = false.
Proof.
  intros Hc.
  change (startsWith (c :: s) (lit "Infinity"))
    with (ceqb "I"%char c && startsWith s (lit "nfinity")).
  now rewrite (digit_neq c "I"%char Hc eq_refl).
Qed.

Lemma scanUnsigned_steps c s :
  isDigit c = true ->
  scanUnsigned (c :: s) =
  let ip := takeWhile isDigit (c :: s) in
  let r1 := dropWhile isDigit (c :: s) in
  match r1 with
  | x :: r2 =>
    if ceqb x "."%char then
      let fp := takeWhile isDigit r2 in
      let r3 := dropWhile isDigit r2 in
      let '(e, r4) := scanExponent r3 in
      Some (LitDecimal (digitsValue (ip ++ fp)) (e - Z.of_nat (List.length fp)), r4)
    else
      let '(e, r4) := scanExponent r1 in
      Some (LitDecimal (digitsValue ip) e, r4)
  | [] => Some (LitDecimal (digitsValue ip) 0, [])
  end.
Proof.
  intros Hc. unfold scanUnsigned. rewrite (not_Infinity c s Hc).
  cbn [takeWhile dropWhile]. rewrite Hc. cbv zeta.
  destruct (dropWhile isDigit s) as [|x r2]; [reflexivity|].
  destruct (ceqb x "."%char); [|reflexivity].
  destruct (takeWhile isDigit r2); reflexivity.
Qed.

Lemma scanExponent_marker ec (neg : bool) k :
  isExponentIndicator ec = true -> 0 < k ->
  scanExponent (ec :: (if neg then lit "-" else lit "+") ++ digitsOf k)
  = ((if neg then - k else k), []).
Proof.
  intros Hec Hk. destruct (digitsOf_spec k Hk) as [V [F N]].
  unfold scanExponent. rewrite Hec.
  destruct neg; cbn [lit list_ascii_of_string app];
    change (ceqb "-"%char "+"%char) with false;
    change (ceqb "-"%char "-"%char) with true;
    change (ceqb "+"%char "+"%char) with true; cbv iota;
    rewrite takeWhile_whole, dropWhile_all by exact F;
    destruct (digitsOf k); try congruence; now rewrite V.
Qed.

End Scan.

Section FormatScan.

Variable ec : ascii.
Hypothesis ec_marker : isExponentIndicator ec = true.
Hypothesis ec_not_digit : isDigit ec = false.
Hypothesis ec_not_point : ceqb ec "."%char = false.

Lemma decimalQ_shift M j : 0 <= j -> decimalQ (M * 10 ^ j) 0 == decimalQ M j.
Proof.
  intros Hj. unfold decimalQ. rewrite inject_Z_mult.
  change (10 # 1)%Q with (inject_Z 10). rewrite Zpower_Qpower by exact Hj.
  change (inject_Z 10 ^ 0)%Q with 1%Q. apply Qmult_1_r.
Qed.

(** The text is all digits. *)
Lemma scan_integer ds j :
  ds <> [] -> forallb isDigit ds = true -> 0 <= j ->
  exists M E, scanUnsigned (ds ++ zeros j) = Some (LitDecimal M E, [])
              /\ decimalQ M E == decimalQ (digitsValue ds) j.
Proof.
  intros Hne Hds Hj. destruct ds as [|d more]; [contradiction|].
  pose proof Hds as Hd. cbn [forallb] in Hd. apply andb_true_iff in Hd.
  destruct Hd as [Hd _].
  assert (Hall : forallb isDigit ((d :: more) ++ zeros j) = true)
    by (apply forallb_digits_app; [exact Hds|apply zeros_digits]).
  exists (digitsValue ((d :: more) ++ zeros j)), 0. split.
  - change ((d :: more) ++ zeros j) with (d :: (more ++ zeros j)) in *.
    rewrite scanUnsigned_steps by exact Hd. cbv zeta.
    rewrite dropWhile_all by exact Hall. now rewrite takeWhile_whole by exact Hall.
  - rewrite digitsValue_app, zeros_value, zeros_length, Z.add_0_r by exact Hj.
    now apply decimalQ_shift.
Qed.

(** Digits, a point, digits, and possibly an exponent. *)
Lemma scan_fraction a b tail e :
  a <> [] -> forallb isDigit a = true -> forallb isDigit b = true ->
  scanExponent tail = (e, []) ->
  match tail with c :: _ => isDigit c = false | [] => True end ->
  scanUnsigned (a ++ lit "." ++ b ++ tail)
  = Some (LitDecimal (digitsValue (a ++ b)) (e - Z.of_nat (List.length b)), []).
Proof.
  intros Hne Ha Hb He Ht. destruct a as [|d a']; [contradiction|].
  pose proof Ha as Hd. cbn [forallb] in Hd. apply andb_true_iff in Hd.
  destruct Hd as [Hd _].
  change ((d :: a') ++ lit "." ++ b ++ tail)
    with (d :: (a' ++ "."%char :: b ++ tail)).
  rewrite scanUnsigned_steps by exact Hd. cbv zeta.
  change (d :: a' ++ "."%char :: b ++ tail)
    with ((d :: a') ++ "."%char :: b ++ tail).
  rewrite dropWhile_stop, takeWhile_stop by (exact Ha || reflexivity).
  change (ceqb "."%char "."%char) with true. cbv iota.
  destruct tail as [|c tail'].
  - rewrite app_nil_r, dropWhile_all, takeWhile_whole by exact Hb.
    now rewrite He.
  - rewrite dropWhile_stop, takeWhile_stop by assumption. now rewrite He.
Qed.

(** One digit and an exponent. *)
Lemma scan_exponent d tail e :
  isDigit d = true -> scanExponent (ec :: tail) = (e, []) ->
  scanUnsigned (d :: ec :: tail) = Some (LitDecimal (digitsValue [d]) e, []).
Proof.
  intros Hd He. rewrite scanUnsigned_steps by exact Hd. cbv zeta.
  cbn [takeWhile dropWhile]. rewrite Hd, ec_not_digit, ec_not_point. now rewrite He.
Qed.

Lemma exponent_text n :
  n - 1 <> 0 ->
  scanExponent (ec :: (if n - 1 <? 0 then lit "-" else lit "+") ++ digitsOf (Z.abs (n - 1)))
  = (n - 1, []).
Proof.
  intros Hn. rewrite scanExponent_marker by (exact ec_marker || lia).
  destruct (Z.ltb_spec (n - 1) 0); f_equal; lia.
Qed.

Lemma scan_format ds n :
  ds <> [] -> forallb isDigit ds = true ->
  exists M E, scanUnsigned (formatDecimalWith ec ds n) = Some (LitDecimal M E, [])
              /\ decimalQ M E == decimalQ (digitsValue ds) (n - Z.of_nat (List.length ds)).
Proof.
  intros Hne Hds. unfold formatDecimalWith.
  set (k := Z.of_nat (List.length ds)).
  destruct ((k <=? n) && (n <=? 21)) eqn:CA.
  { apply andb_true_iff in CA. destruct CA as [C1 C2].
    apply Z.leb_le in C1. apply scan_integer; auto. lia. }
  destruct ((0 <? n) && (n <=? 21)) eqn:CB.
  { apply andb_true_iff in CB. destruct CB as [C1 C2].
    apply Z.ltb_lt in C1. apply Z.leb_le in C2.
    assert (Hk : n < k).
    { destruct (Z.leb_spec k n) as [H|H]; [|exact H].
      apply Z.leb_le in C2. rewrite C2, andb_true_r in CA. discriminate. }
    set (a := firstn (Z.to_nat n) ds). set (b := skipn (Z.to_nat n) ds).
    assert (Hab : a ++ b = ds) by apply firstn_skipn.
    assert (Hall : forallb isDigit a = true /\ forallb isDigit b = true).
    { rewrite <- Hab, forallb_app in Hds. now apply andb_true_iff in Hds. }
    destruct Hall as [Ha Hb].
    assert (Hla : List.length a = Z.to_nat n).
    { subst a. rewrite length_firstn. subst k. lia. }
    assert (Hlb : Z.of_nat (List.length b) = k - n).
    { subst b. rewrite length_skipn. subst k. lia. }
    exists (digitsValue (a ++ b)), (0 - Z.of_nat (List.length b)). split.
    - rewrite <- (app_nil_r b) at 1.
      apply (scan_fraction a b [] 0); auto.
      intros E. rewrite E in Hla. simpl in Hla. lia.
    - rewrite Hab, Hlb. replace (0 - (k - n)) with (n - k) by lia. reflexivity. }
  destruct ((-6 <? n) && (n <=? 0)) eqn:CC.
  { apply andb_true_iff in CC. destruct CC as [C1 C2].
    apply Z.ltb_lt in C1. apply Z.leb_le in C2.
    exists (digitsValue (lit "0" ++ zeros (- n) ++ ds)),
           (0 - Z.of_nat (List.length (zeros (- n) ++ ds))). split.
    - rewrite <- (app_nil_r (zeros (- n) ++ ds)) at 1.
      change (lit "0." ++ (zeros (- n) ++ ds) ++ [])
        with (lit "0" ++ lit "." ++ (zeros (- n) ++ ds) ++ []).
      apply scan_fraction; auto; try discriminate.
      apply forallb_digits_app; [apply zeros_digits|exact Hds].
    - rewrite digitsValue_app, digitsValue_app, zeros_value.
      rewrite length_app, Nat2Z.inj_add, zeros_length by lia. fold k.
      replace (0 - (- n + k)) with (n - k) by lia.
      change (digitsValue (lit "0")) with 0. rewrite !Z.mul_0_l, !Z.add_0_l.
      reflexivity. }
  assert (Hn : n - 1 <> 0).
  { apply andb_false_iff in CB. apply andb_false_iff in CC.
    rewrite Z.ltb_ge, Z.leb_gt in CB. rewrite Z.ltb_ge, Z.leb_gt in CC. lia. }
  destruct ds as [|d more]; [contradiction|].
  pose proof Hds as Hd. cbn [forallb] in Hd. apply andb_true_iff in Hd.
  destruct Hd as [Hd Hmore].
  destruct more as [|x more'].
  - exists (digitsValue [d]), (n - 1). split.
    + apply scan_exponent; [exact Hd|]. now apply exponent_text.
    + subst k. cbn [List.length]. reflexivity.
  - exists (digitsValue ([d] ++ x :: more')),
           (n - 1 - Z.of_nat (List.length (x :: more'))). split.
    + apply (scan_fraction [d] (x :: more')); auto; try discriminate;
        try (cbn [forallb]; now rewrite Hd); try (now apply exponent_text).
    + subst k. cbn [List.length app].
      replace (n - 1 - Z.of_nat (S (List.length more')))
        with (n - Z.of_nat (S (S (List.length more')))) by lia.
      reflexivity.
Qed.

End FormatScan.

(** ** The shortest numeral *)

Section Shortest.

Lemma sameNumber_eq x y : sameNumber x y = true -> x = y.
Proof.
  destruct x as [a|a| |a m e], y as [b|b| |b m' e']; simpl; try discriminate.
  - intros H. apply Bool.eqb_prop in H. now subst.
  - intros H. apply Bool.eqb_prop in H. now subst.
  - reflexivity.
  - intros H. apply andb_true_iff in H. destruct H as [H He].
    apply andb_true_iff in H. destruct H as [Hs Hm].
    apply Bool.eqb_prop in Hs. apply Pos.eqb_eq in Hm. apply Z.eqb_eq in He.
    now subst.
Qed.

Lemma roundsTo_spec x s e :
  roundsTo x s e = true -> 0 < s /\ roundQ false (decimalQ s e) = x.
Proof.
  unfold roundsTo. intros H. apply andb_true_iff in H. destruct H as [Hs Hx].
  apply Z.ltb_lt in Hs. apply sameNumber_eq in Hx. now split.
Qed.

Lemma candidate_spec x v N k s e :
  candidate x v N k = Some (s, e) -> roundsTo x s e = true.
Proof.
  unfold candidate.
  set (t := (v / (10 # 1) ^ (N - k))%Q). set (lo := Qfloor t).
  set (hi := if Qeq_bool (inject_Z lo) t then lo else lo + 1).
  destruct (roundsTo x lo (N - k)) eqn:Elo; destruct (roundsTo x hi (N - k)) eqn:Ehi.
  - destruct (Qcompare (t + t) (inject_Z (lo + hi))).
    + destruct (Z.even lo); intros [= <- <-]; assumption.
    + intros [= <- <-]; assumption.
    + intros [= <- <-]; assumption.
  - intros [= <- <-]; assumption.
  - intros [= <- <-]; assumption.
  - discriminate.
Qed.

Lemma shortest_spec x v N fuel : forall k s e,
  shortest x v N fuel k = Some (s, e) -> roundsTo x s e = true.
Proof.
  induction fuel as [|fuel IH]; intros k s e; simpl; [discriminate|].
  destruct (candidate x v N k) as [[s' e']|] eqn:C.
  - intros [= <- <-]. exact (candidate_spec _ _ _ _ _ _ C).
  - apply IH.
Qed.

Lemma decimalQ_strip s e : s mod 10 = 0 -> decimalQ (s / 10) (e + 1) == decimalQ s e.
Proof.
  intros Hm. unfold decimalQ. rewrite Qpower_plus by discriminate.
  rewrite (Z.div_mod s 10) at 2 by lia. rewrite Hm, Z.add_0_r, inject_Z_mult.
  change ((10 # 1) ^ 1)%Q with (inject_Z 10). ring.
Qed.

Lemma stripZeros_spec fuel : forall s e,
  0 < s ->
  0 < fst (stripZeros fuel s e)
  /\ decimalQ (fst (stripZeros fuel s e)) (snd (stripZeros fuel s e)) == decimalQ s e.
Proof.
  induction fuel as [|fuel IH]; intros s e Hs; cbn [stripZeros].
  - split; [exact Hs|reflexivity].
  - destruct ((s mod 10 =? 0) && (0 <? s)) eqn:C.
    + apply andb_true_iff in C. destruct C as [C _]. apply Z.eqb_eq in C.
      assert (Hd : 0 < s / 10).
      { apply Z.div_str_pos. split; [lia|].
        destruct (Z.le_gt_cases 10 s) as [H|H]; [exact H|].
        rewrite Z.mod_small in C by lia. lia. }
      destruct (IH (s / 10) (e + 1) Hd) as [P V]. split; [exact P|].
      rewrite V. now apply decimalQ_strip.
    + split; [exact Hs|reflexivity].
Qed.

Lemma shortestDecimal_spec m e2 :
  bounded prec emax m e2 = true ->
  0 < fst (shortestDecimal m e2)
  /\ roundQ false (decimalQ (fst (shortestDecimal m e2)) (snd (shortestDecimal m e2)))
     = S754_finite false m e2.
Proof.
  intros Hb. unfold shortestDecimal.
  set (x := S754_finite false m e2).
  set (v := Qred (binaryQ (Zpos m) e2)).
  assert (H : exists s e,
             match shortest x v (decimalExponent v) 17 1 with
             | Some r => r
             | None => exactDecimal m e2
             end = (s, e) /\ 0 < s /\ roundQ false (decimalQ s e) = x).
  { destruct (shortest x v (decimalExponent v) 17 1) as [[s e]|] eqn:S.
    - exists s, e. split; [reflexivity|].
      apply roundsTo_spec. exact (shortest_spec _ _ _ _ _ _ _ S).
    - destruct (exactDecimal_value m e2) as [V P].
      exists (fst (exactDecimal m e2)), (snd (exactDecimal m e2)).
      split; [now destruct (exactDecimal m e2)|]. split; [exact P|].
      rewrite (roundQ_Qeq _ _ _ V). now apply roundQ_binaryQ. }
  destruct H as [s [e [-> [Hs Hr]]]].
  destruct (stripZeros_spec (Z.to_nat (Z.log2 s)) s e Hs) as [P V].
  split; [exact P|]. now rewrite (roundQ_Qeq _ _ _ V).
Qed.

Lemma roundQ_sign neg q m e :
  roundQ false q = S754_finite false m e -> roundQ neg q = S754_finite neg m e.
Proof.
  unfold roundQ. destruct (Qnum (Qred q)) as [|p|p]; try discriminate.
  unfold roundFrac.
  destruct (SFdiv_core_binary prec emax (Zpos p) 0 (Zpos (Qden (Qred q))) 0)
    as [[mz ez] lz].
  unfold binary_round_aux.
  destruct (shr_fexp prec emax mz ez lz) as [mrs' e'].
  destruct (shr_fexp prec emax (round_nearest_even (shr_m mrs') (loc_of_shr_record mrs'))
                     e' loc_Exact) as [mrs'' e''].
  destruct (shr_m mrs'') as [|p'|p']; try discriminate.
  destruct (e'' <=? emax - prec); [|discriminate]. now intros [= <- <-].
Qed.

End Shortest.

(** ** The text of a number *)

Section NumberText.

Lemma numberToString_finite neg m e2 :
  numberToString (S754_finite neg m e2) = signText neg ++ finiteText "e"%char m e2.
Proof. reflexivity. Qed.

Lemma digitsFuel_digits fuel : forall n acc,
  forallb isDigit acc = true -> forallb isDigit (digitsFuel fuel n acc) = true.
Proof.
  induction fuel as [|fuel IH]; intros n acc Hacc; cbn [digitsFuel]; [exact Hacc|].
  assert (H : forallb isDigit (digitChar (n mod 10) :: acc) = true).
  { cbn [forallb]. rewrite Hacc, andb_true_r.
    apply digitChar_digit. apply Z.mod_pos_bound. lia. }
  destruct (n <? 10); [exact H|now apply IH].
Qed.

Lemma digitsOf_digits n : forallb isDigit (digitsOf n) = true.
Proof. apply digitsFuel_digits. reflexivity. Qed.

Lemma digit_numeralChar marker s :
  forallb isDigit s = true -> forallb (numeralChar marker) s = true.
Proof.
  induction s as [|c s IH]; cbn [forallb]; [reflexivity|].
  intros H. apply andb_true_iff in H. destruct H as [Hc Hs].
  unfold numeralChar at 1. rewrite Hc. simpl. now apply IH.
Qed.

Lemma forallb_firstn (f : ascii -> bool) n s :
  forallb f s = true -> forallb f (firstn n s) = true.
Proof.
  revert n. induction s as [|c s IH]; intros [|n]; cbn [firstn forallb]; auto.
  intros H. apply andb_true_iff in H. destruct H as [Hc Hs].
  rewrite Hc. now apply IH.
Qed.

Lemma forallb_skipn (f : ascii -> bool) n s :
  forallb f s = true -> forallb f (skipn n s) = true.
Proof.
  revert n. induction s as [|c s IH]; intros [|n]; cbn [skipn forallb]; auto.
  intros H. apply andb_true_iff in H. destruct H as [Hc Hs]. now apply IH.
Qed.

Lemma format_chars marker ds n :
  forallb isDigit ds = true ->
  forallb (numeralChar marker) (formatDecimalWith marker ds n) = true.
Proof.
  intros Hds. unfold formatDecimalWith.
  assert (M : numeralChar marker marker = true).
  { unfold numeralChar. unfold ceqb at 4. rewrite Ascii.eqb_refl.
    now rewrite !orb_true_r. }
  assert (Hsign : forall b : bool,
             forallb (numeralChar marker) (if b then lit "-" else lit "+") = true).
  { intros []; cbn [lit list_ascii_of_string forallb]; rewrite andb_true_r;
      unfold numeralChar;
      [change (ceqb "-"%char "-"%char) with true
      |change (ceqb "+"%char "+"%char) with true]; now rewrite ?orb_true_r. }
  assert (Hpoint : numeralChar marker "."%char = true).
  { unfold numeralChar. change (ceqb "."%char "."%char) with true.
    now rewrite ?orb_true_r. }
  repeat match goal with
         | |- context [if ?b then _ else _] =>
           lazymatch b with
           | (_ && _)%bool => destruct b
           end
         end.
  - rewrite forallb_app. apply andb_true_iff. split; apply digit_numeralChar;
      [exact Hds|apply zeros_digits].
  - rewrite !forallb_app. cbn [lit list_ascii_of_string forallb]. rewrite Hpoint.
    rewrite !digit_numeralChar by (apply forallb_firstn || apply forallb_skipn; exact Hds).
    reflexivity.
  - change (lit "0.") with ["0"%char; "."%char].
    rewrite !forallb_app. cbn [forallb]. rewrite Hpoint.
    rewrite !digit_numeralChar by (exact Hds || apply zeros_digits). reflexivity.
  - destruct ds as [|d [|x more]]; [reflexivity| |].
    + rewrite !forallb_app. rewrite (digit_numeralChar marker [d] Hds), Hsign.
      rewrite (digit_numeralChar marker (digitsOf _)) by apply digitsOf_digits.
      cbn [forallb]. now rewrite M.
    + cbn [forallb] in Hds. apply andb_true_iff in Hds. destruct Hds as [Hd Hmore].
      rewrite !forallb_app. rewrite Hsign.
      rewrite (digit_numeralChar marker [d]) by (cbn [forallb]; now rewrite Hd).
      rewrite (digit_numeralChar marker (x :: more)) by exact Hmore.
      rewrite (digit_numeralChar marker (digitsOf _)) by apply digitsOf_digits.
      cbn [lit list_ascii_of_string forallb]. now rewrite M, Hpoint.
Qed.

Lemma format_head marker ds n :
  ds <> [] -> forallb isDigit ds = true ->
  exists c rest, formatDecimalWith marker ds n = c :: rest /\ isDigit c = true.
Proof.
  intros Hne Hds. destruct ds as [|d more]; [contradiction|].
  pose proof Hds as Hd. cbn [forallb] in Hd. apply andb_true_iff in Hd.
  destruct Hd as [Hd _].
  unfold formatDecimalWith.
  destruct ((Z.of_nat (List.length (d :: more)) <=? n) && (n <=? 21)).
  { exists d, (more ++ zeros (n - Z.of_nat (List.length (d :: more)))). now split. }
  destruct ((0 <? n) && (n <=? 21)) eqn:CB.
  { apply andb_true_iff in CB. destruct CB as [C1 _]. apply Z.ltb_lt in C1.
    destruct (Z.to_nat n) as [|j] eqn:En; [lia|].
    exists d, (firstn j more ++ lit "." ++ skipn (S j) (d :: more)). now split. }
  destruct ((-6 <? n) && (n <=? 0)).
  { exists "0"%char, ("."%char :: zeros (- n) ++ d :: more). now split. }
  destruct more as [|x more']; eexists d, _; split; try exact Hd; reflexivity.
Qed.

End NumberText.

Section Marker.

Variable ec : ascii.
Hypothesis ec_marker : isExponentIndicator ec = true.
Hypothesis ec_not_digit : isDigit ec = false.
Hypothesis ec_not_point : ceqb ec "."%char = false.

Lemma scanUnsigned_finite neg m e2 :
  bounded prec emax m e2 = true ->
  exists l, scanUnsigned (finiteText ec m e2) = Some (l, [])
            /\ literalValue neg l = S754_finite neg m e2.
Proof.
  intros Hb. destruct (shortestDecimal_spec m e2 Hb) as [Hs Hr].
  unfold finiteText. destruct (shortestDecimal m e2) as [s e]. cbn [fst snd] in *.
  destruct (digitsOf_spec s Hs) as [V [F N]].
  destruct (scan_format ec ec_marker ec_not_digit ec_not_point (digitsOf s)
                        (Z.of_nat (List.length (digitsOf s)) + e) N F)
    as [M [E [Hscan Hval]]].
  exists (LitDecimal M E). split; [exact Hscan|].
  cbn [literalValue]. rewrite (roundQ_Qeq _ _ _ Hval), V.
  replace (Z.of_nat (List.length (digitsOf s)) + e - Z.of_nat (List.length (digitsOf s)))
    with e by lia.
  now apply roundQ_sign.
Qed.

Lemma finiteText_head m e2 :
  bounded prec emax m e2 = true ->
  exists c rest, finiteText ec m e2 = c :: rest /\ isDigit c = true.
Proof.
  intros Hb. destruct (shortestDecimal_spec m e2 Hb) as [Hs _].
  unfold finiteText. destruct (shortestDecimal m e2) as [s e]. cbn [fst] in Hs.
  destruct (digitsOf_spec s Hs) as [_ [F N]]. now apply format_head.
Qed.

Lemma finiteText_chars m e2 : forallb (numeralChar ec) (finiteText ec m e2) = true.
Proof.
  unfold finiteText. destruct (shortestDecimal m e2) as [s e].
  apply format_chars, digitsOf_digits.
Qed.

Lemma digit_not_sign c :
  isDigit c = true -> ceqb c "+"%char = false /\ ceqb c "-"%char = false.
Proof.
  intros H. split.
  - destruct (ceqb c "+"%char) eqn:E; [|reflexivity].
    apply Ascii.eqb_eq in E. subst c. discriminate.
  - destruct (ceqb c "-"%char) eqn:E; [|reflexivity].
    apply Ascii.eqb_eq in E. subst c. discriminate.
Qed.

Lemma scanDecimal_finite neg m e2 :
  bounded prec emax m e2 = true ->
  scanDecimal (signText neg ++ finiteText ec m e2) = Some (S754_finite neg m e2, []).
Proof.
  intros Hb. destruct (scanUnsigned_finite neg m e2 Hb) as [l [Hscan Hval]].
  destruct neg.
  - change (scanDecimal (signText true ++ finiteText ec m e2))
      with (match scanUnsigned (finiteText ec m e2) with
            | Some (l, rest) => Some (literalValue true l, rest)
            | None => None
            end).
    now rewrite Hscan, Hval.
  - change (signText false ++ finiteText ec m e2) with (finiteText ec m e2).
    destruct (finiteText_head m e2 Hb) as [c [rest [E Hc]]].
    rewrite E in *. destruct (digit_not_sign c Hc) as [H1 H2].
    unfold scanDecimal. rewrite H1, H2, Hscan, Hval. reflexivity.
Qed.

End Marker.

Section RoundTrip.

Lemma numeralChar_facts c :
  numeralChar "e"%char c = true ->
  isWhiteSpace c = false
  /\ ceqb (upperChar c) "S"%char = false
  /\ ceqb "I"%char (upperChar c) = false
  /\ ceqb "V"%char (upperChar c) = false
  /\ ceqb (lowerChar c) "x"%char = false
  /\ ceqb (lowerChar c) "o"%char = false
  /\ ceqb (lowerChar c) "b"%char = false
  /\ numeralChar "E"%char (upperChar c) = true.
Proof.
  destruct c as [[] [] [] [] [] [] [] []]; vm_compute; intros H;
    try discriminate; repeat split.
Qed.

Lemma upper_digits s : forallb isDigit s = true -> toUpperCase s = s.
Proof.
  induction s as [|c s IH]; cbn [forallb toUpperCase map]; [reflexivity|].
  intros H. apply andb_true_iff in H. destruct H as [Hc Hs].
  fold (toUpperCase s). rewrite (IH Hs). f_equal.
  revert Hc. destruct c as [[] [] [] [] [] [] [] []]; vm_compute; congruence.
Qed.

Lemma upper_format ds n :
  forallb isDigit ds = true ->
  toUpperCase (formatDecimalWith "e"%char ds n) = formatDecimalWith "E"%char ds n.
Proof.
  intros Hds. unfold formatDecimalWith, toUpperCase.
  assert (U : forall s, forallb isDigit s = true -> map upperChar s = s)
    by exact upper_digits.
  assert (Hsign : forall b : bool,
             map upperChar (if b then lit "-" else lit "+")
             = if b then lit "-" else lit "+") by (intros []; reflexivity).
  repeat match goal with
         | |- context [if ?b then _ else _] =>
           lazymatch b with
           | (_ && _)%bool => destruct b
           end
         end.
  - rewrite map_app, (U ds), (U (zeros _)) by (exact Hds || apply zeros_digits).
    reflexivity.
  - rewrite !map_app, (U (firstn _ ds)), (U (skipn _ ds))
      by (apply forallb_firstn || apply forallb_skipn; exact Hds).
    reflexivity.
  - rewrite !map_app, (U ds), (U (zeros _)) by (exact Hds || apply zeros_digits).
    reflexivity.
  - destruct ds as [|d [|x more]]; [reflexivity| |].
    + rewrite !map_app, Hsign, (U [d]), (U (digitsOf _))
        by (exact Hds || apply digitsOf_digits). reflexivity.
    + cbn [forallb] in Hds. apply andb_true_iff in Hds. destruct Hds as [Hd Hmore].
      rewrite !map_app, Hsign, (U [d]), (U (x :: more)), (U (digitsOf _))
        by (exact Hmore || apply digitsOf_digits || (cbn [forallb]; now rewrite Hd)).
      reflexivity.
Qed.

Lemma upper_finiteText m e2 :
  toUpperCase (finiteText "e"%char m e2) = finiteText "E"%char m e2.
Proof.
  unfold finiteText. destruct (shortestDecimal m e2) as [s e].
  apply upper_format, digitsOf_digits.
Qed.

Lemma trim_no_space s :
  forallb (fun c => negb (isWhiteSpace c)) s = true -> trim s = s.
Proof.
  intros H. rewrite trim_cases.
  destruct s as [|c s]; [reflexivity|].
  cbn [forallb] in H. apply andb_true_iff in H. destruct H as [Hc Hs].
  apply negb_true_iff in Hc. cbn [dropWhile]. rewrite Hc. f_equal.
  assert (D : forall l, forallb (fun c => negb (isWhiteSpace c)) l = true ->
                        dropWhile isWhiteSpace l = l).
  { intros [|x l]; [reflexivity|]. cbn [forallb dropWhile]. intros Hx.
    apply andb_true_iff in Hx. destruct Hx as [Hx _].
    apply negb_true_iff in Hx. now rewrite Hx. }
  rewrite D, rev_involutive; [reflexivity|].
  rewrite forallb_forall in *. intros x Hx. apply Hs. now apply in_rev.
Qed.

End RoundTrip.

(** ** Numbers read back *)

Section NumberRoundTrip.

Lemma finite_chars neg m e2 :
  forallb (numeralChar "e"%char) (signText neg ++ finiteText "e"%char m e2) = true.
Proof.
  rewrite forallb_app, finiteText_chars. now destruct neg.
Qed.

Lemma numeral_no_space s :
  forallb (numeralChar "e"%char) s = true ->
  forallb (fun c => negb (isWhiteSpace c)) s = true.
Proof.
  induction s as [|c s IH]; cbn [forallb]; [reflexivity|].
  intros H. apply andb_true_iff in H. destruct H as [Hc Hs].
  destruct (numeralChar_facts c Hc) as [-> _]. now apply IH.
Qed.

Lemma scanNonDecimal_numeral s :
  forallb (numeralChar "e"%char) s = true -> scanNonDecimal s = None.
Proof.
  destruct s as [|z [|p [|b body]]]; try reflexivity.
  cbn [forallb]. intros H. apply andb_true_iff in H. destruct H as [_ H].
  apply andb_true_iff in H. destruct H as [Hp _].
  destruct (numeralChar_facts p Hp) as [_ [_ [_ [_ [X [O [B _]]]]]]].
  unfold scanNonDecimal. rewrite X, O, B. now destruct (ceqb z "0"%char).
Qed.

Lemma matchStage_numeral s :
  forallb (numeralChar "e"%char) s = true -> matchStage s = None.
Proof.
  induction s as [|c s IH]; [reflexivity|].
  cbn [forallb]. intros H. apply andb_true_iff in H. destruct H as [Hc Hs].
  destruct (numeralChar_facts c Hc) as [_ [S _]].
  cbn [matchStage]. rewrite (IH Hs).
  assert (A : matchStageAt (c :: s) = None).
  { unfold matchStageAt.
    change (seqb (toUpperCase (firstn 5 (c :: s))) (lit "STAGE"))
      with (ceqb (upperChar c) "S"%char
            && seqb (toUpperCase (firstn 4 s)) (lit "TAGE")).
    now rewrite S. }
  now rewrite A.
Qed.

Lemma lookup_numeral s :
  forallb (numeralChar "e"%char) s = true ->
  lookup (toUpperCase s) ROMAN_MAP = None.
Proof.
  destruct s as [|c s]; [reflexivity|].
  cbn [forallb]. intros H. apply andb_true_iff in H. destruct H as [Hc _].
  destruct (numeralChar_facts c Hc) as [_ [_ [I [V _]]]].
  unfold lookup, ROMAN_MAP. cbn [toUpperCase map lit list_ascii_of_string seqb].
  now rewrite I, V.
Qed.

Lemma stringToNumber_finite neg m e2 :
  bounded prec emax m e2 = true ->
  stringToNumber (numberToString (S754_finite neg m e2)) = S754_finite neg m e2.
Proof.
  intros Hb. rewrite numberToString_finite.
  pose proof (finite_chars neg m e2) as Hch.
  pose proof (scanDecimal_finite "e"%char eq_refl eq_refl eq_refl neg m e2 Hb) as Hscan.
  pose proof (trim_no_space _ (numeral_no_space _ Hch)) as Htrim.
  pose proof (scanNonDecimal_numeral _ Hch) as Hnd.
  destruct (signText neg ++ finiteText "e"%char m e2) as [|c t] eqn:E.
  - discriminate.
  - rewrite (stringToNumber_trimmed c t Htrim).
    unfold strNumericLiteral, strDecimalLiteral. now rewrite Hnd, Hscan.
Qed.

Lemma parseFloat_upper_finite neg m e2 :
  bounded prec emax m e2 = true ->
  parseFloat (toUpperCase (trim (numberToString (S754_finite neg m e2))))
  = S754_finite neg m e2.
Proof.
  intros Hb. rewrite numberToString_finite.
  rewrite (trim_no_space _ (numeral_no_space _ (finite_chars neg m e2))).
  unfold toUpperCase. rewrite map_app. fold (toUpperCase (finiteText "e"%char m e2)).
  rewrite upper_finiteText.
  replace (map upperChar (signText neg)) with (signText neg) by now destruct neg.
  pose proof (scanDecimal_finite "E"%char eq_refl eq_refl eq_refl neg m e2 Hb) as Hscan.
  unfold parseFloat.
  assert (T : trimStart (signText neg ++ finiteText "E"%char m e2)
              = signText neg ++ finiteText "E"%char m e2).
  { destruct neg; [reflexivity|].
    destruct (finiteText_head "E"%char m e2 Hb) as [c [rest [E Hc]]].
    change (signText false ++ finiteText "E"%char m e2) with (finiteText "E"%char m e2).
    rewrite E. unfold trimStart. cbn [dropWhile].
    replace (isWhiteSpace c) with false; [reflexivity|].
    revert Hc. destruct c as [[] [] [] [] [] [] [] []]; vm_compute; congruence. }
  now rewrite T, Hscan.
Qed.

Lemma eqb_refl x : isNaN x = false -> (x =? x)%num = true.
Proof.
  intros H. generalize (compare_key x x H H). unfold Num.eqb, SFeqb.
  destruct (SFcompare x x) as [[| |]|]; auto; intros K;
    try elim (key_lt_irrefl _ K); contradiction.
Qed.

(** C10: a finite number goes through the encoder unchanged.  Its text
    matches neither the stage pattern nor the table, and [parseFloat]
    reads in it, put in upper case, the number itself; -0, whose text is
    "0", comes back as 0, which [===] does not tell from -0. *)
Theorem parseStageOrdinal_number (x : number) :
  valid x = true -> isFinite x = true ->
  matchStage (toString (VNum x)) = None
  /\ lookup (toUpperCase (trim (toString (VNum x)))) ROMAN_MAP = None
  /\ parseFloat (toUpperCase (trim (toString (VNum x)))) = readBack x
  /\ parseStageOrdinal (VNum x) = readBack x
  /\ (parseStageOrdinal (VNum x) =? x)%num = true
  /\ (x <> S754_zero true -> parseStageOrdinal (VNum x) = x)
  /\ parseStageOrdinal (VNum (numberLit "2")) = numberLit "2"
  /\ parseStageOrdinal (VNum (numberLit "-3.5")) = numberLit "-3.5".
Proof.
  intros Hv Hf. destruct x as [s|s| |neg m e2]; try discriminate.
  - destruct s; repeat split; congruence.
  - cbn [valid valid_binary] in Hv.
    assert (Hch : forallb (numeralChar "e"%char) (toString (VNum (S754_finite neg m e2)))
                  = true).
    { cbn [toString]. rewrite numberToString_finite. apply finite_chars. }
    assert (M : matchStage (toString (VNum (S754_finite neg m e2))) = None)
      by now apply matchStage_numeral.
    assert (L : lookup (toUpperCase (trim (toString (VNum (S754_finite neg m e2)))))
                       ROMAN_MAP = None).
    { rewrite (trim_no_space _ (numeral_no_space _ Hch)). now apply lookup_numeral. }
    assert (P : parseFloat (toUpperCase (trim (toString (VNum (S754_finite neg m e2)))))
                = S754_finite neg m e2) by now apply parseFloat_upper_finite.
    assert (R : parseStageOrdinal (VNum (S754_finite neg m e2)) = S754_finite neg m e2).
    { rewrite parseStageOrdinal_present by reflexivity. rewrite M. cbv zeta.
      now rewrite L, P. }
    split; [exact M|]. split; [exact L|]. split; [exact P|]. split; [exact R|].
    split; [rewrite R; now apply eqb_refl|]. split; [intros _; exact R|].
    split; reflexivity.
Qed.

End NumberRoundTrip.

Lemma parseStageOrdinal_number_witness :
  parseStageOrdinal (VNum (numberLit "-3.5")) = numberLit "-3.5".
Proof.
  destruct (parseStageOrdinal_number (numberLit "-3.5") eq_refl eq_refl)
    as [_ [_ [_ [_ [_ [H _]]]]]].
  apply H. discriminate.
Defined.


(** ** Lines and fields *)

Section Lines.

Lemma split_single sep l : without sep l = true -> split sep l = [l].
Proof.
  induction l as [|c l IH]; cbn [without forallb split]; [reflexivity|].
  intros H. apply andb_true_iff in H. destruct H as [Hc Hl].
  apply negb_true_iff in Hc. rewrite Hc. fold (without sep l) in Hl.
  now rewrite (IH Hl).
Qed.

Lemma split_app sep l rest :
  without sep l = true -> split sep (l ++ sep :: rest) = l :: split sep rest.
Proof.
  induction l as [|c l IH]; cbn [without forallb split app].
  - intros _. unfold ceqb. now rewrite Ascii.eqb_refl.
  - intros H. apply andb_true_iff in H. destruct H as [Hc Hl].
    apply negb_true_iff in Hc. rewrite Hc. fold (without sep l) in Hl.
    now rewrite (IH Hl).
Qed.

Lemma split_join sep lines :
  lines <> [] -> Forall (fun l => without sep l = true) lines ->
  split sep (join [sep] lines) = lines.
Proof.
  induction lines as [|l lines IH]; [contradiction|].
  intros _ H. inversion H as [|? ? Hl Hrest]; subst.
  destruct lines as [|l2 lines].
  - now apply split_single.
  - change (join [sep] (l :: l2 :: lines)) with (l ++ sep :: join [sep] (l2 :: lines)).
    rewrite split_app by exact Hl. f_equal. apply IH; [discriminate|exact Hrest].
Qed.

Lemma join_last sep lines lastLine :
  exists pre, join sep (lines ++ [lastLine]) = pre ++ lastLine.
Proof.
  induction lines as [|l lines [pre E]].
  - exists []. reflexivity.
  - exists (l ++ sep ++ pre). cbn [app].
    destruct (lines ++ [lastLine]) as [|x r] eqn:L.
    + destruct lines; discriminate.
    + change (join sep (l :: x :: r)) with (l ++ sep ++ join sep (x :: r)).
      now rewrite E, !app_assoc.
Qed.

Lemma endsVisible_app pre s : endsVisible s -> endsVisible (pre ++ s).
Proof.
  unfold endsVisible. rewrite rev_app_distr.
  destruct (rev s); [contradiction|]. auto.
Qed.

Lemma startsVisible_app s post : startsVisible s -> startsVisible (s ++ post).
Proof. destruct s; [contradiction|]. auto. Qed.

Lemma trim_visible s : startsVisible s -> endsVisible s -> trim s = s.
Proof.
  intros Hs He. rewrite trim_cases.
  destruct s as [|c a]; [contradiction|].
  cbn [startsVisible] in Hs. cbn [dropWhile]. rewrite Hs. f_equal.
  unfold endsVisible in He. cbn [rev] in He.
  destruct (rev a) as [|x r] eqn:E.
  - apply (f_equal (@rev ascii)) in E. rewrite rev_involutive in E. now subst.
  - cbn [app startsVisible] in He. cbn [dropWhile]. rewrite He.
    now rewrite <- E, rev_involutive.
Qed.

Lemma trimmed_visible s :
  trim s = s -> s <> [] -> startsVisible s /\ endsVisible s.
Proof.
  intros Ht Hne. split.
  - destruct s as [|c a]; [contradiction|]. exact (trim_head _ _ _ Ht).
  - unfold endsVisible. rewrite <- Ht. unfold trim, trimEnd. rewrite rev_involutive.
    pose proof (dropWhile_head isWhiteSpace (rev (trimStart s))) as H.
    destruct (dropWhile isWhiteSpace (rev (trimStart s))) as [|x r] eqn:E; [|exact H].
    exfalso. apply Hne. rewrite <- Ht. unfold trim, trimEnd. now rewrite E.
Qed.

End Lines.

Section Fields.

Lemma plain_run p : forall rest result current,
  without comma p = true -> without dquote p = true ->
  parseCSVLineFrom (p ++ rest) result current false
  = parseCSVLineFrom rest result (current ++ p) false.
Proof.
  induction p as [|c p IH]; intros rest result current Hc Hq.
  - now rewrite app_nil_r.
  - cbn [without forallb] in Hc, Hq.
    apply andb_true_iff in Hc. destruct Hc as [Hc Hc'].
    apply andb_true_iff in Hq. destruct Hq as [Hq Hq'].
    apply negb_true_iff in Hc. apply negb_true_iff in Hq.
    cbn [app parseCSVLineFrom]. rewrite Hq, Hc. cbn [andb].
    rewrite (IH rest result (current ++ [c]) Hc' Hq'). now rewrite <- app_assoc.
Qed.

Lemma quoted_run s : forall rest result current,
  without dquote s = true ->
  parseCSVLineFrom (s ++ rest) result current true
  = parseCSVLineFrom rest result (current ++ s) true.
Proof.
  induction s as [|c s IH]; intros rest result current Hq.
  - now rewrite app_nil_r.
  - cbn [without forallb] in Hq.
    apply andb_true_iff in Hq. destruct Hq as [Hq Hq'].
    apply negb_true_iff in Hq.
    cbn [app parseCSVLineFrom]. rewrite Hq. rewrite andb_false_r.
    rewrite (IH rest result (current ++ [c]) Hq'). now rewrite <- app_assoc.
Qed.

Lemma field_run content text rest result :
  fieldOf content text ->
  parseCSVLineFrom (text ++ rest) result [] false
  = parseCSVLineFrom rest result content false.
Proof.
  intros [Hc Hq|Hq].
  - now rewrite plain_run.
  - rewrite <- !app_assoc. cbn [app parseCSVLineFrom].
    unfold ceqb at 1. rewrite Ascii.eqb_refl. cbn [negb].
    rewrite quoted_run by exact Hq. cbn [app parseCSVLineFrom].
    unfold ceqb at 1. rewrite Ascii.eqb_refl. reflexivity.
Qed.

Lemma parseCSVLineFrom_join contents texts : forall result,
  Forall2 fieldOf contents texts -> texts <> [] ->
  parseCSVLineFrom (join [comma] texts) result [] false
  = result ++ map trim contents.
Proof.
  intros result H. revert result.
  induction H as [|c t cs ts Hf Hrest IH]; intros result Hne; [contradiction|].
  destruct ts as [|t2 ts].
  - inversion Hrest; subst. cbn [join map].
    rewrite <- (app_nil_r t). rewrite (field_run c t [] result Hf). reflexivity.
  - change (join [comma] (t :: t2 :: ts)) with (t ++ comma :: join [comma] (t2 :: ts)).
    rewrite (field_run c t _ result Hf). cbn [parseCSVLineFrom].
    change (ceqb comma dquote) with false. change (ceqb comma comma) with true.
    cbn [andb negb]. rewrite IH by discriminate.
    cbn [map]. now rewrite <- app_assoc.
Qed.

Lemma parseCSVLine_join contents texts :
  Forall2 fieldOf contents texts -> texts <> [] ->
  parseCSVLine (join [comma] texts) = map trim contents.
Proof. intros H Hne. unfold parseCSVLine. now rewrite (parseCSVLineFrom_join contents). Qed.

End Fields.

(** ** Cells *)

Section Cells.

Lemma ceqb_sym a b : ceqb a b = ceqb b a.
Proof.
  unfold ceqb. destruct (Ascii.eqb a b) eqn:E.
  - apply Ascii.eqb_eq in E. subst. now rewrite Ascii.eqb_refl.
  - destruct (Ascii.eqb b a) eqn:E'; [|reflexivity].
    apply Ascii.eqb_eq in E'. subst. now rewrite Ascii.eqb_refl in E.
Qed.

Lemma includes_single s c : includes s [c] = false -> without c s = true.
Proof.
  induction s as [|x s IH]; [reflexivity|].
  cbn [includes startsWith without forallb]. intros H.
  apply orb_false_iff in H. destruct H as [H1 H2].
  replace (startsWith s []) with true in H1 by now destruct s.
  rewrite andb_true_r in H1. rewrite ceqb_sym, H1. cbn [negb andb].
  now apply IH.
Qed.

Lemma numeralChar_plain c :
  numeralChar "e"%char c = true ->
  negb (ceqb c comma) = true /\ negb (ceqb c dquote) = true
  /\ negb (ceqb c newline) = true /\ ceqb c "N"%char = false.
Proof.
  destruct c as [[] [] [] [] [] [] [] []]; vm_compute; intros H;
    try discriminate; repeat split.
Qed.

Lemma numeral_without s :
  forallb (numeralChar "e"%char) s = true ->
  without comma s = true /\ without dquote s = true /\ without newline s = true.
Proof.
  induction s as [|c s IH]; [repeat split|].
  cbn [forallb without]. intros H. apply andb_true_iff in H. destruct H as [Hc Hs].
  destruct (numeralChar_plain c Hc) as [-> [-> [-> _]]].
  destruct (IH Hs) as [A [B C]]. repeat split; assumption.
Qed.

Lemma numberToString_chars neg m e2 :
  forallb (numeralChar "e"%char) (numberToString (S754_finite neg m e2)) = true.
Proof. rewrite numberToString_finite. apply finite_chars. Qed.

Lemma number_without x :
  isNaN x = false ->
  without comma (numberToString x) = true
  /\ without dquote (numberToString x) = true
  /\ without newline (numberToString x) = true
  /\ trim (numberToString x) = numberToString x
  /\ startsVisible (numberToString x) /\ endsVisible (numberToString x).
Proof.
  destruct x as [s|s| |neg m e2]; try discriminate; intros _.
  - repeat split.
  - destruct s; repeat split.
  - pose proof (numberToString_chars neg m e2) as Hch.
    destruct (numeral_without _ Hch) as [A [B C]].
    pose proof (trim_no_space _ (numeral_no_space _ Hch)) as T.
    split; [exact A|]. split; [exact B|]. split; [exact C|]. split; [exact T|].
    apply trimmed_visible; [exact T|].
    rewrite numberToString_finite. destruct neg; [discriminate|].
    unfold finiteText. destruct (shortestDecimal m e2) as [s e].
    destruct (format_head "e"%char (digitsOf s) (Z.of_nat (List.length (digitsOf s)) + e))
      as [c [rest [E _]]].
    + unfold digitsOf. cbn [digitsFuel]. destruct (s <? 10); [discriminate|].
      generalize (digitChar (s mod 10)). intros c0.
      assert (G : forall f n (acc : jsstring), acc <> [] -> digitsFuel f n acc <> []).
      { induction f as [|f IHf]; intros n acc Hacc; [exact Hacc|].
        cbn [digitsFuel]. destruct (n <? 10); [discriminate|]. apply IHf. discriminate. }
      apply G. discriminate.
    + apply digitsOf_digits.
    + change (signText false ++ _) with
        (formatDecimalWith "e"%char (digitsOf s) (Z.of_nat (List.length (digitsOf s)) + e)).
      rewrite E. discriminate.
Qed.

Lemma render_field v :
  cleanValue v -> fieldOf (fieldText (Some v)) (renderField (Some v)).
Proof.
  destruct v as [| |x|s]; cbn [cleanValue fieldText renderField].
  - intros _. now apply PlainField.
  - intros [].
  - intros [_ Hn]. destruct (number_without x Hn) as [A [B _]]. now apply PlainField.
  - intros [_ [Hq _]]. destruct (includes s [comma]) eqn:I.
    + now apply QuotedField.
    + apply PlainField; [now apply includes_single|exact Hq].
Qed.

Lemma text_trimmed v : cleanValue v -> trim (fieldText (Some v)) = fieldText (Some v).
Proof.
  destruct v as [| |x|s]; cbn [cleanValue fieldText].
  - reflexivity.
  - intros [].
  - intros [_ Hn]. now destruct (number_without x Hn) as [_ [_ [_ [T _]]]].
  - now intros [T _].
Qed.

Lemma cellOfText_number x :
  valid x = true -> isNaN x = false ->
  cellOfText (numberToString x) = VNum (readBack x).
Proof.
  intros Hv Hn. destruct x as [s|s| |neg m e2]; try discriminate.
  - reflexivity.
  - destruct s; reflexivity.
  - cbn [valid valid_binary] in Hv. cbn [readBack].
    pose proof (numberToString_chars neg m e2) as Hch.
    pose proof (scanDecimal_finite "e"%char eq_refl eq_refl eq_refl neg m e2 Hv) as Hscan.
    rewrite <- numberToString_finite in Hscan.
    pose proof (scanNonDecimal_numeral _ Hch) as Hnd.
    unfold cellOfText, strNumericLiteral, strDecimalLiteral. rewrite Hnd, Hscan.
    destruct (numberToString (S754_finite neg m e2)) as [|c t] eqn:E.
    + discriminate.
    + cbn [forallb] in Hch. apply andb_true_iff in Hch. destruct Hch as [Hc _].
      destruct (numeralChar_plain c Hc) as [_ [_ [_ N]]].
      cbn [lit list_ascii_of_string seqb]. now rewrite N.
Qed.

Lemma cell_back v : cleanValue v -> cellOfText (fieldText (Some v)) = cellBack v.
Proof.
  destruct v as [| |x|s]; cbn [cleanValue fieldText cellBack].
  - reflexivity.
  - intros [].
  - intros [Hv Hn]. now apply cellOfText_number.
  - intros [_ [_ [_ [->|[H1 [H2 H3]]]]]]; [reflexivity|].
    destruct s as [|c s]; [reflexivity|].
    assert (N1 : seqb (c :: s) (lit "NA") = false).
    { destruct (seqb (c :: s) (lit "NA")) eqn:E; [|reflexivity].
      apply seqb_eq in E. contradiction. }
    assert (N2 : seqb (c :: s) (lit "NaN") = false).
    { destruct (seqb (c :: s) (lit "NaN")) eqn:E; [|reflexivity].
      apply seqb_eq in E. contradiction. }
    unfold cellOfText. now rewrite N1, N2, H3.
Qed.

Lemma without_app c a b :
  without c a = true -> without c b = true -> without c (a ++ b) = true.
Proof. intros. unfold without. rewrite forallb_app. now apply andb_true_iff. Qed.

Lemma without_join c sep parts :
  without c sep = true -> Forall (fun p => without c p = true) parts ->
  without c (join sep parts) = true.
Proof.
  intros Hsep H. induction H as [|p parts Hp Hrest IH]; [reflexivity|].
  destruct parts as [|p2 parts]; [exact Hp|].
  change (join sep (p :: p2 :: parts)) with (p ++ sep ++ join sep (p2 :: parts)).
  repeat apply without_app; assumption.
Qed.

Lemma render_without_newline v :
  cleanValue v -> without newline (renderField (Some v)) = true.
Proof.
  destruct v as [| |x|s]; cbn [cleanValue renderField].
  - reflexivity.
  - intros [].
  - intros [_ Hn]. now destruct (number_without x Hn) as [_ [_ [C _]]].
  - intros [_ [_ [Hs _]]]. destruct (includes s [comma]); [|exact Hs].
    repeat apply without_app; auto.
Qed.

Lemma render_visible v :
  cleanValue v -> renderField (Some v) = [] \/ endsVisible (renderField (Some v)).
Proof.
  destruct v as [| |x|s]; cbn [cleanValue renderField].
  - now left.
  - intros [].
  - intros [_ Hn]. right. now destruct (number_without x Hn) as [_ [_ [_ [_ [_ E]]]]].
  - intros [T _]. destruct (includes s [comma]).
    + right. rewrite app_assoc. apply endsVisible_app. reflexivity.
    + destruct s as [|c s]; [now left|]. right. apply trimmed_visible; [exact T|discriminate].
Qed.

Lemma join_comma_visible cells :
  Forall (fun c => c = [] \/ endsVisible c) cells ->
  join [comma] cells <> [] -> endsVisible (join [comma] cells).
Proof.
  intros H. induction H as [|c cells Hc Hrest IH]; [contradiction|].
  destruct cells as [|c2 cells].
  - cbn [join]. intros Hne. destruct Hc as [->|Hc]; [contradiction|exact Hc].
  - intros _.
    change (join [comma] (c :: c2 :: cells))
      with (c ++ [comma] ++ join [comma] (c2 :: cells)).
    destruct (join [comma] (c2 :: cells)) as [|x r] eqn:E.
    + rewrite app_nil_r. apply endsVisible_app. reflexivity.
    + rewrite app_assoc. apply endsVisible_app. apply IH. discriminate.
Qed.

End Cells.

(** ** Export and parsing *)

Section RoundTripCSV.

Variable columns : list jsstring.
Hypothesis columns_header : join [comma] columns <> [].
Hypothesis columns_NoDup : NoDup columns.
Hypothesis columns_clean : Forall cleanName columns.

Lemma columns_nonempty : columns <> [].
Proof. intros E. apply columns_header. now rewrite E. Qed.

Lemma columns_plain : ~ In protoName columns.
Proof.
  intros H. rewrite Forall_forall in columns_clean.
  now destruct (columns_clean _ H) as [_ [_ [_ [_ N]]]].
Qed.

Lemma Forall2_map_in {A B C} (R : B -> C -> Prop) (f : A -> B) (g : A -> C) l :
  (forall a, In a l -> R (f a) (g a)) -> Forall2 R (map f l) (map g l).
Proof.
  induction l as [|a l IH]; intros H; cbn [map]; constructor.
  - apply H. now left.
  - apply IH. intros x Hx. apply H. now right.
Qed.

Lemma NoDup_lastIndexOf h :
  In h columns -> exists i, lastIndexOf columns h i.
Proof.
  intros Hin. destruct (In_nth_error _ _ Hin) as [i Hi]. exists i.
  split; [exact Hi|]. intros j Hj Hn.
  assert (Hlt : (i < List.length columns)%nat) by (apply nth_error_Some; congruence).
  pose proof (proj1 (NoDup_nth_error columns) columns_NoDup i j Hlt) as U.
  rewrite Hi, Hn in U. specialize (U eq_refl). lia.
Qed.

Lemma header_line :
  parseCSVLine (join [comma] columns) = columns
  /\ without newline (join [comma] columns) = true
  /\ startsVisible (join [comma] columns).
Proof.
  split; [|split].
  - rewrite (parseCSVLine_join columns columns).
    + rewrite <- (map_id columns) at 2. apply map_ext_in.
      intros h Hh. rewrite Forall_forall in columns_clean.
      now destruct (columns_clean h Hh) as [T _].
    + rewrite <- (map_id columns). apply Forall2_map_in.
      intros h Hh. rewrite Forall_forall in columns_clean.
      destruct (columns_clean h Hh) as [_ [C [Q _]]]. now apply PlainField.
    + exact columns_nonempty.
  - apply without_join; [reflexivity|].
    rewrite Forall_forall in *. intros h Hh.
    now destruct (columns_clean h Hh) as [_ [_ [_ [N _]]]].
  - pose proof columns_header as Hne.
    destruct columns as [|h rest]; [now elim Hne|].
    inversion columns_clean as [|? ? Hh _]; subst.
    destruct Hh as [T _].
    destruct h as [|c h].
    + destruct rest; [now elim Hne|reflexivity].
    + destruct (trimmed_visible (c :: h) T) as [S _]; [discriminate|].
      destruct rest; [exact S|]. now apply startsVisible_app.
Qed.

Section OneRow.

Variable row : record.
Hypothesis row_clean : cleanRow columns row.

Lemma row_value h :
  In h columns -> exists v, getProp row h = Some v /\ cleanValue v.
Proof. apply row_clean. Qed.

Lemma row_line : parseCSVLine (renderRow columns row) = rowTexts columns row.
Proof.
  unfold renderRow, rowTexts.
  rewrite (parseCSVLine_join (map (fun h => fieldText (getProp row h)) columns)).
  - rewrite map_map. apply map_ext_in. intros h Hh.
    destruct (row_value h Hh) as [v [-> Hv]]. now apply text_trimmed.
  - apply Forall2_map_in. intros h Hh.
    destruct (row_value h Hh) as [v [-> Hv]]. now apply render_field.
  - destruct columns; [contradiction|discriminate].
Qed.

Lemma row_without_newline : without newline (renderRow columns row) = true.
Proof.
  unfold renderRow. apply without_join; [reflexivity|].
  apply Forall_forall. intros t Ht. apply in_map_iff in Ht.
  destruct Ht as [h [<- Hh]]. destruct (row_value h Hh) as [v [-> Hv]].
  now apply render_without_newline.
Qed.

Lemma row_visible :
  renderRow columns row <> [] -> endsVisible (renderRow columns row).
Proof.
  unfold renderRow. apply join_comma_visible.
  apply Forall_forall. intros t Ht. apply in_map_iff in Ht.
  destruct Ht as [h [<- Hh]]. destruct (row_value h Hh) as [v [-> Hv]].
  now apply render_visible.
Qed.

Lemma row_back : sameRecord row (parseRow columns (rowTexts columns row)).
Proof.
  split.
  - intros k. rewrite (parseRow_keys_plain _ _ _ columns_plain). symmetry.
    apply row_clean.
  - intros h v Hg.
    assert (Hh : In h columns) by (apply row_clean; exact (getProp_In _ _ _ Hg)).
    destruct (row_value h Hh) as [v' [Hg' Hv]].
    assert (v' = v) by congruence. subst v'.
    destruct (NoDup_lastIndexOf h Hh) as [i Hi].
    assert (Hp : h <> protoName) by (intros ->; exact (columns_plain Hh)).
    rewrite (parseRow_get _ _ _ _ Hp Hi). unfold rowTexts.
    rewrite (map_nth_error _ _ _ (proj1 Hi)), Hg.
    rewrite coerceField_cell, text_trimmed by exact Hv. f_equal. now apply cell_back.
Qed.

End OneRow.

Lemma content_lines data :
  data <> [] -> Forall (cleanRow columns) data ->
  renderRow columns (last data []) <> [] ->
  split newline (trim (csvContent data columns))
  = join [comma] columns :: map (renderRow columns) data.
Proof.
  intros Hne Hrows Hlast. destruct header_line as [_ [Hn Hs]].
  assert (T : trim (csvContent data columns) = csvContent data columns).
  { apply trim_visible.
    - unfold csvContent. destruct data as [|r rest]; [contradiction|].
      cbn [map].
      change (join [newline] (join [comma] columns :: renderRow columns r
                                   :: map (renderRow columns) rest))
        with (join [comma] columns ++ [newline]
              ++ join [newline] (renderRow columns r :: map (renderRow columns) rest)).
      now apply startsVisible_app.
    - destruct (exists_last Hne) as [front [lastRow E]].
      unfold csvContent. rewrite E in *. rewrite map_app. cbn [map].
      rewrite last_last in Hlast.
      destruct (join_last [newline] (join [comma] columns :: map (renderRow columns) front)
                          (renderRow columns lastRow)) as [pre P].
      change ((join [comma] columns :: map (renderRow columns) front)
              ++ [renderRow columns lastRow])
        with (join [comma] columns
              :: map (renderRow columns) front ++ [renderRow columns lastRow]) in P.
      rewrite P. apply endsVisible_app. apply row_visible; [|exact Hlast].
      rewrite Forall_forall in Hrows. apply Hrows. apply in_or_app. right. now left. }
  rewrite T. unfold csvContent. apply split_join; [discriminate|].
  constructor; [exact Hn|].
  apply Forall_forall. intros l Hl. apply in_map_iff in Hl.
  destruct Hl as [r [<- Hr]]. apply row_without_newline.
  rewrite Forall_forall in Hrows. now apply Hrows.
Qed.

Lemma parse_content data :
  data <> [] -> Forall (cleanRow columns) data ->
  renderRow columns (last data []) <> [] ->
  parseCSV (csvContent data columns)
  = map (fun row => parseRow columns (rowTexts columns row)) data.
Proof.
  intros Hne Hrows Hlast. unfold parseCSV.
  rewrite (content_lines data Hne Hrows Hlast).
  destruct header_line as [-> _]. rewrite map_map.
  apply map_ext_in. intros r Hr. rewrite row_line; [reflexivity|].
  rewrite Forall_forall in Hrows. now apply Hrows.
Qed.

End RoundTripCSV.

(** C5, as worded, fails: the text NA comes back as null, a text that
    looks like a number comes back as a number, and a last line that is
    empty is lost with its record. *)
Lemma export_parse_loses_cells :
  (exists d, exportToCSV [[(lit "a", VStr (lit "NA"))]] (lit "f.csv") = Some d
             /\ parseCSV (blob d) = [[(lit "a", VNull)]])
  /\ (exists d, exportToCSV [[(lit "a", VStr (lit "1"))]] (lit "f.csv") = Some d
                /\ parseCSV (blob d) = [[(lit "a", VNum (numberLit "1"))]])
  /\ (exists d, exportToCSV [[(lit "a", VNull)]] (lit "f.csv") = Some d
                /\ parseCSV (blob d) = []).
Proof. repeat split; eexists; split; reflexivity. Qed.

(** C5 (amended): for an exportable dataset, export followed by parsing
    gives as many records, each with the same columns and, in each
    column, the same value, the empty text read back as null and -0 as
    0. *)
Theorem export_parse_roundtrip (data : list record) (filename : jsstring) :
  exportable data ->
  exists d,
    exportToCSV data filename = Some d
    /\ download d = filename
    /\ List.length (parseCSV (blob d)) = List.length data
    /\ Forall2 sameRecord data (parseCSV (blob d)).
Proof.
  intros [Hne [Hcols [Hnd [Hnames [Hrows Hlast]]]]].
  destruct data as [|first rest]; [contradiction|].
  cbn [hd] in *. set (columns := keys first) in *.
  exists {| download := filename; blob := csvContent (first :: rest) columns |}.
  split; [reflexivity|]. split; [reflexivity|]. cbn [blob].
  rewrite (parse_content columns Hcols Hnd Hnames (first :: rest) Hne Hrows Hlast).
  split; [apply length_map|].
  rewrite <- (map_id (first :: rest)) at 1.
  apply Forall2_map_in. intros r Hr. apply row_back; auto.
  rewrite Forall_forall in Hrows. now apply Hrows.
Qed.

Lemma demoData_exportable : exportable demoData.
Proof.
  unfold exportable, demoData. cbn [hd keys map fst].
  split; [discriminate|]. split; [discriminate|]. split.
  { constructor; [intros [H|[]]; discriminate H|].
    constructor; [intros []|constructor]. }
  split.
  { repeat constructor; try discriminate; reflexivity. }
  split; [|discriminate].
  constructor; [|constructor; [|constructor]].
  - split; [intros k; cbn [keys map fst]; tauto|].
    intros h [<-|[<-|[]]].
    + exists (VStr (lit "p1")). split; [reflexivity|].
      cbn [cleanValue]. repeat split. right. repeat split; discriminate.
    + exists (VNum (numberLit "42.5")). split; [reflexivity|].
      cbn [cleanValue]. split; reflexivity.
  - split; [intros k; cbn [keys map fst]; tauto|].
    intros h [<-|[<-|[]]].
    + exists (VStr (lit "x, y")). split; [reflexivity|].
      cbn [cleanValue]. repeat split. right. repeat split; discriminate.
    + exists VNull. split; [reflexivity|exact I].
Defined.

Lemma export_parse_roundtrip_witness :
  exists d,
    exportToCSV demoData (lit "f.csv") = Some d
    /\ download d = lit "f.csv"
    /\ List.length (parseCSV (blob d)) = List.length demoData
    /\ Forall2 sameRecord demoData (parseCSV (blob d)).
Proof. exact (export_parse_roundtrip demoData (lit "f.csv") demoData_exportable). Defined.

(** * Further properties *)

(** ** The order on numbers, continued *)

Section NumOrderMore.

Lemma key_le_trans a b c : key_le a b -> key_le b c -> key_le a c.
Proof.
  intros [H1|H1] [H2|H2]; subst.
  - left. exact (key_lt_trans _ _ _ H1 H2).
  - now left.
  - now left.
  - now right.
Qed.

Lemma leb_trans x y z :
  (x <=? y)%num = true -> (y <=? z)%num = true -> (x <=? z)%num = true.
Proof.
  intros H1 H2.
  destruct (leb_not_nan _ _ H1) as [Nx _]. destruct (leb_not_nan _ _ H2) as [_ Nz].
  apply key_leb; auto.
  exact (key_le_trans _ _ _ (leb_key _ _ H1) (leb_key _ _ H2)).
Qed.

Lemma ltb_leb x y : (x <? y)%num = true -> (x <=? y)%num = true.
Proof.
  unfold ltb, leb, SFltb, SFleb. destruct (SFcompare x y) as [[| |]|]; auto.
Qed.

Lemma ltb_leb_false x y : (x <? y)%num = true -> (y <=? x)%num = false.
Proof. intros H. apply key_lt_leb_false. now apply ltb_key. Qed.

Lemma ltb_asym x y : (x <? y)%num = true -> (y <? x)%num = false.
Proof.
  intros H. destruct ((y <? x)%num) eqn:E; [|reflexivity].
  elim (key_lt_asym _ _ (ltb_key _ _ H) (ltb_key _ _ E)).
Qed.

Lemma leb_nan_l y : (S754_nan <=? y)%num = false.
Proof. reflexivity. Qed.

Lemma leb_nan_r x : (x <=? S754_nan)%num = false.
Proof. now destruct x as [[|]|[|]| |[|] m e]. Qed.

End NumOrderMore.

(** ** Risk classification, continued *)

Section ClassifyRiskMore.

(** X1: a higher score never gets a lower band, whatever the reference:
    if [s1 <= s2] and both scores are classified, the band of [s1] is
    not above the band of [s2]. *)
Theorem classifyRisk_monotone (s1 s2 : number) (ref : option RiskRef)
        (g1 g2 : RiskGroup) :
  (s1 <=? s2)%num = true ->
  group (classifyRisk s1 ref) = Some g1 ->
  group (classifyRisk s2 ref) = Some g2 ->
  (bandRank g1 <= bandRank g2)%nat.
Proof.
  intros Hle. unfold classifyRisk.
  destruct ref as [[[t33|] [t66|]]|]; cbn [q33 q66 group]; try discriminate.
  destruct (s2 <=? t33)%num eqn:E2.
  - rewrite (leb_trans _ _ _ Hle E2). cbn [group].
    intros [= <-] [= <-]. apply le_n.
  - destruct (s2 <=? t66)%num eqn:F2.
    + rewrite (leb_trans _ _ _ Hle F2).
      destruct (s1 <=? t33)%num; cbn [group]; intros [= <-] [= <-]; cbn; lia.
    + destruct (s1 <=? t33)%num; [|destruct (s1 <=? t66)%num]; cbn [group];
        intros [= <-] [= <-]; cbn; lia.
Qed.

Lemma classifyRisk_monotone_witness :
  (bandRank Low <= bandRank Intermediate)%nat.
Proof.
  apply (classifyRisk_monotone (numberLit "0.2") (numberLit "0.5")
           (riskRef Index.mockBundle) Low Intermediate); reflexivity.
Defined.

(** X2: a score that is not a number is put in the High band whenever
    both thresholds are present, and so is every score when neither
    threshold is a number. *)
Theorem classifyRisk_not_a_number (s t33 t66 : number) :
  isNaN s = true \/ (isNaN t33 = true /\ isNaN t66 = true) ->
  classifyRisk s (bothThresholds t33 t66)
  = {| group := Some High; threshold := Some t66 |}.
Proof.
  unfold classifyRisk, bothThresholds. cbn [q33 q66].
  intros [Hs|[H3 H6]].
  - destruct s; try discriminate. reflexivity.
  - destruct t33; try discriminate. destruct t66; try discriminate.
    now rewrite !leb_nan_r.
Qed.

Lemma classifyRisk_not_a_number_witness :
  classifyRisk S754_nan (riskRef Index.mockBundle)
  = {| group := Some High; threshold := Some (numberLit "0.65") |}.
Proof.
  apply (classifyRisk_not_a_number S754_nan (numberLit "0.35") (numberLit "0.65")).
  left. reflexivity.
Defined.

(** X3: when the thresholds come in the wrong order, q66 below q33, no
    score is Intermediate: the band is Low up to q33 and High above. *)
Theorem classifyRisk_inverted (s t33 t66 : number) :
  (t66 <? t33)%num = true ->
  classifyRisk s (bothThresholds t33 t66)
  = (if (s <=? t33)%num then {| group := Some Low; threshold := Some t33 |}
     else {| group := Some High; threshold := Some t66 |})
  /\ group (classifyRisk s (bothThresholds t33 t66)) <> Some Intermediate.
Proof.
  intros Hlt. unfold classifyRisk, bothThresholds. cbn [q33 q66].
  destruct (s <=? t33)%num eqn:E.
  - split; [reflexivity|discriminate].
  - destruct (s <=? t66)%num eqn:F.
    + rewrite (leb_trans _ _ _ F (ltb_leb _ _ Hlt)) in E. discriminate.
    + split; [reflexivity|discriminate].
Qed.

Lemma classifyRisk_inverted_witness :
  (numberLit "0.35" <? numberLit "0.65")%num = true /\
  classifyRisk (numberLit "0.5") (bothThresholds (numberLit "0.65") (numberLit "0.35"))
  = {| group := Some Low; threshold := Some (numberLit "0.65") |}.
Proof.
  split; [reflexivity|].
  exact (proj1 (classifyRisk_inverted (numberLit "0.5") (numberLit "0.65")
                                      (numberLit "0.35") eq_refl)).
Defined.

End ClassifyRiskMore.

(** ** Survival look-up, continued *)

Section GetSurvivalAtTimeMore.

(** X4: on a curve that is not empty the result is always the
    probability of one of its samples, in whatever order they are;
    for a target time that is not a number it is that of the first
    sample. *)
Theorem getSurvivalAtTime_sample (first : Sample) (rest : list Sample) (t : number) :
  (exists smp, In smp (first :: rest)
               /\ getSurvivalAtTime (first :: rest) t = probability smp)
  /\ (isNaN t = true -> getSurvivalAtTime (first :: rest) t = probability first).
Proof.
  split.
  - unfold getSurvivalAtTime.
    destruct (scanBack (first :: rest) (List.length (first :: rest)) t) as [p|] eqn:E.
    + destruct (scanBack_some _ _ _ _ E) as [i [smp [_ [Hn [_ [-> _]]]]]].
      exists smp. split; [exact (nth_error_In _ _ Hn)|reflexivity].
    + exists first. split; [now left|reflexivity].
  - intros Ht. apply getSurvivalAtTime_none. intros smp _.
    destruct t; try discriminate. apply leb_nan_r.
Qed.

Lemma neverRises_nth (data : list Sample) : forall i j a b,
  neverRises data = true -> (i <= j)%nat ->
  nth_error data i = Some a -> nth_error data j = Some b ->
  (probability b <=? probability a)%num = true.
Proof.
  induction data as [|x data IH]; intros i j a b H Hij Ha Hb.
  - destruct i; discriminate.
  - cbn [neverRises] in H. apply andb_true_iff in H. destruct H as [Hx Hrest].
    destruct i as [|i].
    + cbn in Ha. injection Ha as <-.
      rewrite forallb_forall in Hx. apply Hx. exact (nth_error_In _ _ Hb).
    + destruct j as [|j]; [lia|]. cbn in Ha, Hb.
      apply (IH i j); auto. lia.
Qed.

(** X5: on a curve whose probabilities never rise from one sample to a
    later one, a later target time never gives a higher result. *)
Theorem getSurvivalAtTime_monotone (data : list Sample) (t1 t2 : number) :
  neverRises data = true -> (t1 <=? t2)%num = true ->
  (getSurvivalAtTime data t2 <=? getSurvivalAtTime data t1)%num = true.
Proof.
  intros Hd Ht. destruct data as [|first rest]; [reflexivity|].
  set (data := first :: rest) in *.
  assert (H0 : nth_error data 0 = Some first) by reflexivity.
  unfold getSurvivalAtTime. fold data.
  destruct (scanBack data (List.length data) t2) as [p2|] eqn:E2.
  - destruct (scanBack_some _ _ _ _ E2) as [i2 [s2 [Hi2 [Hn2 [Hl2 [-> Hlast2]]]]]].
    destruct (scanBack data (List.length data) t1) as [p1|] eqn:E1.
    + destruct (scanBack_some _ _ _ _ E1) as [i1 [s1 [Hi1 [Hn1 [Hl1 [-> _]]]]]].
      apply (neverRises_nth data i1 i2); auto.
      destruct (Nat.le_gt_cases i1 i2) as [L|G]; [exact L|].
      pose proof (Hlast2 i1 s1 (conj G Hi1) Hn1) as F.
      rewrite (leb_trans _ _ _ Hl1 Ht) in F. discriminate.
    + apply (neverRises_nth data 0%nat i2); auto. lia.
  - destruct (scanBack data (List.length data) t1) as [p1|] eqn:E1.
    + destruct (scanBack_some _ _ _ _ E1) as [i1 [s1 [Hi1 [Hn1 [Hl1 [-> _]]]]]].
      pose proof (scanBack_none _ _ _ E2 i1 s1 Hi1 Hn1) as F.
      rewrite (leb_trans _ _ _ Hl1 Ht) in F. discriminate.
    + apply (neverRises_nth data 0%nat 0%nat); auto.
Qed.

Lemma getSurvivalAtTime_monotone_witness :
  (getSurvivalAtTime demoCurve (numberLit "45")
   <=? getSurvivalAtTime demoCurve (numberLit "10"))%num = true.
Proof.
  apply (getSurvivalAtTime_monotone demoCurve (numberLit "10") (numberLit "45"));
    reflexivity.
Defined.

End GetSurvivalAtTimeMore.

(** ** White space, continued *)

Section TrimMore.

Lemma dropWhile_app f (a b : jsstring) :
  dropWhile f (a ++ b)
  = match dropWhile f a with
    | [] => dropWhile f b
    | c :: r => (c :: r) ++ b
    end.
Proof.
  induction a as [|x a IH]; cbn [app dropWhile]; [reflexivity|].
  destruct (f x); [exact IH|reflexivity].
Qed.

Lemma forallb_rev_true (P : ascii -> bool) s :
  forallb P s = true -> forallb P (rev s) = true.
Proof. rewrite !forallb_forall. intros H x Hx. apply H. now apply in_rev. Qed.

Lemma forallb_dropWhile (P f : ascii -> bool) s :
  forallb P s = true -> forallb P (dropWhile f s) = true.
Proof.
  induction s as [|x s IH]; cbn [dropWhile]; [reflexivity|].
  intros H. destruct (f x); [|exact H].
  cbn [forallb] in H. apply andb_true_iff in H. now apply IH.
Qed.

Lemma forallb_trim P s : forallb P s = true -> forallb P (trim s) = true.
Proof.
  intros H. unfold trim, trimEnd, trimStart.
  now apply forallb_rev_true, forallb_dropWhile, forallb_rev_true, forallb_dropWhile.
Qed.

Lemma trim_app_space c ws :
  forallb isWhiteSpace ws = true -> trim (c ++ ws) = trim c.
Proof.
  intros H. unfold trim, trimEnd, trimStart.
  rewrite dropWhile_app, (dropWhile_all _ _ H).
  destruct (dropWhile isWhiteSpace c) as [|x r]; [reflexivity|].
  rewrite rev_app_distr, dropWhile_app.
  now rewrite (dropWhile_all _ (rev ws)) by now apply forallb_rev_true.
Qed.

Lemma trim_space_app ws c :
  forallb isWhiteSpace ws = true -> trim (ws ++ c) = trim c.
Proof.
  intros H. unfold trim, trimEnd, trimStart.
  now rewrite dropWhile_app, (dropWhile_all _ _ H).
Qed.

Lemma trim_space ws : forallb isWhiteSpace ws = true -> trim ws = [].
Proof.
  intros H. unfold trim, trimEnd, trimStart. now rewrite (dropWhile_all _ _ H).
Qed.

Lemma space_plain x :
  isWhiteSpace x = true -> ceqb x dquote = false /\ ceqb x comma = false.
Proof.
  destruct x as [[] [] [] [] [] [] [] []]; intros H; vm_compute in H;
    try discriminate H; split; reflexivity.
Qed.

End TrimMore.

(** ** Lines of delimited text, continued *)

Section ParseCSVLineMore.

Lemma parseCSVLineFrom_end ws : forall result current inQuotes,
  forallb isWhiteSpace ws = true ->
  parseCSVLineFrom ws result current inQuotes = result ++ [trim (current ++ ws)].
Proof.
  induction ws as [|x ws IH]; intros result current q H.
  - cbn [parseCSVLineFrom]. now rewrite app_nil_r.
  - cbn [forallb] in H. apply andb_true_iff in H. destruct H as [Hx Hws].
    destruct (space_plain x Hx) as [Hq Hc].
    cbn [parseCSVLineFrom]. rewrite Hq, Hc. cbn [andb].
    rewrite (IH _ _ _ Hws), <- app_assoc. reflexivity.
Qed.

Lemma parseCSVLineFrom_space line ws : forall result current inQuotes,
  forallb isWhiteSpace ws = true ->
  parseCSVLineFrom (line ++ ws) result current inQuotes
  = parseCSVLineFrom line result current inQuotes.
Proof.
  induction line as [|x line IH]; intros result current q H.
  - cbn [app]. rewrite (parseCSVLineFrom_end ws _ _ _ H). cbn [parseCSVLineFrom].
    now rewrite trim_app_space.
  - cbn [app parseCSVLineFrom]. destruct (ceqb x dquote); [now apply IH|].
    destruct (ceqb x comma && negb q); now apply IH.
Qed.

Lemma parseCSVLineFrom_indent line ws : forall result current inQuotes,
  forallb isWhiteSpace ws = true ->
  parseCSVLineFrom line result (ws ++ current) inQuotes
  = parseCSVLineFrom line result current inQuotes.
Proof.
  induction line as [|x line IH]; intros result current q H.
  - cbn [parseCSVLineFrom]. now rewrite trim_space_app.
  - cbn [parseCSVLineFrom]. destruct (ceqb x dquote); [now apply IH|].
    destruct (ceqb x comma && negb q).
    + now rewrite trim_space_app.
    + rewrite <- app_assoc. now apply IH.
Qed.

(** X6: white space at either end of a line, a carriage return before
    the line feed for one, changes nothing in the fields read. *)
Theorem parseCSVLine_outer_space (line before after : jsstring) :
  forallb isWhiteSpace before = true -> forallb isWhiteSpace after = true ->
  parseCSVLine (before ++ line ++ after) = parseCSVLine line.
Proof.
  intros Hb Ha. unfold parseCSVLine.
  assert (E : forall rest,
             parseCSVLineFrom (before ++ rest) [] [] false
             = parseCSVLineFrom rest [] before false).
  { intros rest.
    assert (G : forall ws current,
               forallb isWhiteSpace ws = true ->
               parseCSVLineFrom (ws ++ rest) [] current false
               = parseCSVLineFrom rest [] (current ++ ws) false).
    { induction ws as [|x ws IH]; intros current H.
      - now rewrite app_nil_r.
      - cbn [forallb] in H. apply andb_true_iff in H. destruct H as [Hx Hws].
        destruct (space_plain x Hx) as [Hq Hc].
        cbn [app parseCSVLineFrom]. rewrite Hq, Hc. cbn [andb].
        rewrite (IH _ Hws), <- app_assoc. reflexivity. }
    exact (G before [] Hb). }
  rewrite E, parseCSVLineFrom_space by exact Ha.
  rewrite <- (app_nil_r before) at 1. now apply parseCSVLineFrom_indent.
Qed.

Lemma parseCSVLine_outer_space_witness :
  parseCSVLine (lit " " ++ lit "a, b" ++ [ascii_of_N 13]) = [lit "a"; lit "b"].
Proof.
  exact (parseCSVLine_outer_space (lit "a, b") (lit " ") [ascii_of_N 13]
                                  eq_refl eq_refl).
Defined.

Lemma parseCSVLineFrom_fields (P : jsstring -> Prop) line :
  (forall current, without dquote current = true -> P (trim current)) ->
  forall result current inQuotes,
  Forall P result -> without dquote current = true ->
  Forall P (parseCSVLineFrom line result current inQuotes).
Proof.
  intros HP. induction line as [|x line IH]; intros result current q Hr Hc.
  - cbn [parseCSVLineFrom]. apply Forall_app. split; [exact Hr|].
    constructor; [now apply HP|constructor].
  - cbn [parseCSVLineFrom]. destruct (ceqb x dquote) eqn:Eq; [now apply IH|].
    destruct (ceqb x comma && negb q).
    + apply IH; [|reflexivity]. apply Forall_app. split; [exact Hr|].
      constructor; [now apply HP|constructor].
    + apply IH; [exact Hr|]. unfold without in *. rewrite forallb_app, Hc.
      cbn [forallb]. now rewrite Eq.
Qed.

Lemma parseCSVLineFrom_plain line : forall result current,
  without dquote line = true ->
  Forall (fun field => without comma field = true) result ->
  without comma current = true ->
  Forall (fun field => without comma field = true)
         (parseCSVLineFrom line result current false).
Proof.
  induction line as [|x line IH]; intros result current Hl Hr Hc.
  - cbn [parseCSVLineFrom]. apply Forall_app. split; [exact Hr|].
    constructor; [now apply forallb_trim|constructor].
  - cbn [without forallb] in Hl. apply andb_true_iff in Hl. destruct Hl as [Hx Hl].
    apply negb_true_iff in Hx. cbn [parseCSVLineFrom]. rewrite Hx. cbn [negb].
    rewrite andb_true_r. destruct (ceqb x comma) eqn:Ec.
    + apply IH; [exact Hl| |reflexivity]. apply Forall_app. split; [exact Hr|].
      constructor; [now apply forallb_trim|constructor].
    + apply IH; [exact Hl|exact Hr|]. unfold without in *. rewrite forallb_app, Hc.
      cbn [forallb]. now rewrite Ec.
Qed.

Lemma count_comma x line :
  count_occ ascii_dec (x :: line) comma
  = ((if ceqb x comma then 1 else 0) + count_occ ascii_dec line comma)%nat.
Proof.
  destruct (ceqb x comma) eqn:E.
  - apply ceqb_eq in E. subst. now rewrite count_occ_cons_eq.
  - rewrite count_occ_cons_neq; [reflexivity|].
    intros ->. now rewrite (proj2 (ceqb_eq _ _) eq_refl) in E.
Qed.

Lemma parseCSVLineFrom_length line : forall result current inQuotes,
  (List.length (parseCSVLineFrom line result current inQuotes)
   <= List.length result + S (count_occ ascii_dec line comma))%nat
  /\ (without dquote line = true -> inQuotes = false ->
      List.length (parseCSVLineFrom line result current inQuotes)
      = (List.length result + S (count_occ ascii_dec line comma))%nat).
Proof.
  induction line as [|x line IH]; intros result current q.
  - cbn [parseCSVLineFrom count_occ]. rewrite length_app. cbn [List.length]. lia.
  - rewrite count_comma. cbn [parseCSVLineFrom].
    destruct (ceqb x dquote) eqn:Eq.
    + assert (Ec : ceqb x comma = false).
      { apply ceqb_eq in Eq. now subst. }
      rewrite Ec. destruct (IH result current (negb q)) as [L _].
      split; [lia|]. cbn [without forallb]. rewrite Eq. discriminate.
    + destruct (ceqb x comma) eqn:Ec; cbn [andb].
      * destruct q; cbn [negb].
        -- destruct (IH result (current ++ [x]) true) as [L _].
           split; [lia|discriminate].
        -- destruct (IH (result ++ [trim current]) [] false) as [L E].
           rewrite length_app in L, E. cbn [List.length] in L, E.
           split; [lia|]. cbn [without forallb]. rewrite Eq. cbn [negb andb].
           intros Hl _. rewrite (E Hl eq_refl). lia.
      * destruct (IH result (current ++ [x]) q) as [L E].
        split; [lia|]. cbn [without forallb]. rewrite Eq. cbn [negb andb].
        intros Hl Hq. rewrite (E Hl Hq). lia.
Qed.

(** X7: a line always has at least one field, and at most one more than
    it has commas; no field keeps white space at its ends or a double
    quote.  In a line without double quotes every comma separates, so
    that the fields are one more than the commas and none holds a
    comma. *)
Theorem parseCSVLine_fields (line : jsstring) :
  (1 <= List.length (parseCSVLine line)
   <= S (count_occ ascii_dec line comma))%nat
  /\ Forall (fun field => trim field = field /\ without dquote field = true)
            (parseCSVLine line)
  /\ (without dquote line = true ->
      List.length (parseCSVLine line) = S (count_occ ascii_dec line comma)
      /\ Forall (fun field => without comma field = true) (parseCSVLine line)).
Proof.
  unfold parseCSVLine. split; [|split].
  - destruct (parseCSVLineFrom_length line [] [] false) as [L _].
    split; [|exact L].
    assert (G : forall l r c q, (1 <= List.length (parseCSVLineFrom l r c q))%nat).
    { induction l as [|x l IH]; intros r c q; cbn [parseCSVLineFrom].
      - rewrite length_app. cbn. lia.
      - destruct (ceqb x dquote); [apply IH|].
        destruct (ceqb x comma && negb q); apply IH. }
    apply G.
  - apply parseCSVLineFrom_fields; [|constructor|reflexivity].
    intros current H. split; [apply trim_idem|now apply forallb_trim].
  - intros Hl. split.
    + now destruct (parseCSVLineFrom_length line [] [] false) as [_ ->].
    + apply parseCSVLineFrom_plain; [exact Hl|constructor|reflexivity].
Qed.

End ParseCSVLineMore.

(** ** Delimited text, continued *)

Section ParseCSVMore.

Lemma split_length sep s :
  List.length (split sep s) = S (count_occ ascii_dec s sep).
Proof.
  induction s as [|c s IH]; [reflexivity|]. cbn [split].
  destruct (ceqb c sep) eqn:E.
  - apply ceqb_eq in E. subst. rewrite count_occ_cons_eq by reflexivity.
    cbn [List.length]. now rewrite IH.
  - rewrite count_occ_cons_neq.
    + destruct (split sep s); [discriminate IH|exact IH].
    + intros ->. now rewrite (proj2 (ceqb_eq _ _) eq_refl) in E.
Qed.

Lemma parseCSV_lines text :
  parseCSV text
  = match map parseCSVLine (split newline (trim text)) with
    | [] => []
    | headers :: rows => map (parseRow headers) rows
    end.
Proof.
  unfold parseCSV. destruct (split newline (trim text)) as [|first rest];
    [reflexivity|].
  cbn [map]. now rewrite map_map.
Qed.

Lemma keys_setProp_alike r1 : forall r2 k v1 v2,
  keys r1 = keys r2 -> keys (setProp r1 k v1) = keys (setProp r2 k v2).
Proof.
  induction r1 as [|[k1 a] r1 IH]; intros [|[k2 b] r2] k v1 v2 H;
    try discriminate H; [reflexivity|].
  cbn [keys map fst] in H. injection H as -> H. cbn [setProp].
  destruct (seqb k2 k); cbn [keys map fst]; f_equal.
  - exact H.
  - now apply IH.
Qed.

Lemma keys_fold_setCell v1 v2 l :
  ~ In protoName (map snd l) ->
  forall o1 o2,
  keys (snd o1) = keys (snd o2) ->
  keys (snd (fold_left (setCell v1) l o1)) = keys (snd (fold_left (setCell v2) l o2)).
Proof.
  induction l as [|[i h] l IH]; intros Hp o1 o2 H; cbn [fold_left]; [exact H|].
  cbn [map snd In] in Hp. apply IH; [tauto|]. cbn [setCell].
  rewrite !assignProp_plain by (intros E; apply Hp; left; now rewrite E).
  cbn [snd]. now apply keys_setProp_alike.
Qed.

Lemma parseRow_same_keys headers v1 v2 :
  ~ In protoName headers ->
  keys (parseRow headers v1) = keys (parseRow headers v2).
Proof.
  intros Hp. apply keys_fold_setCell; [|reflexivity].
  now rewrite combine_seq_snd.
Qed.

(** Two columns named [__proto__]: a line whose first cell is empty
    gives a record with that column, a line whose first cell is a text
    gives a record without it. *)
Example parseCSV_proto_twice :
  parseCSV (lit "__proto__,__proto__" ++ [newline] ++ lit ",x" ++ [newline] ++ lit "y,x")
  = [ [(protoName, VStr (lit "x"))]; [] ].
Proof. reflexivity. Qed.

(** X8: an ASCII text gives one record for each line feed that is left
    once the white space around it is removed, so none for a blank text
    or for a header line alone.  The records have the same columns,
    but for a column named [__proto__]; when no column of the header
    line has that name they have the same column names in the same
    order. *)
Theorem parseCSV_records (text : jsstring) :
  isAscii text = true ->
  let headers := parseCSVLine (hd [] (split newline (trim text))) in
  List.length (parseCSV text) = count_occ ascii_dec (trim text) newline
  /\ (forall row row' k, In row (parseCSV text) -> In row' (parseCSV text) ->
        k <> protoName -> (In k (keys row) <-> In k (keys row')))
  /\ (~ In protoName headers ->
      forall row row', In row (parseCSV text) -> In row' (parseCSV text) ->
        keys row = keys row')
  /\ (forallb isWhiteSpace text = true -> parseCSV text = []).
Proof.
  intros _ headers. subst headers. split; [|split; [|split]].
  - pose proof (split_length newline (trim text)) as L. unfold parseCSV.
    destruct (split newline (trim text)) as [|first rest]; [discriminate L|].
    rewrite length_map. cbn [List.length] in L. lia.
  - unfold parseCSV. destruct (split newline (trim text)) as [|first rest];
      [intros ? ? ? []|].
    intros row row' k H H' Hk. apply in_map_iff in H, H'.
    destruct H as [l [<- _]]. destruct H' as [l' [<- _]].
    now rewrite !parseRow_keys.
  - unfold parseCSV. destruct (split newline (trim text)) as [|first rest];
      [intros ? ? ? []|].
    cbn [hd]. intros Hp row row' H H'. apply in_map_iff in H, H'.
    destruct H as [l [<- _]]. destruct H' as [l' [<- _]].
    now apply parseRow_same_keys.
  - intros H. unfold parseCSV. now rewrite (trim_space _ H).
Qed.

Lemma allNull_setProp r k : allNull r -> allNull (setProp r k VNull).
Proof.
  unfold allNull. induction r as [|[k' v'] r IH]; cbn [setProp]; intros H.
  - constructor; [reflexivity|constructor].
  - inversion H as [|? ? Hh Ht]; subst. destruct (seqb k' k).
    + constructor; [reflexivity|exact Ht].
    + constructor; [exact Hh|now apply IH].
Qed.

Lemma allNull_assignProp o k : allNull (snd o) -> allNull (snd (assignProp o k VNull)).
Proof.
  intros H. destruct (assignProp_own o k VNull) as [[_ ->]| ->]; [exact H|].
  now apply allNull_setProp.
Qed.

Lemma allNull_fold values l :
  (forall i, coerceField (nth_error values i) = VNull) ->
  forall o, allNull (snd o) -> allNull (snd (fold_left (setCell values) l o)).
Proof.
  intros Hv. induction l as [|[i h] l IH]; intros o Ho; cbn [fold_left];
    [exact Ho|].
  apply IH. cbn [setCell]. rewrite Hv. now apply allNull_assignProp.
Qed.

(** X9: a blank line among the data lines of an ASCII text is not
    skipped: it gives a record in which every cell is null, with the
    columns of the header line, apart from a column named [__proto__]
    if there is one. *)
Theorem parseCSV_blank_line (text line : jsstring) :
  isAscii text = true ->
  In line (tl (split newline (trim text))) ->
  forallb isWhiteSpace line = true ->
  let headers := parseCSVLine (hd [] (split newline (trim text))) in
  exists row,
    In row (parseCSV text)
    /\ (forall k, k <> protoName -> (In k (keys row) <-> In k headers))
    /\ (forall k, In k (keys row) -> In k headers)
    /\ allNull row.
Proof.
  intros _ Hl Hw headers. subst headers. unfold parseCSV.
  destruct (split newline (trim text)) as [|first rest]; [destruct Hl|].
  cbn [tl hd] in *.
  exists (parseRow (parseCSVLine first) (parseCSVLine line)).
  split; [|split; [|split]].
  - apply in_map_iff. now exists line.
  - intros k. apply parseRow_keys.
  - intros k. apply parseRow_within.
  - replace (parseCSVLine line) with [@nil ascii].
    + apply allNull_fold; [|constructor].
      intros [|[|i]]; reflexivity.
    + symmetry. unfold parseCSVLine.
      rewrite (parseCSVLineFrom_end line [] [] false Hw).
      cbn [app]. now rewrite (trim_space _ Hw).
Qed.

End ParseCSVMore.

Lemma parseCSV_blank_line_witness :
  exists row,
    In row (parseCSV (lit "a,b" ++ [newline; newline] ++ lit "1,2"))
    /\ (forall k, k <> protoName -> (In k (keys row) <-> In k [lit "a"; lit "b"]))
    /\ (forall k, In k (keys row) -> In k [lit "a"; lit "b"])
    /\ allNull row.
Proof.
  apply (parseCSV_blank_line (lit "a,b" ++ [newline; newline] ++ lit "1,2") []).
  - reflexivity.
  - left. reflexivity.
  - reflexivity.
Defined.

Lemma parseCSV_records_witness :
  List.length (parseCSV (lit "id,age" ++ [newline] ++ lit "p1,42" ++ [newline])) = 1%nat.
Proof.
  exact (proj1 (parseCSV_records
                  (lit "id,age" ++ [newline] ++ lit "p1,42" ++ [newline]) eq_refl)).
Defined.

(** ** Line endings *)

Section LineEndings.

Lemma join_withReturns lines :
  join crlf lines = join [newline] (withReturns lines).
Proof.
  induction lines as [|l rest IH]; [reflexivity|].
  destruct rest as [|l2 rest]; [reflexivity|].
  change (join crlf (l :: l2 :: rest)) with (l ++ crlf ++ join crlf (l2 :: rest)).
  rewrite IH.
  change (withReturns (l :: l2 :: rest))
    with ((l ++ [carriageReturn]) :: withReturns (l2 :: rest)).
  destruct (withReturns (l2 :: rest)) as [|w ws] eqn:E.
  - destruct rest; discriminate E.
  - cbn [join]. destruct ws; unfold crlf; rewrite <- !app_assoc; reflexivity.
Qed.

Lemma withReturns_plain lines :
  Forall (fun l => without newline l = true) lines ->
  Forall (fun l => without newline l = true) (withReturns lines).
Proof.
  induction 1 as [|l rest Hl Hrest IH]; [constructor|].
  destruct rest as [|l2 rest]; [now repeat constructor|].
  change (withReturns (l :: l2 :: rest))
    with ((l ++ [carriageReturn]) :: withReturns (l2 :: rest)).
  constructor; [|exact IH]. unfold without in *. now rewrite forallb_app, Hl.
Qed.

Lemma withReturns_fields lines :
  map parseCSVLine (withReturns lines) = map parseCSVLine lines.
Proof.
  induction lines as [|l rest IH]; [reflexivity|].
  destruct rest as [|l2 rest]; [reflexivity|].
  change (withReturns (l :: l2 :: rest))
    with ((l ++ [carriageReturn]) :: withReturns (l2 :: rest)).
  cbn [map] in *. rewrite IH. f_equal. unfold parseCSVLine.
  now apply parseCSVLineFrom_space.
Qed.

Lemma join_hd sep l rest : exists post, join sep (l :: rest) = l ++ post.
Proof.
  destruct rest as [|l2 rest].
  - exists []. cbn [join]. now rewrite app_nil_r.
  - eexists. reflexivity.
Qed.

Lemma join_visible sep lines :
  startsVisible (hd [] lines) -> endsVisible (last lines []) ->
  startsVisible (join sep lines) /\ endsVisible (join sep lines).
Proof.
  intros Hs He. destruct lines as [|l rest]; [destruct Hs|]. split.
  - destruct (join_hd sep l rest) as [post E]. unfold jsstring in *.
    rewrite E. now apply startsVisible_app.
  - destruct (@exists_last _ (l :: rest)) as [init [lastLine E]]; [discriminate|].
    unfold jsstring in *. rewrite E in *. rewrite last_last in He.
    destruct (join_last sep init lastLine) as [pre E']. unfold jsstring in *.
    rewrite E'. now apply endsVisible_app.
Qed.

Lemma parseCSV_joined lines ending :
  Forall (fun l => without newline l = true) lines ->
  startsVisible (hd [] lines) -> endsVisible (last lines []) ->
  forallb isWhiteSpace ending = true ->
  parseCSV (join [newline] lines ++ ending)
  = match map parseCSVLine lines with
    | [] => []
    | headers :: rows => map (parseRow headers) rows
    end.
Proof.
  intros Hl Hs He Hw. rewrite parseCSV_lines, trim_app_space by exact Hw.
  destruct (join_visible [newline] lines Hs He) as [Vs Ve].
  rewrite (trim_visible _ Vs Ve), split_join; [reflexivity| |exact Hl].
  intros ->. destruct Hs.
Qed.

Lemma withReturns_hd lines :
  startsVisible (hd [] lines) -> startsVisible (hd [] (withReturns lines)).
Proof.
  destruct lines as [|l [|l2 rest]]; auto. cbn [hd withReturns].
  apply startsVisible_app.
Qed.

Lemma withReturns_last lines : last (withReturns lines) [] = last lines [].
Proof.
  induction lines as [|l rest IH]; [reflexivity|].
  destruct rest as [|l2 rest]; [reflexivity|].
  change (withReturns (l :: l2 :: rest))
    with ((l ++ [carriageReturn]) :: withReturns (l2 :: rest)).
  change (last (l :: l2 :: rest) []) with (last (l2 :: rest) []).
  rewrite <- IH. destruct (withReturns (l2 :: rest)) eqn:E; [|reflexivity].
  destruct rest; discriminate E.
Qed.

(** X10: an ASCII text whose lines end in a carriage return and a line
    feed gives the same records as the text with line feeds alone,
    whatever white space follows the last line. *)
Theorem parseCSV_line_endings (lines : list jsstring) (ending ending' : jsstring) :
  Forall (fun l => isAscii l = true) lines ->
  Forall (fun l => without newline l = true) lines ->
  startsVisible (hd [] lines) -> endsVisible (last lines []) ->
  forallb isWhiteSpace ending = true -> forallb isWhiteSpace ending' = true ->
  parseCSV (join crlf lines ++ ending) = parseCSV (join [newline] lines ++ ending').
Proof.
  intros _ Hl Hs He Hw Hw'.
  rewrite join_withReturns.
  rewrite (parseCSV_joined (withReturns lines) ending); auto.
  - rewrite (parseCSV_joined lines ending'); auto. now rewrite withReturns_fields.
  - now apply withReturns_plain.
  - now apply withReturns_hd.
  - now rewrite withReturns_last.
Qed.

Lemma parseCSV_line_endings_witness :
  parseCSV (join crlf [lit "id,age"; lit "p1,42"; lit "p2,NA"] ++ crlf)
  = [ [(lit "id", VStr (lit "p1")); (lit "age", VNum (numberLit "42"))];
      [(lit "id", VStr (lit "p2")); (lit "age", VNull)] ].
Proof.
  rewrite (parseCSV_line_endings [lit "id,age"; lit "p1,42"; lit "p2,NA"] crlf []).
  - reflexivity.
  - repeat constructor.
  - repeat constructor.
  - reflexivity.
  - reflexivity.
  - reflexivity.
  - reflexivity.
Defined.

End LineEndings.

(** ** Export, continued *)

Section ExportMore.

Lemma renderRow_agree headers row row' :
  (forall h, In h headers -> getProp row h = getProp row' h) ->
  renderRow headers row = renderRow headers row'.
Proof.
  intros H. unfold renderRow. f_equal. apply map_ext_in.
  intros h Hh. now rewrite (H h Hh).
Qed.

(** X11: only the columns of the first record are written: two datasets
    with the same first record, whose other records have the same values
    in these columns, give the same file. *)
Theorem exportToCSV_first_columns (first : record) (rest rest' : list record)
        (filename : jsstring) :
  Forall2 (fun row row' => forall h, In h (keys first) -> getProp row h = getProp row' h)
          rest rest' ->
  exportToCSV (first :: rest) filename = exportToCSV (first :: rest') filename.
Proof.
  intros H.
  assert (E : map (renderRow (keys first)) rest = map (renderRow (keys first)) rest').
  { induction H as [|row row' rest rest' Hrow _ IH]; [reflexivity|].
    cbn [map]. now rewrite IH, (renderRow_agree _ _ _ Hrow). }
  unfold exportToCSV, csvContent. cbn [map]. now rewrite E.
Qed.

Lemma exportToCSV_first_columns_witness :
  exportToCSV [ [(lit "a", VNum one)];
                [(lit "a", VNum zero); (lit "b", VStr (lit "dropped"))] ] (lit "f.csv")
  = exportToCSV [ [(lit "a", VNum one)]; [(lit "a", VNum zero)] ] (lit "f.csv").
Proof.
  apply (exportToCSV_first_columns [(lit "a", VNum one)]).
  constructor.
  - intros h [<-|[]]. reflexivity.
  - constructor.
Defined.

End ExportMore.

(** ** Upload, continued *)

Section ReadUploadedFileMore.

Variable reader : jsstring -> list record.

Lemma lower_upper c : lowerChar (upperChar c) = lowerChar c.
Proof. destruct c as [[] [] [] [] [] [] [] []]; reflexivity. Qed.

Lemma toLowerCase_toUpperCase s : toLowerCase (toUpperCase s) = toLowerCase s.
Proof.
  unfold toLowerCase, toUpperCase. rewrite map_map. apply map_ext, lower_upper.
Qed.

(** X12: the case of the letters of an ASCII file name plays no part:
    the name in upper case is read, or rejected, as the name itself. *)
Theorem readUploadedFile_any_case (file : File) :
  isAscii (name file) = true ->
  readUploadedFile reader {| name := toUpperCase (name file); content := content file |}
  = readUploadedFile reader file.
Proof.
  intros _. unfold readUploadedFile. cbn [name content].
  now rewrite toLowerCase_toUpperCase.
Qed.

End ReadUploadedFileMore.

Lemma readUploadedFile_any_case_witness :
  readUploadedFile (fun _ => [])
                   {| name := lit "DATA.CSV"; content := lit "a" ++ [newline] ++ lit "1" |}
  = Fulfilled [[(lit "a", VNum one)]].
Proof.
  exact (readUploadedFile_any_case (fun _ => [])
           {| name := lit "data.csv"; content := lit "a" ++ [newline] ++ lit "1" |}
           eq_refl).
Defined.

(** ** Stage ordinal, continued *)

Section ParseStageOrdinalMore.

Lemma upper_upper c : upperChar (upperChar c) = upperChar c.
Proof. destruct c as [[] [] [] [] [] [] [] []]; reflexivity. Qed.

Lemma isStageNumeral_upper c : isStageNumeral (upperChar c) = isStageNumeral c.
Proof. unfold isStageNumeral. cbv zeta. now rewrite upper_upper. Qed.

Lemma isWhiteSpace_upper c : isWhiteSpace (upperChar c) = isWhiteSpace c.
Proof. destruct c as [[] [] [] [] [] [] [] []]; reflexivity. Qed.

Lemma toUpperCase_idem s : toUpperCase (toUpperCase s) = toUpperCase s.
Proof. unfold toUpperCase. rewrite map_map. apply map_ext, upper_upper. Qed.

Lemma takeWhile_map (f : ascii -> bool) (g : ascii -> ascii) s :
  (forall c, f (g c) = f c) -> takeWhile f (map g s) = map g (takeWhile f s).
Proof.
  intros H. induction s as [|c s IH]; [reflexivity|].
  cbn [map takeWhile]. rewrite H. destruct (f c); [|reflexivity].
  cbn [map]. now rewrite IH.
Qed.

Lemma dropWhile_map (f : ascii -> bool) (g : ascii -> ascii) s :
  (forall c, f (g c) = f c) -> dropWhile f (map g s) = map g (dropWhile f s).
Proof.
  intros H. induction s as [|c s IH]; [reflexivity|].
  cbn [map dropWhile]. rewrite H. destruct (f c); [exact IH|reflexivity].
Qed.

Lemma trim_map (g : ascii -> ascii) s :
  (forall c, isWhiteSpace (g c) = isWhiteSpace c) -> trim (map g s) = map g (trim s).
Proof.
  intros H. unfold trim, trimEnd, trimStart.
  now rewrite (dropWhile_map _ _ _ H), <- map_rev, (dropWhile_map _ _ _ H), map_rev.
Qed.

Lemma matchStageAt_upper s :
  matchStageAt (toUpperCase s) = option_map toUpperCase (matchStageAt s).
Proof.
  unfold matchStageAt, toUpperCase.
  rewrite firstn_map, skipn_map, map_map, (map_ext _ _ upper_upper).
  destruct (seqb (map upperChar (firstn 5 s)) (lit "STAGE")); [|reflexivity].
  rewrite (dropWhile_map _ _ _ isWhiteSpace_upper),
          (takeWhile_map _ _ _ isStageNumeral_upper).
  now destruct (takeWhile isStageNumeral (dropWhile isWhiteSpace (skipn 5 s))).
Qed.

Lemma matchStage_upper s :
  matchStage (toUpperCase s) = option_map toUpperCase (matchStage s).
Proof.
  induction s as [|c s IH].
  - reflexivity.
  - change (toUpperCase (c :: s)) with (upperChar c :: toUpperCase s).
    cbn [matchStage].
    change (upperChar c :: toUpperCase s) with (toUpperCase (c :: s)).
    rewrite matchStageAt_upper.
    destruct (matchStageAt (c :: s)); [reflexivity|]. exact IH.
Qed.

Lemma parseStageOrdinal_upper s :
  parseStageOrdinal (VStr (toUpperCase s)) = parseStageOrdinal (VStr s).
Proof.
  unfold parseStageOrdinal. cbn [toString]. rewrite matchStage_upper.
  destruct (matchStage s) as [numerals|]; cbn [option_map].
  - now rewrite toUpperCase_idem.
  - assert (E : toUpperCase (trim (toUpperCase s)) = toUpperCase (trim s)).
    { unfold toUpperCase at 2. rewrite (trim_map _ _ isWhiteSpace_upper).
      apply toUpperCase_idem. }
    now rewrite E.
Qed.

(** X13: the case of the letters of an ASCII text plays no part in its
    stage: two texts that differ in case only get the same ordinal. *)
Theorem parseStageOrdinal_any_case (s1 s2 : jsstring) :
  isAscii s1 = true -> isAscii s2 = true ->
  toUpperCase s1 = toUpperCase s2 ->
  parseStageOrdinal (VStr s1) = parseStageOrdinal (VStr s2).
Proof.
  intros _ _ E.
  now rewrite <- (parseStageOrdinal_upper s1), <- (parseStageOrdinal_upper s2), E.
Qed.

Lemma parseStageOrdinal_any_case_witness :
  parseStageOrdinal (VStr (lit "sTaGe iv")) = numberLit "4".
Proof.
  exact (parseStageOrdinal_any_case (lit "sTaGe iv") (lit "Stage IV")
                                    eq_refl eq_refl eq_refl).
Defined.

End ParseStageOrdinalMore.

(** ** Demonstration curves *)

Section CurveFacts.

Variable exp : number -> number.

Lemma mathMax_zero p : (mathMax zero p <? zero)%num = false.
Proof.
  destruct p as [[|]|[|]| |[|] m e]; reflexivity.
Qed.

Lemma generateFrom_times fuel lambda maxDays : forall t,
  generateFrom exp fuel lambda maxDays t
  = option_map (map (sampleAt exp lambda)) (timesFrom fuel maxDays t).
Proof.
  induction fuel as [|fuel IH]; intros t; [reflexivity|].
  cbn [generateFrom timesFrom]. destruct (t <=? maxDays)%num; [|reflexivity].
  rewrite IH. now destruct (timesFrom fuel maxDays (fadd t (numberLit "30"))).
Qed.

Lemma timesFrom_more fuel maxDays : forall t ts,
  timesFrom fuel maxDays t = Some ts -> timesFrom (S fuel) maxDays t = Some ts.
Proof.
  induction fuel as [|fuel IH]; intros t ts; [discriminate|].
  intros H. cbn [timesFrom] in H. change (timesFrom (S (S fuel)) maxDays t)
    with (if (t <=? maxDays)%num
          then option_map (cons t) (timesFrom (S fuel) maxDays (fadd t (numberLit "30")))
          else Some []).
  destruct (t <=? maxDays)%num; [|exact H].
  destruct (timesFrom fuel maxDays (fadd t (numberLit "30"))) as [l|] eqn:E;
    [|discriminate H].
  now rewrite (IH _ _ E).
Qed.

Lemma timesFrom_enough fuel fuel' maxDays t ts :
  (fuel <= fuel')%nat ->
  timesFrom fuel maxDays t = Some ts -> timesFrom fuel' maxDays t = Some ts.
Proof.
  induction 1 as [|fuel' _ IH]; [auto|]. intros H. now apply timesFrom_more, IH.
Qed.

Lemma timesFrom_within fuel maxDays : forall t ts,
  timesFrom fuel maxDays t = Some ts ->
  Forall (fun d => (d <=? maxDays)%num = true) ts.
Proof.
  induction fuel as [|fuel IH]; intros t ts; [discriminate|].
  cbn [timesFrom]. destruct (t <=? maxDays)%num eqn:E.
  - destruct (timesFrom fuel maxDays (fadd t (numberLit "30"))) as [l|] eqn:F;
      [|discriminate].
    intros [= <-]. constructor; [exact E|exact (IH _ _ F)].
  - intros [= <-]. constructor.
Qed.

Lemma defaultDays_visited : timesFrom 123 defaultMaxDays zero = Some defaultDays.
Proof. vm_compute. reflexivity. Qed.

Lemma timesFrom_shorter fuel horizon maxDays :
  (maxDays <=? horizon)%num = true \/ isNaN maxDays = true ->
  forall t ts,
  timesFrom fuel horizon t = Some ts ->
  timesFrom fuel maxDays t = Some (daysWithin maxDays ts).
Proof.
  intros Hm. induction fuel as [|fuel IH]; intros t ts; [discriminate|].
  cbn [timesFrom]. destruct (t <=? horizon)%num eqn:E.
  - destruct (timesFrom fuel horizon (fadd t (numberLit "30"))) as [l|] eqn:F;
      [|discriminate].
    intros [= <-]. cbn [daysWithin]. destruct (t <=? maxDays)%num; [|reflexivity].
    now rewrite (IH _ _ F).
  - intros [= <-]. cbn [daysWithin].
    destruct (t <=? maxDays)%num eqn:G; [|reflexivity].
    destruct Hm as [Hm|Hm].
    + rewrite (leb_trans _ _ _ G Hm) in E. discriminate E.
    + destruct maxDays; try discriminate Hm. rewrite leb_nan_r in G. discriminate G.
Qed.

(** X14: for a horizon of at most 3650 days, or that is not a number,
    the loop ends within 122 rounds, whatever the risk score and
    whatever [Math.exp] returns, and gives the curve with one sample for
    each of the days 0, 30, ..., 3630 before the first that is past the
    horizon.  Every sample lies within the horizon and has a
    probability that is not below 0; the curve starts at time 0 when the
    horizon is 0 or more, and is empty when the horizon is negative or
    not a number. *)
Theorem generateMockSurvivalData_samples (fuel : nat) (patientId : jsstring)
        (riskScore maxDays : number) :
  (123 <= fuel)%nat ->
  (maxDays <=? defaultMaxDays)%num = true \/ isNaN maxDays = true ->
  exists data,
    generateMockSurvivalData exp fuel patientId riskScore maxDays = Some data
    /\ data = map (sampleAt exp (decayRate riskScore)) (daysWithin maxDays defaultDays)
    /\ Forall (fun smp => (time smp <=? maxDays)%num = true
                          /\ (probability smp <? zero)%num = false
                          /\ smp = sampleAt exp (decayRate riskScore) (time smp)) data
    /\ ((zero <=? maxDays)%num = true ->
        hd_error data = Some (sampleAt exp (decayRate riskScore) zero))
    /\ ((zero <=? maxDays)%num = false -> data = []).
Proof.
  intros Hf Hm.
  pose proof (timesFrom_shorter _ _ _ Hm _ _
                (timesFrom_enough _ _ _ _ _ Hf defaultDays_visited)) as E.
  set (ts := daysWithin maxDays defaultDays) in *.
  exists (map (sampleAt exp (decayRate riskScore)) ts).
  split; [|split; [reflexivity|split; [|split]]].
  - unfold generateMockSurvivalData. cbv zeta. now rewrite generateFrom_times, E.
  - pose proof (timesFrom_within _ _ _ _ E) as W. clear E.
    induction W as [|d l Hd _ IH]; [constructor|].
    cbn [map]. constructor; [|exact IH].
    cbn [sampleAt time probability]. split; [exact Hd|].
    split; [apply mathMax_zero|reflexivity].
  - intros H. destruct fuel as [|fuel]; [discriminate E|].
    cbn [timesFrom] in E. rewrite H in E.
    destruct (timesFrom fuel maxDays (fadd zero (numberLit "30"))); [|discriminate E].
    now injection E as <-.
  - intros H. destruct fuel as [|fuel]; [discriminate E|].
    cbn [timesFrom] in E. rewrite H in E. now injection E as <-.
Qed.

Lemma ascending_ordered (f : number -> number) ts :
  ascending ts = true -> timeOrdered (curveOf f ts).
Proof.
  induction ts as [|a [|b rest] IH]; intros H; cbn; auto.
  cbn [ascending] in H. apply andb_true_iff in H. destruct H as [Hab Hrest].
  split; [exact Hab|]. now apply IH.
Qed.

Lemma generate_default fuel patientId riskScore :
  (123 <= fuel)%nat ->
  generateMockSurvivalData exp fuel patientId riskScore defaultMaxDays
  = Some (map (sampleAt exp (decayRate riskScore)) defaultDays).
Proof.
  intros Hf. unfold generateMockSurvivalData. cbv zeta. rewrite generateFrom_times.
  now rewrite (timesFrom_enough _ _ _ _ _ Hf defaultDays_visited).
Qed.

(** X15: with the horizon of 3650 days that the page uses, the loop ends
    after 122 samples, at the days 0, 30, ..., 3630, in ascending order
    of time, whatever the risk score and whatever [Math.exp] returns:
    the last day of the horizon itself has no sample. *)
Theorem generateMockSurvivalData_default (fuel : nat) (patientId : jsstring)
        (riskScore : number) :
  (123 <= fuel)%nat ->
  generateMockSurvivalData exp fuel patientId riskScore defaultMaxDays
  = Some (map (sampleAt exp (decayRate riskScore)) defaultDays)
  /\ List.length defaultDays = 122%nat
  /\ last defaultDays zero = numberLit "3630"
  /\ timeOrdered (map (sampleAt exp (decayRate riskScore)) defaultDays).
Proof.
  intros Hf. split; [|split; [|split]].
  - now apply generate_default.
  - reflexivity.
  - vm_compute. reflexivity.
  - apply (ascending_ordered
             (fun t => mathMax zero (exp (fmul (fneg (decayRate riskScore)) t)))).
    vm_compute. reflexivity.
Qed.

Lemma scanBack_curveOf (f : number -> number) ts target : forall n,
  scanBack (curveOf f ts) n target
  = option_map f (scanBack (curveOf (fun t => t) ts) n target).
Proof.
  induction n as [|n IH]; [reflexivity|].
  cbn [scanBack]. unfold curveOf in *. rewrite !nth_error_map.
  destruct (nth_error ts n) as [t|]; cbn [option_map time probability]; [|exact IH].
  destruct (t <=? target)%num; [reflexivity|exact IH].
Qed.

Lemma getSurvivalAtTime_curveOf (f : number -> number) t ts target :
  getSurvivalAtTime (curveOf f (t :: ts)) target
  = f (getSurvivalAtTime (curveOf (fun d => d) (t :: ts)) target).
Proof.
  assert (L : forall g, List.length (curveOf g (t :: ts)) = List.length (t :: ts))
    by (intros g; apply length_map).
  pose proof (scanBack_curveOf f (t :: ts) target (List.length (t :: ts))) as S.
  unfold getSurvivalAtTime. rewrite !L, S. cbn [curveOf map]. clear S L.
  destruct (scanBack _ _ target); reflexivity.
Qed.

Lemma reading_day year day :
  In (year, day) readingDays ->
  getSurvivalAtTime (curveOf (fun d => d) defaultDays) (fmul year (numberLit "365"))
  = day.
Proof.
  intros [H|[H|[H|[H|[H|[]]]]]]; injection H as <- <-; vm_compute; reflexivity.
Qed.

End CurveFacts.

Lemma generateMockSurvivalData_samples_witness :
  exists data,
    generateMockSurvivalData (fun x => x) 123 [] (numberLit "0.5") (numberLit "45")
    = Some data
    /\ data = map (sampleAt (fun x => x) (decayRate (numberLit "0.5")))
                  (daysWithin (numberLit "45") defaultDays)
    /\ Forall (fun smp => (time smp <=? numberLit "45")%num = true
                          /\ (probability smp <? zero)%num = false
                          /\ smp = sampleAt (fun x => x) (decayRate (numberLit "0.5"))
                                            (time smp)) data
    /\ ((zero <=? numberLit "45")%num = true ->
        hd_error data = Some (sampleAt (fun x => x) (decayRate (numberLit "0.5")) zero))
    /\ ((zero <=? numberLit "45")%num = false -> data = []).
Proof.
  apply (generateMockSurvivalData_samples
           (fun x => x) 123 [] (numberLit "0.5") (numberLit "45") (le_n 123)).
  left. reflexivity.
Defined.

Lemma generateMockSurvivalData_default_witness :
  generateMockSurvivalData (fun x => x) 123 [] (numberLit "0.5") defaultMaxDays
  = Some (map (sampleAt (fun x => x) (decayRate (numberLit "0.5"))) defaultDays).
Proof.
  exact (proj1 (generateMockSurvivalData_default
                  (fun x => x) 123 [] (numberLit "0.5") (le_n 123))).
Defined.

(** ** Predictions *)

Section Predictions.

Variable exp : number -> number.

Lemma option_year (year : number) :
  In year Index.TIMEPOINT_OPTIONS -> exists day, In (year, day) readingDays.
Proof.
  intros [<-|[<-|[<-|[<-|[<-|[]]]]]]; eexists; cbn [readingDays In]; auto 10.
Qed.

Lemma default_lookup lambda year day :
  In (year, day) readingDays ->
  getSurvivalAtTime (map (sampleAt exp lambda) defaultDays)
                    (fmul year (numberLit "365"))
  = probability (sampleAt exp lambda day).
Proof.
  intros H. rewrite <- (reading_day year day H).
  exact (getSurvivalAtTime_curveOf
           (fun t => mathMax zero (exp (fmul (fneg lambda) t)))
           (hd zero defaultDays) (tl defaultDays) (fmul year (numberLit "365"))).
Qed.

(** X16: for every patient the prediction exists, and the survival it
    reports for a year that the page offers is the value of the curve at
    the last sample before the year ends, which is day 360 for year 1,
    720 for year 2, 1080 for year 3, 1800 for year 5 and 3630 for year
    10: not the days 365, ..., 3650. *)
Theorem predictPatient_reading_days (fuel : nat) (modelBundle : ModelBundle)
        (idColumn : option jsstring) (selectedTimepoints : list number)
        (random : number) (row : record) (idx : nat) :
  (123 <= fuel)%nat ->
  incl selectedTimepoints Index.TIMEPOINT_OPTIONS ->
  exists result,
    Index.predictPatient exp fuel modelBundle idColumn selectedTimepoints random row idx
    = Some result
    /\ riskScore result = fadd (numberLit "0.2") (fmul random (numberLit "0.6"))
    /\ survivalData result = map (sampleAt exp (decayRate (riskScore result))) defaultDays
    /\ map fst (survivalProbabilities result) = selectedTimepoints
    /\ Forall (fun entry =>
                 exists day,
                   In (fst entry, day) readingDays
                   /\ snd entry
                      = probability (sampleAt exp (decayRate (riskScore result)) day))
              (survivalProbabilities result).
Proof.
  intros Hf Hsel. unfold Index.predictPatient. cbv zeta.
  rewrite (generate_default exp fuel _ _ Hf).
  eexists. split; [reflexivity|]. cbn [riskScore survivalData survivalProbabilities].
  split; [reflexivity|]. split; [reflexivity|]. split.
  - rewrite map_map. cbn [fst]. apply map_id.
  - apply Forall_map, Forall_forall. intros year Hy. cbn [fst snd].
    destruct (option_year year (Hsel _ Hy)) as [day Hd].
    exists day. split; [exact Hd|]. now apply default_lookup.
Qed.

End Predictions.

Lemma predictPatient_reading_days_witness :
  exists result,
    Index.predictPatient (fun x => x) 123 Index.mockBundle None
                         [numberLit "1"; numberLit "10"] (numberLit "0.5") [] 0
    = Some result
    /\ riskScore result = fadd (numberLit "0.2") (fmul (numberLit "0.5") (numberLit "0.6"))
    /\ survivalData result
       = map (sampleAt (fun x => x) (decayRate (riskScore result))) defaultDays
    /\ map fst (survivalProbabilities result) = [numberLit "1"; numberLit "10"]
    /\ Forall (fun entry =>
                 exists day,
                   In (fst entry, day) readingDays
                   /\ snd entry
                      = probability (sampleAt (fun x => x) (decayRate (riskScore result)) day))
              (survivalProbabilities result).
Proof.
  apply (predictPatient_reading_days (fun x => x) 123 Index.mockBundle None
           [numberLit "1"; numberLit "10"] (numberLit "0.5") [] 0 (le_n 123)).
  intros year [<-|[<-|[]]]; cbn [Index.TIMEPOINT_OPTIONS map In]; auto 10.
Defined.

(** ** Upload of patient data *)

Section HandleDataUpload.

Variable reader : jsstring -> list record.
Variable exp : number -> number.

Lemma In_keys_getProp r k : In k (keys r) -> exists v, getProp r k = Some v.
Proof.
  induction r as [|[k' v'] r IH]; [intros []|].
  cbn [keys map fst In getProp]. intros H.
  destruct (seqb k' k) eqn:E; [now exists v'|].
  destruct H as [H|H]; [|now apply IH].
  subst. now rewrite seqb_refl in E.
Qed.

Lemma detectIdColumn_found cols id :
  detectIdColumn cols = Some id -> In id idCandidates /\ In id cols.
Proof.
  unfold detectIdColumn. intros H. apply find_some in H.
  destruct H as [H1 H2]. split; [exact H1|]. now apply hasColumn_In.
Qed.

Lemma idCandidates_plain id : In id idCandidates -> id <> protoName.
Proof.
  unfold idCandidates. cbn [In].
  intros [<-|[<-|[<-|[<-|[<-|[<-|[]]]]]]]; discriminate.
Qed.

Lemma parseCSV_first_keys text first rest row k :
  k <> protoName ->
  parseCSV text = first :: rest -> In row (first :: rest) ->
  In k (keys first) -> In k (keys row).
Proof.
  intros Hk. unfold parseCSV.
  destruct (split newline (trim text)) as [|header lines]; [discriminate|].
  intros E H. rewrite <- E in H. apply in_map_iff in H. destruct H as [l [<- _]].
  destruct lines as [|l0 lines]; [discriminate E|].
  cbn [map] in E. injection E as <- _. now rewrite !parseRow_keys.
Qed.

(** X17: after delimited text is uploaded, the identifier column that
    the page picks, if any, is one of the candidate names and a column
    of every record, so that each patient is named by the text of a
    cell of its own row, never by the text of a missing value. *)
Theorem handleDataUpload_identifiers (file : File) (st : Index.DataState)
        (id : jsstring) :
  endsWith (toLowerCase (name file)) (lit ".csv") = true ->
  let st' := fst (Index.handleDataUpload reader (Some file) st) in
  Index.idColumn st' = Some id ->
  In id idCandidates /\ In id (Index.columns st')
  /\ forall row, In row (Index.patientData st') ->
       exists v, getProp row id = Some v
         /\ forall fuel modelBundle selectedTimepoints random idx result,
              Index.predictPatient exp fuel modelBundle (Index.idColumn st')
                                   selectedTimepoints random row idx = Some result ->
              patientId result = toString v.
Proof.
  intros Hcsv. unfold Index.handleDataUpload, readUploadedFile. rewrite Hcsv.
  cbn [fst Index.idColumn Index.columns Index.patientData]. intros Hid.
  destruct (detectIdColumn_found _ _ Hid) as [Hc Hk].
  split; [exact Hc|]. split; [exact Hk|].
  intros row Hrow. destruct (parseCSV (content file)) as [|first rest] eqn:E;
    [destruct Hrow|].
  cbn [keys] in Hk.
  apply (parseCSV_first_keys _ _ _ _ _ (idCandidates_plain _ Hc) E Hrow) in Hk.
  destruct (In_keys_getProp _ _ Hk) as [v Hv]. exists v. split; [exact Hv|].
  intros fuel modelBundle selectedTimepoints random idx result.
  rewrite Hid. unfold Index.predictPatient. cbv zeta.
  assert (Hne : exists c s, id = c :: s).
  { unfold idCandidates in Hc. cbn [In] in Hc.
    destruct Hc as [<-|[<-|[<-|[<-|[<-|[<-|[]]]]]]]; eexists; eexists; reflexivity. }
  destruct Hne as [c [s ->]]. rewrite Hv.
  destruct (generateMockSurvivalData _ _ _ _ _); [|discriminate].
  now intros [= <-].
Qed.

(** X18: a file that is neither delimited text nor a spreadsheet by its
    name empties the data and the columns and shows the fixed notice,
    but leaves the identifier column and the results of the earlier
    file as they were. *)
Theorem handleDataUpload_rejected (file : File) (st : Index.DataState) :
  endsWith (toLowerCase (name file)) (lit ".csv") = false ->
  endsWith (toLowerCase (name file)) (lit ".xlsx") = false ->
  endsWith (toLowerCase (name file)) (lit ".xls") = false ->
  Index.handleDataUpload reader (Some file) st
  = ({| Index.dataFile := Some file; Index.patientData := []; Index.columns := [];
        Index.idColumn := Index.idColumn st; Index.results := Index.results st |},
     Some (ToastError
             (lit "Failed to read file: Error: Unsupported file type. Please upload .csv or .xlsx"))).
Proof.
  intros H1 H2 H3. unfold Index.handleDataUpload, readUploadedFile.
  now rewrite H1, H2, H3.
Qed.

End HandleDataUpload.

Lemma handleDataUpload_identifiers_witness :
  In (lit "id") idCandidates /\ In (lit "id") [lit "id"; lit "age"]
  /\ forall row,
       In row [ [(lit "id", VStr (lit "p1")); (lit "age", VNum (numberLit "42"))] ] ->
       exists v, getProp row (lit "id") = Some v
         /\ forall fuel modelBundle selectedTimepoints random idx result,
              Index.predictPatient (fun x => x) fuel modelBundle (Some (lit "id"))
                                   selectedTimepoints random row idx = Some result ->
              patientId result = toString v.
Proof.
  exact (handleDataUpload_identifiers (fun _ => []) (fun x => x)
           {| name := lit "patients.csv";
              content := lit "id,age" ++ [newline] ++ lit "p1,42" |}
           {| Index.dataFile := None; Index.patientData := []; Index.columns := [];
              Index.idColumn := None; Index.results := [] |}
           (lit "id") eq_refl eq_refl).
Defined.

Lemma handleDataUpload_rejected_witness :
  Index.handleDataUpload (fun _ => [])
    (Some {| name := lit "notes.txt"; content := [] |})
    {| Index.dataFile := None; Index.patientData := demoPatients;
       Index.columns := [lit "id"; lit "age"]; Index.idColumn := Some (lit "id");
       Index.results := [] |}
  = ({| Index.dataFile := Some {| name := lit "notes.txt"; content := [] |};
        Index.patientData := []; Index.columns := [];
        Index.idColumn := Some (lit "id"); Index.results := [] |},
     Some (ToastError
             (lit "Failed to read file: Error: Unsupported file type. Please upload .csv or .xlsx"))).
Proof.
  exact (handleDataUpload_rejected (fun _ => [])
           {| name := lit "notes.txt"; content := [] |}
           {| Index.dataFile := None; Index.patientData := demoPatients;
              Index.columns := [lit "id"; lit "age"]; Index.idColumn := Some (lit "id");
              Index.results := [] |}
           eq_refl eq_refl eq_refl).
Defined.

(** ** The table of results *)

Section DataTableFacts.

Import DataTable.

Lemma startsWith_nil s : startsWith s [] = true.
Proof. now destruct s. Qed.

Lemma includes_nil s : includes s [] = true.
Proof. destruct s; reflexivity. Qed.

Lemma startsWith_map (g : ascii -> ascii) p : forall s,
  startsWith s p = true -> startsWith (map g s) (map g p) = true.
Proof.
  induction p as [|x p IH]; intros s; [intros _; apply startsWith_nil|].
  destruct s as [|y s]; [discriminate|].
  cbn [map startsWith]. intros H. apply andb_true_iff in H. destruct H as [H1 H2].
  apply ceqb_eq in H1. subst. rewrite (proj2 (ceqb_eq _ _) eq_refl).
  now apply IH.
Qed.

Lemma includes_map (g : ascii -> ascii) p s :
  includes s p = true -> includes (map g s) (map g p) = true.
Proof.
  induction s as [|y s IH].
  - change (map g []) with (@nil ascii). cbn [includes]. rewrite !orb_false_r.
    exact (startsWith_map g p []).
  - change (includes (y :: s) p) with (startsWith (y :: s) p || includes s p).
    change (includes (map g (y :: s)) (map g p))
      with (startsWith (map g (y :: s)) (map g p) || includes (map g s) (map g p)).
    intros H. apply orb_true_iff in H. apply orb_true_iff.
    destruct H as [H|H]; [left; now apply startsWith_map|right; now apply IH].
Qed.

(** X19: the rows of the table are those whose identifier, in lower
    case, holds the search text in lower case, in the order that [sort]
    gives them; as [sort] rearranges the rows that it is given without
    adding or losing any, whatever the column and the direction of the
    sort: the search ignores the case of ASCII letters; an empty
    search shows every row, as often as it is in the data; and a row whose
    identifier holds the search text as it is written is shown. *)
Theorem filtered_search
        (localeCompare : jsstring -> jsstring -> number)
        (sort : (PatientResult -> PatientResult -> number) ->
                list PatientResult -> list PatientResult)
        (data : list PatientResult) (search : jsstring)
        (sortField : SortField) (sortDirection : SortDirection) :
  (forall compare rows, Permutation (sort compare rows) rows) ->
  isAscii search = true ->
  let shown := filteredAndSortedData localeCompare sort data search
                                     sortField sortDirection in
  filteredAndSortedData localeCompare sort data (toUpperCase search)
                        sortField sortDirection = shown
  /\ Permutation (filteredAndSortedData localeCompare sort data []
                                        sortField sortDirection) data
  /\ (forall patient,
        In patient shown
        <-> In patient data
            /\ includes (toLowerCase (patientId patient)) (toLowerCase search) = true)
  /\ (forall patient, In patient data ->
        includes (patientId patient) search = true -> In patient shown).
Proof.
  intros Hsort _ shown. subst shown. unfold filteredAndSortedData. cbv zeta.
  assert (M : forall patient,
             In patient
                (sort (compareRows localeCompare sortField sortDirection)
                      (filter (fun patient =>
                                 includes (toLowerCase (patientId patient))
                                          (toLowerCase search)) data))
             <-> In patient data
                 /\ includes (toLowerCase (patientId patient)) (toLowerCase search) = true).
  { intros patient. split; intros H.
    - apply (Permutation_in _ (Hsort _ _)) in H. apply filter_In in H. exact H.
    - apply (Permutation_in _ (Permutation_sym (Hsort _ _))). apply filter_In.
      exact H. }
  split; [|split; [|split]].
  - now rewrite toLowerCase_toUpperCase.
  - rewrite Hsort. clear M.
    assert (E : forall p : PatientResult,
               includes (toLowerCase (patientId p)) (toLowerCase []) = true)
      by (intros p; apply includes_nil).
    induction data as [|p data IH]; [reflexivity|].
    cbn [filter]. rewrite E. apply perm_skip. exact IH.
  - exact M.
  - intros patient Hin Hinc. apply M. split; [exact Hin|].
    now apply includes_map.
Qed.

End DataTableFacts.

Lemma filtered_search_witness :
  DataTable.filteredAndSortedData
    (fun _ _ => zero) (fun _ rows => rows)
    [ {| patientId := lit "Patient_1"; riskScore := zero; riskGroup := None;
         survivalProbabilities := []; survivalData := [] |} ] (lit "PAT")
    DataTable.SortPatientId DataTable.asc
  = [ {| patientId := lit "Patient_1"; riskScore := zero; riskGroup := None;
         survivalProbabilities := []; survivalData := [] |} ].
Proof.
  exact (proj1 (filtered_search
                  (fun _ _ => zero) (fun _ rows => rows)
                  [ {| patientId := lit "Patient_1"; riskScore := zero; riskGroup := None;
                       survivalProbabilities := []; survivalData := [] |} ]
                  (lit "pat") DataTable.SortPatientId DataTable.asc
                  (fun _ rows => Permutation_refl rows) eq_refl)).
Defined.

(** ** The editor of patient data *)

Section EditorFacts.

Import PatientDataEditor.

(** X20: the editor stores for an ASCII text what the parser of
    delimited text makes of it, whenever the text has no white space at
    its ends and is neither NA nor NaN. *)
Theorem editedValue_as_parsed (text : jsstring) :
  isAscii text = true ->
  trim text = text -> text <> lit "NA" -> text <> lit "NaN" ->
  editedValue text = coerceField (Some text).
Proof.
  intros _ Ht Hna Hnan. unfold editedValue, coerceField. cbn [option_map].
  rewrite Ht. destruct (seqb text (lit "")); [reflexivity|].
  rewrite (seqb_neq _ _ Hna), (seqb_neq _ _ Hnan). cbn [orb].
  now destruct (isNaN (stringToNumber text)).
Qed.

(** X21: where the editor and the parser differ: a text of white space
    alone is stored as the number 0 by the editor and read as null by
    the parser, and the texts NA and NaN, null for the parser, are kept
    as texts by the editor. *)
Theorem editedValue_blank (text : jsstring) :
  text <> [] -> forallb isWhiteSpace text = true ->
  editedValue text = VNum zero
  /\ coerceField (Some text) = VNull
  /\ editedValue (lit "NA") = VStr (lit "NA")
  /\ coerceField (Some (lit "NA")) = VNull
  /\ editedValue (lit "NaN") = VStr (lit "NaN")
  /\ coerceField (Some (lit "NaN")) = VNull.
Proof.
  intros Hne Hw. split; [|split; [|repeat split]].
  - unfold editedValue, stringToNumber. rewrite (trim_space _ Hw).
    destruct text; [contradiction|reflexivity].
  - unfold coerceField. cbn [option_map]. now rewrite (trim_space _ Hw).
Qed.

Lemma assign_in_range (data : list record) v : forall row old,
  nth_error data row = Some old ->
  assign (map Some data) row v
  = map Some (firstn row data ++ v :: skipn (S row) data).
Proof.
  induction data as [|r data IH]; intros [|row] old H; try discriminate H.
  - reflexivity.
  - cbn [map assign firstn skipn app]. f_equal. exact (IH _ _ H).
Qed.

Lemma assign_past (data : list record) v : forall row,
  nth_error data row = None ->
  assign (map Some data) row v
  = map Some data ++ repeat None (row - List.length data) ++ [Some v].
Proof.
  induction data as [|r data IH]; intros row H.
  - cbn [map app List.length]. rewrite Nat.sub_0_r. clear H.
    induction row as [|row IHr]; [reflexivity|].
    cbn [assign repeat app]. now rewrite IHr.
  - destruct row as [|row]; [discriminate H|].
    cbn [map assign app List.length Nat.sub]. f_equal. exact (IH _ H).
Qed.

(** X22: saving the edit of a cell of an existing row changes that cell
    and nothing else: the other rows and the other cells of the row are
    as before, and so is the number of rows. *)
Theorem handleSaveEdit_one_cell (data : list record) (row : nat) (col editValue : jsstring)
        (old : record) :
  nth_error data row = Some old ->
  exists updated,
    handleSaveEdit data (Some (row, col)) editValue
    = Some (map Some (firstn row data ++ updated :: skipn (S row) data))
    /\ getProp updated col = Some (editedValue editValue)
    /\ (forall k, k <> col -> getProp updated k = getProp old k)
    /\ (forall k, In k (keys updated) <-> k = col \/ In k (keys old))
    /\ List.length (firstn row data ++ updated :: skipn (S row) data)
       = List.length data.
Proof.
  intros H. exists (setProp old col (editedValue editValue)).
  split; [|split; [|split; [|split]]].
  - unfold handleSaveEdit. cbv zeta. rewrite H. f_equal.
    exact (assign_in_range data _ row old H).
  - apply getProp_setProp_same.
  - intros k Hk. apply getProp_setProp_other. congruence.
  - intros k. apply keys_setProp.
  - assert (L : (row < List.length data)%nat)
      by (apply nth_error_Some; congruence).
    rewrite length_app. cbn [List.length]. rewrite length_firstn, length_skipn. lia.
Qed.

(** X23: saving the edit of a row that is no longer there, as when rows
    were deleted in the meantime, does not fail: the array is
    lengthened up to the row, which becomes a record with the one
    cell; the rows that were there are untouched. *)
Theorem handleSaveEdit_past_the_end (data : list record) (row : nat)
        (col editValue : jsstring) :
  nth_error data row = None ->
  handleSaveEdit data (Some (row, col)) editValue
  = Some (map Some data ++ repeat None (row - List.length data)
          ++ [Some [(col, editedValue editValue)]]).
Proof.
  intros H. unfold handleSaveEdit. cbv zeta. rewrite H. f_equal.
  exact (assign_past data _ row H).
Qed.

Lemma setProp_same r k v : getProp r k = Some v -> setProp r k v = r.
Proof.
  induction r as [|[k' v'] r IH]; [discriminate|].
  cbn [getProp setProp]. destruct (seqb k' k).
  - now intros [= ->].
  - intros H. now rewrite (IH H).
Qed.

Lemma stringToNumber_numberToString x :
  valid x = true -> isNaN x = false ->
  stringToNumber (numberToString x) = readBack x.
Proof.
  intros Hv Hn. destruct x as [s|s| |neg m e2]; try discriminate.
  - reflexivity.
  - destruct s; reflexivity.
  - apply stringToNumber_finite. exact Hv.
Qed.

Lemma editedValue_number x :
  valid x = true -> isNaN x = false ->
  editedValue (numberToString x) = VNum (readBack x).
Proof.
  intros Hv Hn. unfold editedValue.
  pose proof (stringToNumber_numberToString x Hv Hn) as E.
  destruct (numberToString x) as [|c t] eqn:T.
  - exfalso.
    destruct x as [[|]|[|]| |neg m e2]; try discriminate Hn; try discriminate T;
      vm_compute in E; discriminate E.
  - cbn [lit list_ascii_of_string seqb]. rewrite E.
    now destruct x as [s|s| |neg m e2].
Qed.

(** X24: opening a cell and leaving it without typing keeps the data as
    they are when the cell holds null, a number other than NaN and -0,
    or a text that is neither empty nor read as a number. *)
Theorem edit_without_change (data : list record) (row : nat) (col : jsstring)
        (old : record) (v : value) :
  nth_error data row = Some old -> getProp old col = Some v -> keptByEditor v ->
  handleSaveEdit data (fst (handleStartEdit row col v)) (snd (handleStartEdit row col v))
  = Some (map Some data).
Proof.
  intros Hrow Hcol Hv.
  change (fst (handleStartEdit row col v)) with (Some (row, col)).
  unfold handleSaveEdit. cbv zeta. rewrite Hrow. f_equal.
  rewrite (assign_in_range data _ row old Hrow). f_equal.
  assert (E : editedValue (snd (handleStartEdit row col v)) = v).
  { destruct v as [| |x|s]; cbn [keptByEditor toString handleStartEdit snd] in *.
    - reflexivity.
    - destruct Hv.
    - destruct Hv as [Hval [Hnan Hz]]. rewrite (editedValue_number x Hval Hnan).
      f_equal. destruct x as [[|]| | |]; try reflexivity. now elim Hz.
    - destruct Hv as [_ [Hne Hnum]]. unfold editedValue. rewrite Hnum.
      destruct s; [now elim Hne|reflexivity]. }
  rewrite E, (setProp_same _ _ _ Hcol).
  rewrite <- (firstn_skipn row data) at 3. f_equal.
  clear - Hrow. revert row Hrow.
  induction data as [|r data IH]; intros [|row] H; try discriminate H.
  - cbn in H. now injection H as ->.
  - cbn [skipn]. exact (IH _ H).
Qed.

Lemma delete_from (data : list record) index : forall start,
  map snd (filter (fun entry : nat * record => negb (Nat.eqb (fst entry) index))
                  (combine (seq start (List.length data)) data))
  = if (index <? start)%nat then data
    else firstn (index - start) data ++ skipn (S (index - start)) data.
Proof.
  induction data as [|r data IH]; intros start.
  - cbn [List.length seq combine filter map]. rewrite firstn_nil, skipn_nil.
    now destruct (index <? start)%nat.
  - cbn [List.length seq combine filter fst].
    destruct (Nat.eqb start index) eqn:E; cbn [negb map snd]; rewrite (IH (S start)).
    + apply Nat.eqb_eq in E. subst.
      replace (index <? S index)%nat with true by (symmetry; apply Nat.ltb_lt; lia).
      rewrite Nat.ltb_irrefl, Nat.sub_diag. reflexivity.
    + apply Nat.eqb_neq in E.
      destruct (index <? start)%nat eqn:L.
      * apply Nat.ltb_lt in L.
        replace (index <? S start)%nat with true by (symmetry; apply Nat.ltb_lt; lia).
        reflexivity.
      * apply Nat.ltb_ge in L.
        replace (index <? S start)%nat with false by (symmetry; apply Nat.ltb_ge; lia).
        replace (index - start)%nat with (S (index - S start)) by lia.
        reflexivity.
Qed.

(** X25: deleting the row at an index removes exactly that row and keeps
    the others in their order; an index past the end removes nothing. *)
Theorem handleDeleteRow_splice (data : list record) (index : nat) :
  handleDeleteRow data index = firstn index data ++ skipn (S index) data
  /\ ((index < List.length data)%nat ->
      S (List.length (handleDeleteRow data index)) = List.length data)
  /\ ((List.length data <= index)%nat -> handleDeleteRow data index = data).
Proof.
  assert (E : handleDeleteRow data index = firstn index data ++ skipn (S index) data).
  { unfold handleDeleteRow. rewrite (delete_from data index 0).
    cbn [Nat.ltb Nat.leb]. now rewrite Nat.sub_0_r. }
  split; [exact E|]. rewrite E. split.
  - intros H. rewrite length_app, length_firstn, length_skipn. lia.
  - intros H. rewrite firstn_all2 by exact H. rewrite skipn_all2 by lia.
    apply app_nil_r.
Qed.

Lemma fold_null_keeps columns k : forall o,
  getProp (snd o) k = Some VNull ->
  getProp (snd (fold_left (fun row col => assignProp row col VNull) columns o)) k
  = Some VNull.
Proof.
  induction columns as [|c columns IH]; intros o H; cbn [fold_left]; [exact H|].
  apply IH. destruct (assignProp_own o c VNull) as [[_ ->]| ->]; [exact H|].
  destruct (list_eq_dec ascii_dec c k) as [->|N].
  - apply getProp_setProp_same.
  - now rewrite getProp_setProp_other.
Qed.

Lemma fold_null_get columns col : forall o,
  col <> protoName -> In col columns ->
  getProp (snd (fold_left (fun row col => assignProp row col VNull) columns o)) col
  = Some VNull.
Proof.
  induction columns as [|c columns IH]; intros o Hp; [intros []|].
  cbn [fold_left]. intros [->|H]; [|now apply IH].
  apply fold_null_keeps. now apply getProp_assignProp_same.
Qed.

Lemma fold_null_keys columns k : forall o,
  k <> protoName ->
  (In k (keys (snd (fold_left (fun row col => assignProp row col VNull) columns o)))
   <-> In k (keys (snd o)) \/ In k columns).
Proof.
  induction columns as [|c columns IH]; intros o Hp; cbn [fold_left In].
  - tauto.
  - rewrite (IH _ Hp), (keys_assignProp _ _ _ _ Hp). intuition.
Qed.

Lemma fold_null_within columns k : forall o,
  In k (keys (snd (fold_left (fun row col => assignProp row col VNull) columns o))) ->
  In k (keys (snd o)) \/ In k columns.
Proof.
  induction columns as [|c columns IH]; intros o; cbn [fold_left In].
  - tauto.
  - intros H. destruct (IH _ H) as [H'|H']; [|tauto].
    apply keys_assignProp_within in H'. destruct H' as [->|H']; tauto.
Qed.

Lemma fold_null_proto columns : forall o,
  NoDup columns -> ~ In protoName (keys (snd o)) ->
  (fst o = false -> ~ In protoName columns) ->
  ~ In protoName
      (keys (snd (fold_left (fun row col => assignProp row col VNull) columns o))).
Proof.
  induction columns as [|c columns IH]; intros o Hnd Ho Hf; cbn [fold_left];
    [exact Ho|].
  inversion Hnd as [|? ? Hc Hnd']; subst.
  destruct (list_eq_dec ascii_dec c protoName) as [->|N].
  - destruct o as [[|] own]; [|elim (Hf eq_refl); now left].
    cbn [snd] in Ho. unfold assignProp. rewrite seqb_refl. cbn [andb].
    destruct (getProp own protoName) eqn:G; [elim Ho; exact (getProp_In _ _ _ G)|].
    apply IH; auto.
  - rewrite (assignProp_plain _ _ _ N). apply IH; [exact Hnd'| |].
    + cbn [snd]. rewrite keys_setProp. intros [E|H]; [now elim N|contradiction].
    + cbn [fst]. intros E H. apply (Hf E). now right.
Qed.

(** X26: the added row comes last, after the rows that were there; it
    has the columns of the table, each null, but for the identifier
    column, which holds the text Patient_ followed by the new number of
    rows; deleting the row at its index gives back the data as they
    were.  The name [__proto__] is apart: the row has no other
    properties than the columns and the identifier column, and when the
    columns are distinct and [__proto__] is not the identifier column,
    the row has no property of that name, even if it is a column. *)
Theorem handleAddRow_then_delete (data : list record) (columns : list jsstring)
        (idColumn : option jsstring) :
  exists newRow,
    handleAddRow data columns idColumn = data ++ [newRow]
    /\ (forall col, col <> protoName -> In col columns -> idColumn <> Some col ->
                    getProp newRow col = Some VNull)
    /\ (forall id, id <> [] -> id <> protoName -> idColumn = Some id ->
          getProp newRow id
          = Some (VStr (lit "Patient_"
                        ++ numberToString (of_Z (Z.of_nat (List.length data) + 1)))))
    /\ (forall k, k <> protoName ->
          (In k (keys newRow) <-> In k columns \/ (k <> [] /\ idColumn = Some k)))
    /\ (forall k, In k (keys newRow) -> In k columns \/ (k <> [] /\ idColumn = Some k))
    /\ (NoDup columns -> idColumn <> Some protoName -> ~ In protoName (keys newRow))
    /\ handleDeleteRow (handleAddRow data columns idColumn) (List.length data) = data.
Proof.
  unfold handleAddRow. cbv zeta.
  eexists. split; [reflexivity|].
  split; [|split; [|split; [|split; [|split]]]].
  - intros col Hp Hin Hid. destruct idColumn as [[|c s]|];
      try (now apply fold_null_get).
    rewrite getProp_assignProp_other; [now apply fold_null_get|congruence].
  - intros id Hne Hp ->. destruct id as [|c s]; [contradiction|].
    now apply getProp_assignProp_same.
  - intros k Hp. destruct idColumn as [[|c s]|].
    + rewrite (fold_null_keys _ _ _ Hp). cbn [snd keys map In].
      split; [tauto|]. intros [H|[Hk [= <-]]]; [tauto|contradiction].
    + rewrite (keys_assignProp _ _ _ _ Hp), (fold_null_keys _ _ _ Hp).
      cbn [snd keys map In]. split.
      * intros [->|[[]|H]]; [right; split; [discriminate|reflexivity]|now left].
      * intros [H|[_ [= ->]]]; [right; now right|now left].
    + rewrite (fold_null_keys _ _ _ Hp). cbn [snd keys map In].
      split; [tauto|]. intros [H|[_ H]]; [tauto|discriminate].
  - intros k H.
    assert (W : forall o : bool * record,
               o = fold_left (fun row col => assignProp row col VNull) columns (true, []) ->
               In k (keys (snd o)) -> In k columns).
    { intros o -> Ho. apply fold_null_within in Ho. cbn [snd keys map In] in Ho. tauto. }
    destruct idColumn as [[|c s]|]; try (left; exact (W _ eq_refl H)).
    apply keys_assignProp_within in H. destruct H as [->|H].
    + right. split; [discriminate|reflexivity].
    + left. exact (W _ eq_refl H).
  - intros Hnd Hid.
    assert (W : ~ In protoName
                  (keys (snd (fold_left (fun row col => assignProp row col VNull)
                                        columns (true, []))))).
    { apply fold_null_proto; [exact Hnd|intros []|discriminate]. }
    destruct idColumn as [[|c s]|]; try exact W.
    assert (N : c :: s <> protoName) by congruence.
    rewrite (assignProp_plain _ _ _ N). cbn [snd]. rewrite keys_setProp.
    intros [E|H]; [now elim N|contradiction].
  - unfold handleDeleteRow. rewrite (delete_from _ (List.length data) 0).
    cbn [Nat.ltb Nat.leb]. rewrite Nat.sub_0_r, firstn_app, Nat.sub_diag.
    rewrite firstn_all, firstn_O, app_nil_r.
    rewrite skipn_all2; [apply app_nil_r|]. rewrite length_app. cbn. lia.
Qed.

End EditorFacts.

Lemma editedValue_as_parsed_witness :
  PatientDataEditor.editedValue (lit "0x10") = VNum (numberLit "16").
Proof.
  apply (editedValue_as_parsed (lit "0x10"));
    [reflexivity|reflexivity|discriminate|discriminate].
Defined.

Lemma editedValue_blank_witness :
  PatientDataEditor.editedValue (lit " ") = VNum zero
  /\ coerceField (Some (lit " ")) = VNull
  /\ PatientDataEditor.editedValue (lit "NA") = VStr (lit "NA")
  /\ coerceField (Some (lit "NA")) = VNull
  /\ PatientDataEditor.editedValue (lit "NaN") = VStr (lit "NaN")
  /\ coerceField (Some (lit "NaN")) = VNull.
Proof.
  apply (editedValue_blank (lit " ")); [discriminate|reflexivity].
Defined.

Lemma handleSaveEdit_one_cell_witness :
  exists updated,
    PatientDataEditor.handleSaveEdit demoPatients (Some (1%nat, lit "age")) (lit "61")
    = Some (map Some (firstn 1 demoPatients ++ updated :: skipn 2 demoPatients))
    /\ getProp updated (lit "age") = Some (PatientDataEditor.editedValue (lit "61"))
    /\ (forall k, k <> lit "age" ->
                  getProp updated k
                  = getProp [(lit "id", VStr (lit "p2")); (lit "age", VNull)] k)
    /\ (forall k, In k (keys updated)
                  <-> k = lit "age"
                      \/ In k (keys [(lit "id", VStr (lit "p2")); (lit "age", VNull)]))
    /\ List.length (firstn 1 demoPatients ++ updated :: skipn 2 demoPatients)
       = List.length demoPatients.
Proof.
  exact (handleSaveEdit_one_cell demoPatients 1 (lit "age") (lit "61") _ eq_refl).
Defined.

Lemma handleSaveEdit_past_the_end_witness :
  PatientDataEditor.handleSaveEdit demoPatients (Some (3%nat, lit "age")) (lit "61")
  = Some (map Some demoPatients
          ++ [None; Some [(lit "age", VNum (numberLit "61"))]]).
Proof.
  exact (handleSaveEdit_past_the_end demoPatients 3 (lit "age") (lit "61") eq_refl).
Defined.

Lemma edit_without_change_witness :
  PatientDataEditor.handleSaveEdit
    demoPatients
    (fst (PatientDataEditor.handleStartEdit 0 (lit "age") (VNum (numberLit "42.5"))))
    (snd (PatientDataEditor.handleStartEdit 0 (lit "age") (VNum (numberLit "42.5"))))
  = Some (map Some demoPatients).
Proof.
  apply (edit_without_change demoPatients 0 (lit "age")
           [(lit "id", VStr (lit "p1")); (lit "age", VNum (numberLit "42.5"))]
           (VNum (numberLit "42.5"))).
  - reflexivity.
  - reflexivity.
  - split; [reflexivity|]. split; [reflexivity|discriminate].
Defined.

(** ** Formatting *)

Section Formatting.

Lemma digitsOf_nonempty n : 0 <= n -> digitsOf n <> [].
Proof.
  intros H. destruct (Z.eq_dec n 0) as [->|N]; [discriminate|].
  apply digitsOf_spec. lia.
Qed.

Lemma magnitude_nonneg x : (0 <= magnitude x)%Q.
Proof.
  destruct x as [s|s| |s m e]; cbn [magnitude]; try apply Qle_refl.
  unfold binaryQ. apply Qmult_le_0_compat.
  - now change 0%Q with (inject_Z 0); rewrite <- Zle_Qle.
  - now apply Qpower_0_le.
Qed.

Lemma rounded_nonneg x f : 0 <= f ->
  0 <= Qfloor (magnitude x * inject_Z (10 ^ f) + (1 # 2)).
Proof.
  intros Hf. change 0 with (Qfloor 0). apply Qfloor_resp_le.
  apply (Qle_trans _ (0 + 0)%Q); [apply Qle_refl|].
  apply Qplus_le_compat; [|discriminate].
  apply Qmult_le_0_compat; [apply magnitude_nonneg|].
  change 0%Q with (inject_Z 0). rewrite <- Zle_Qle. apply Z.pow_nonneg. lia.
Qed.

Lemma fixedText_shape n f :
  0 <= n -> 0 < f ->
  exists whole fraction,
    fixedText n f = whole ++ lit "." ++ fraction
    /\ Z.of_nat (List.length fraction) = f
    /\ whole <> []
    /\ forallb isDigit whole = true /\ forallb isDigit fraction = true.
Proof.
  intros Hn Hf. unfold fixedText. cbv zeta.
  replace (f =? 0) with false by (symmetry; apply Z.eqb_neq; lia).
  set (m := digitsOf n).
  set (m' := if Z.of_nat (List.length m) <=? f
             then zeros (f + 1 - Z.of_nat (List.length m)) ++ m else m).
  assert (Hm : forallb isDigit m = true) by apply digitsOf_digits.
  assert (Hd : forallb isDigit m' = true).
  { unfold m'. destruct (Z.of_nat (List.length m) <=? f); [|exact Hm].
    now rewrite forallb_app, zeros_digits, Hm. }
  assert (Hl : f + 1 <= Z.of_nat (List.length m')).
  { unfold m'. destruct (Z.of_nat (List.length m) <=? f) eqn:E.
    - apply Z.leb_le in E. rewrite length_app, Nat2Z.inj_add, zeros_length; lia.
    - apply Z.leb_gt in E. lia. }
  exists (firstn (Z.to_nat (Z.of_nat (List.length m') - f)) m'),
         (skipn (Z.to_nat (Z.of_nat (List.length m') - f)) m').
  split; [reflexivity|]. split; [|split; [|split]].
  - rewrite length_skipn. lia.
  - intros E. apply (f_equal (@List.length ascii)) in E.
    rewrite length_firstn in E. cbn [List.length] in E. lia.
  - now apply forallb_firstn.
  - now apply forallb_skipn.
Qed.

Lemma toFixed_shape x decimals f :
  isFinite x = true -> Qle_bool (inject_Z (10 ^ 21)) (magnitude x) = false ->
  toIntegerOrInfinity decimals = Some f -> 0 < f <= 100 ->
  exists whole fraction,
    toFixed x decimals
    = Some ((if (x <? zero)%num then lit "-" else []) ++ whole ++ lit "." ++ fraction)
    /\ Z.of_nat (List.length fraction) = f
    /\ whole <> []
    /\ forallb isDigit whole = true /\ forallb isDigit fraction = true.
Proof.
  intros Hx Hq Hd Hf. unfold toFixed. rewrite Hd, Hx, Hq. cbv zeta.
  replace (f <? 0) with false by (symmetry; apply Z.ltb_ge; lia).
  replace (100 <? f) with false by (symmetry; apply Z.ltb_ge; lia).
  cbn [orb negb].
  destruct (fixedText_shape (Qfloor (magnitude x * inject_Z (10 ^ f) + (1 # 2))) f)
    as [whole [fraction [E R]]]; [apply rounded_nonneg; lia|lia|].
  exists whole, fraction. split; [|exact R]. rewrite E.
  now destruct x as [s|s| |[|] m e].
Qed.

(** X27: for a finite value below 10^21 in size and a number of decimals
    from 1 to 100, the text has a sign for a negative value only, then
    at least one digit, a point, and exactly that many digits. *)
Theorem formatNumber_decimals (value decimals : number) (f : Z) :
  isFinite value = true ->
  Qle_bool (inject_Z (10 ^ 21)) (magnitude value) = false ->
  toIntegerOrInfinity decimals = Some f -> 0 < f <= 100 ->
  exists whole fraction,
    formatNumber value decimals
    = Some ((if (value <? zero)%num then lit "-" else [])
            ++ whole ++ lit "." ++ fraction)
    /\ Z.of_nat (List.length fraction) = f
    /\ whole <> []
    /\ forallb isDigit whole = true /\ forallb isDigit fraction = true.
Proof. apply toFixed_shape. Qed.

Lemma toFixed_fails x decimals :
  toFixed x decimals = None
  <-> match toIntegerOrInfinity decimals with
      | Some f => f < 0 \/ 100 < f
      | None => True
      end.
Proof.
  unfold toFixed. destruct (toIntegerOrInfinity decimals) as [f|]; [|tauto].
  destruct (f <? 0) eqn:A; destruct (100 <? f) eqn:B; cbn [orb];
    try apply Z.ltb_lt in A; try apply Z.ltb_lt in B;
    try apply Z.ltb_ge in A; try apply Z.ltb_ge in B;
    try (split; [lia|reflexivity]).
  destruct (negb (isFinite x)); [split; [discriminate|lia]|].
  destruct (Qle_bool _ _); (split; [discriminate|lia]).
Qed.

(** X28: whatever the value, the two formats fail, with a RangeError,
    exactly when the number of decimals, cut to a whole number, is below
    0 or above 100, or is infinite; a number of decimals that is not a
    number counts as 0.  A percentage is the text of a hundred times the
    value, followed by the sign %. *)
Theorem format_range (value decimals : number) :
  (formatNumber value decimals = None
   <-> match toIntegerOrInfinity decimals with
       | Some f => f < 0 \/ 100 < f
       | None => True
       end)
  /\ (formatPercent value decimals = None <-> formatNumber value decimals = None)
  /\ (forall text, formatPercent value decimals = Some text ->
        exists t, formatNumber (fmul value (numberLit "100")) decimals = Some t
                  /\ text = t ++ lit "%")
  /\ toIntegerOrInfinity S754_nan = Some 0.
Proof.
  split; [apply toFixed_fails|]. split; [|split; [|reflexivity]].
  - unfold formatPercent, formatNumber.
    split.
    + intros H. apply toFixed_fails.
      destruct (toFixed (fmul value (numberLit "100")) decimals) eqn:E;
        [discriminate H|]. now apply toFixed_fails in E.
    + intros H. apply toFixed_fails in H.
      now rewrite (proj2 (toFixed_fails (fmul value (numberLit "100")) decimals) H).
  - intros text. unfold formatPercent, formatNumber.
    destruct (toFixed (fmul value (numberLit "100")) decimals) as [t|];
      [|discriminate].
    intros [= <-]. now exists t.
Qed.

End Formatting.

Lemma formatNumber_decimals_witness :
  exists whole fraction,
    formatNumber (numberLit "-8.345") (numberLit "2")
    = Some ((if (numberLit "-8.345" <? zero)%num then lit "-" else [])
            ++ whole ++ lit "." ++ fraction)
    /\ Z.of_nat (List.length fraction) = 2
    /\ whole <> []
    /\ forallb isDigit whole = true /\ forallb isDigit fraction = true.
Proof.
  apply (formatNumber_decimals (numberLit "-8.345") (numberLit "2") 2).
  - reflexivity.
  - reflexivity.
  - reflexivity.
  - lia.
Defined.

(** ** The summary of the results *)

Section Summary.

Lemma leb_refl x : isNaN x = false -> (x <=? x)%num = true.
Proof. intros H. apply eqb_leb. now apply eqb_refl. Qed.

Lemma ltb_false_leb x y :
  isNaN x = false -> isNaN y = false ->
  (x <? y)%num = false -> (y <=? x)%num = true.
Proof.
  intros Hx Hy H. apply key_leb; auto.
  generalize (compare_key x y Hx Hy). unfold ltb, SFltb in H.
  destruct (SFcompare x y) as [[| |]|]; try discriminate H.
  - intros E. right. now symmetry.
  - intros E. now left.
  - intros [].
Qed.

Lemma max_step n h :
  isNaN n = false -> isNaN h = false ->
  let h' := match n, h with
            | S754_zero false, S754_zero true => n
            | _, _ => if (h <? n)%num then n else h
            end in
  isNaN h' = false /\ (h <=? h')%num = true /\ (n <=? h')%num = true
  /\ (h' = h \/ h' = n).
Proof.
  intros Hn Hh h'.
  assert (C : (n = S754_zero false /\ h = S754_zero true /\ h' = n)
              \/ h' = if (h <? n)%num then n else h).
  { subst h'. destruct n as [[|]| | |]; destruct h as [[|]| | |]; auto. }
  destruct C as [[-> [-> ->]] | ->]; [repeat split; auto|].
  destruct (h <? n)%num eqn:E.
  - repeat split; auto; [now apply ltb_leb|now apply leb_refl].
  - repeat split; auto; [now apply leb_refl|now apply ltb_false_leb].
Qed.

Lemma min_step n l :
  isNaN n = false -> isNaN l = false ->
  let l' := match n, l with
            | S754_zero true, S754_zero false => n
            | _, _ => if (n <? l)%num then n else l
            end in
  isNaN l' = false /\ (l' <=? l)%num = true /\ (l' <=? n)%num = true
  /\ (l' = l \/ l' = n).
Proof.
  intros Hn Hl l'.
  assert (C : (n = S754_zero true /\ l = S754_zero false /\ l' = n)
              \/ l' = if (n <? l)%num then n else l).
  { subst l'. destruct n as [[|]| | |]; destruct l as [[|]| | |]; auto. }
  destruct C as [[-> [-> ->]] | ->]; [repeat split; auto|].
  destruct (n <? l)%num eqn:E.
  - repeat split; auto; [now apply ltb_leb|now apply leb_refl].
  - repeat split; auto; [now apply leb_refl|now apply ltb_false_leb].
Qed.

Lemma mathMaxFrom_bounds args : forall h,
  isNaN h = false -> Forall (fun s => isNaN s = false) args ->
  (h <=? mathMaxFrom h args)%num = true
  /\ Forall (fun s => (s <=? mathMaxFrom h args)%num = true) args
  /\ (mathMaxFrom h args = h \/ In (mathMaxFrom h args) args).
Proof.
  induction args as [|n rest IH]; intros h Hh Hargs.
  - cbn [mathMaxFrom]. repeat split; auto. now apply leb_refl.
  - inversion Hargs as [|? ? Hn Hrest]; subst. cbn [mathMaxFrom]. rewrite Hn.
    destruct (max_step n h Hn Hh) as [N [L1 [L2 M]]].
    destruct (IH _ N Hrest) as [B1 [B2 B3]].
    split; [exact (leb_trans _ _ _ L1 B1)|]. split.
    + constructor; [exact (leb_trans _ _ _ L2 B1)|exact B2].
    + destruct B3 as [B3|B3]; [|right; now right].
      rewrite B3. destruct M as [M|M]; [now left|right; left; now symmetry].
Qed.

Lemma mathMinFrom_bounds args : forall l,
  isNaN l = false -> Forall (fun s => isNaN s = false) args ->
  (mathMinFrom l args <=? l)%num = true
  /\ Forall (fun s => (mathMinFrom l args <=? s)%num = true) args
  /\ (mathMinFrom l args = l \/ In (mathMinFrom l args) args).
Proof.
  induction args as [|n rest IH]; intros l Hl Hargs.
  - cbn [mathMinFrom]. repeat split; auto. now apply leb_refl.
  - inversion Hargs as [|? ? Hn Hrest]; subst. cbn [mathMinFrom]. rewrite Hn.
    destruct (min_step n l Hn Hl) as [N [L1 [L2 M]]].
    destruct (IH _ N Hrest) as [B1 [B2 B3]].
    split; [exact (leb_trans _ _ _ B1 L1)|]. split.
    + constructor; [exact (leb_trans _ _ _ B1 L2)|exact B2].
    + destruct B3 as [B3|B3]; [|right; now right].
      rewrite B3. destruct M as [M|M]; [now left|right; left; now symmetry].
Qed.

Lemma mathMaxOf_bounds n rest :
  Forall (fun s => isNaN s = false) (n :: rest) ->
  Forall (fun s => (s <=? mathMaxOf (n :: rest))%num = true) (n :: rest)
  /\ In (mathMaxOf (n :: rest)) (n :: rest).
Proof.
  intros H. inversion H as [|? ? Hn Hrest]; subst.
  assert (E : mathMaxOf (n :: rest) = mathMaxFrom n rest).
  { unfold mathMaxOf. cbn [mathMaxFrom]. rewrite Hn. f_equal.
    destruct n as [[|]|[|]| |[|] m e]; try discriminate Hn; reflexivity. }
  rewrite E. destruct (mathMaxFrom_bounds rest n Hn Hrest) as [B1 [B2 B3]].
  split; [constructor; assumption|].
  destruct B3 as [-> | B3]; [now left|now right].
Qed.

Lemma mathMinOf_bounds n rest :
  Forall (fun s => isNaN s = false) (n :: rest) ->
  Forall (fun s => (mathMinOf (n :: rest) <=? s)%num = true) (n :: rest)
  /\ In (mathMinOf (n :: rest)) (n :: rest).
Proof.
  intros H. inversion H as [|? ? Hn Hrest]; subst.
  assert (E : mathMinOf (n :: rest) = mathMinFrom n rest).
  { unfold mathMinOf. cbn [mathMinFrom]. rewrite Hn. f_equal.
    destruct n as [[|]|[|]| |[|] m e]; try discriminate Hn; reflexivity. }
  rewrite E. destruct (mathMinFrom_bounds rest n Hn Hrest) as [B1 [B2 B3]].
  split; [constructor; assumption|].
  destruct B3 as [-> | B3]; [now left|now right].
Qed.

Lemma mathMaxFrom_nan args : forall h,
  Exists (fun s => isNaN s = true) args -> isNaN (mathMaxFrom h args) = true.
Proof.
  induction args as [|n rest IH]; intros h H; inversion H as [? ? Hn|? ? Hr]; subst;
    cbn [mathMaxFrom].
  - now rewrite Hn.
  - destruct (isNaN n); [reflexivity|now apply IH].
Qed.

Lemma mathMinFrom_nan args : forall l,
  Exists (fun s => isNaN s = true) args -> isNaN (mathMinFrom l args) = true.
Proof.
  induction args as [|n rest IH]; intros l H; inversion H as [? ? Hn|? ? Hr]; subst;
    cbn [mathMinFrom].
  - now rewrite Hn.
  - destruct (isNaN n); [reflexivity|now apply IH].
Qed.

Lemma summaryStats_some results stats :
  Index.summaryStats results = Some stats ->
  results <> []
  /\ stats
     = {| Index.total := List.length results;
          Index.avgRisk := fdiv (fold_left fadd (map riskScore results) zero)
                                (of_Z (Z.of_nat (List.length (map riskScore results))));
          Index.minRisk := mathMinOf (map riskScore results);
          Index.maxRisk := mathMaxOf (map riskScore results);
          Index.lowCount := List.length (filter (Index.inGroup Low) results);
          Index.mediumCount := List.length (filter (Index.inGroup Intermediate) results);
          Index.highCount := List.length (filter (Index.inGroup High) results) |}.
Proof.
  destruct results as [|r0 rest]; [discriminate|].
  intros [= <-]. split; [discriminate|reflexivity].
Qed.

(** X29: when no risk score is NaN, the smallest and the largest risk of
    the summary are scores of actual results and every score lies
    between them; when some score is NaN, both are NaN. *)
Theorem summaryStats_extremes (results : list PatientResult)
        (stats : Index.SummaryStats) :
  Index.summaryStats results = Some stats ->
  (Forall (fun r => isNaN (riskScore r) = false) results ->
   In (Index.minRisk stats) (map riskScore results)
   /\ In (Index.maxRisk stats) (map riskScore results)
   /\ Forall (fun r => (Index.minRisk stats <=? riskScore r)%num = true
                       /\ (riskScore r <=? Index.maxRisk stats)%num = true) results)
  /\ (Exists (fun r => isNaN (riskScore r) = true) results ->
      isNaN (Index.minRisk stats) = true /\ isNaN (Index.maxRisk stats) = true).
Proof.
  intros H0. destruct (summaryStats_some _ _ H0) as [Hne ->]. clear H0.
  cbn [Index.minRisk Index.maxRisk]. split.
  - intros H.
    assert (Hs : Forall (fun s => isNaN s = false) (map riskScore results))
      by now apply Forall_map.
    assert (B : (Forall (fun s => (s <=? mathMaxOf (map riskScore results))%num = true)
                        (map riskScore results)
                 /\ In (mathMaxOf (map riskScore results)) (map riskScore results))
                /\ (Forall (fun s => (mathMinOf (map riskScore results) <=? s)%num = true)
                           (map riskScore results)
                    /\ In (mathMinOf (map riskScore results)) (map riskScore results))).
    { destruct (map riskScore results) as [|s0 scores] eqn:S.
      - destruct results; [now elim Hne|discriminate S].
      - split; [now apply mathMaxOf_bounds|now apply mathMinOf_bounds]. }
    destruct B as [[U1 U2] [L1 L2]].
    split; [exact L2|]. split; [exact U2|].
    apply Forall_map in U1, L1. rewrite Forall_forall in *.
    intros r Hr. split; [now apply L1|now apply U1].
  - intros H.
    assert (Hs : Exists (fun s => isNaN s = true) (map riskScore results))
      by now apply Exists_map.
    split; [now apply mathMinFrom_nan|now apply mathMaxFrom_nan].
Qed.

Lemma count_groups (results : list PatientResult) :
  (List.length (filter (Index.inGroup Low) results)
   + List.length (filter (Index.inGroup Intermediate) results)
   + List.length (filter (Index.inGroup High) results)
   + List.length (filter (fun r => match riskGroup r with
                                   | None => true
                                   | Some _ => false
                                   end) results)
   = List.length results)%nat.
Proof.
  unfold Index.inGroup. induction results as [|r results IH]; [reflexivity|].
  cbn [filter]. destruct (riskGroup r) as [[| |]|]; cbn [List.length]; lia.
Qed.

Lemma predicted_group exp modelBundle t33 t66 result :
  riskRef modelBundle = bothThresholds t33 t66 ->
  predictedWith exp modelBundle result -> riskGroup result <> None.
Proof.
  intros Hb [fuel [idc [tps [random [row [idx H]]]]]].
  unfold Index.predictPatient in H. cbv zeta in H.
  destruct (generateMockSurvivalData _ _ _ _ _); [|discriminate H].
  injection H as <-. cbn [riskGroup]. rewrite Hb.
  unfold classifyRisk, bothThresholds. cbn [q33 q66].
  destruct (_ <=? t33)%num; [discriminate|].
  destruct (_ <=? t66)%num; discriminate.
Qed.

(** X30: the summary counts every result once: the Low, Intermediate and
    High counts and the number of results without a band add up to the
    total, which is the number of results; for results predicted with a
    bundle that has both thresholds, as the demonstration bundle has,
    the three counts alone add up to it. *)
Theorem summaryStats_counts (exp : number -> number) (results : list PatientResult)
        (stats : Index.SummaryStats) :
  Index.summaryStats results = Some stats ->
  Index.total stats = List.length results
  /\ (Index.lowCount stats + Index.mediumCount stats + Index.highCount stats
      + List.length (filter (fun r => match riskGroup r with
                                      | None => true
                                      | Some _ => false
                                      end) results)
      = Index.total stats)%nat
  /\ (Forall (predictedWith exp Index.mockBundle) results ->
      (Index.lowCount stats + Index.mediumCount stats + Index.highCount stats
       = Index.total stats)%nat).
Proof.
  intros H0. destruct (summaryStats_some _ _ H0) as [_ ->]. clear H0.
  cbn [Index.total Index.lowCount Index.mediumCount Index.highCount].
  split; [reflexivity|]. split; [apply count_groups|].
  intros H. rewrite <- (count_groups results).
  assert (E : filter (fun r => match riskGroup r with
                               | None => true
                               | Some _ => false
                               end) results = []).
  { induction H as [|r rs Hr _ IH]; [reflexivity|].
    cbn [filter]. pose proof (predicted_group exp Index.mockBundle (numberLit "0.35")
                                             (numberLit "0.65") r eq_refl Hr) as G.
    destruct (riskGroup r); [exact IH|now elim G]. }
  rewrite E. cbn [List.length]. lia.
Qed.

End Summary.

Lemma summaryStats_extremes_witness :
  In (numberLit "0.25") (map riskScore demoResults)
  /\ In (numberLit "0.75") (map riskScore demoResults)
  /\ Forall (fun r => (numberLit "0.25" <=? riskScore r)%num = true
                      /\ (riskScore r <=? numberLit "0.75")%num = true) demoResults.
Proof.
  pose proof (summaryStats_extremes demoResults _ eq_refl) as [H _].
  apply H. repeat constructor.
Defined.

Lemma summaryStats_counts_witness :
  exists stats,
    Index.summaryStats demoResults = Some stats
    /\ Index.total stats = 3%nat
    /\ (Index.lowCount stats + Index.mediumCount stats + Index.highCount stats + 0
        = Index.total stats)%nat.
Proof.
  eexists. split; [reflexivity|].
  pose proof (summaryStats_counts (fun x => x) demoResults _ eq_refl) as [H1 [H2 _]].
  split; [exact H1|exact H2].
Defined.
